(** * Page interaction controller of the portfolio site

    A shallow embedding of [src/js/main.js] and of its sibling variant
    [src/unnamed/part_000]: theme management, smooth in-page navigation,
    footer year, scroll-triggered reveal, decorative effects and the contact
    form handler.

    The script is written against the browser: every function body is a
    sequence of DOM and window calls.  The embedding therefore has three
    layers.

    - [World]: the part of the browser the script can read or write, one
      record per feature.
    - [JS A]: a state-and-exception monad over [World]; a JavaScript statement
      sequence becomes a chain of binds, a thrown error stops the chain and
      keeps the effects performed so far.
    - the functions of the script, translated one to one and under their
      source names, parameterised by the [Variant] where the two files differ.

    Browser behaviour that the script relies on but does not implement
    (storage, media queries, selector matching, form reset, intersection
    notifications, event dispatch) is modelled next to the function that uses
    it and is named after the API it stands for. *)

From Stdlib Require Import Ascii String ZArith Floats.
From stdpp Require Import base strings gmap list pretty.

Open Scope string_scope.
Open Scope list_scope.

(* Decimal literals such as 0.1 denote the nearest double, as in JavaScript. *)
Set Warnings "-inexact-float".

(** ** Completions *)

(** The errors the script can run into. *)
Inductive Error : Type :=
  | ReferenceError   (* a global that does not exist is referenced *)
  | TypeError        (* a property of [null] is written, or [new] on a non-constructor *)
  | SyntaxError.     (* [querySelector] on a string that is not a selector *)

Inductive Completion (A : Type) : Type :=
  | Normal (a : A)
  | Throw (e : Error).
Arguments Normal {A} a.
Arguments Throw {A} e.

(** ** Handles and listeners *)

(** Element handles.  [document.querySelector] and friends return one of
    these or [null] ([None]). *)
Inductive Ref : Type :=
  | ThemeToggleRef            (* the element matched by '.theme-toggle' *)
  | IconRef                   (* '.icon' inside the toggle *)
  | TextRef                   (* '.text' inside the toggle *)
  | YearRef                   (* #current-year *)
  | ContactFormRef            (* '.contact-form' *)
  | HeroRef                   (* '.hero' *)
  | CodeBlockRef              (* '.code-block' *)
  | AnchorRef (i : nat)       (* i-th anchor of the document *)
  | NodeRef (n : nat).        (* n-th reveal candidate, in document order *)

#[global] Instance Ref_eq_dec : EqDecision Ref.
Proof. solve_decision. Defined.

(** The closures the script registers, one constructor per function
    expression passed to [addEventListener]. *)
Inductive Listener : Type :=
  | SystemThemeListener       (* watchSystemTheme: (e) => {...}             *)
  | ToggleClickListener       (* ThemeManager.init: () => this.toggleTheme() *)
  | AnchorClickListener       (* initSmoothScroll: function(e) {...}         *)
  | SubmitListener            (* initFormHandling: function(e) {...}         *)
  | DomReadyListener          (* init: () => { initScrollAnimations(); ... } *)
  | MouseMoveListener.        (* initParallaxEffect: (e) => {...}            *)

#[global] Instance Listener_eq_dec : EqDecision Listener.
Proof. solve_decision. Defined.

(** ** The theme feature's share of the browser *)

Inductive Scheme : Type := Light | Dark.

#[global] Instance Scheme_eq_dec : EqDecision Scheme.
Proof. solve_decision. Defined.

(** The media queries the script evaluates. *)
Inductive MediaQuery : Type :=
  | PrefersLight     (* '(prefers-color-scheme: light)' *)
  | PrefersDark.     (* '(prefers-color-scheme: dark)'  *)

(** The toggle control: the [textContent] of its two sub-elements ([None]
    when the sub-element is not in the markup) and its click listeners. *)
Record Toggle : Type := mkToggle {
  icon : option string;
  text : option string;
  clickListeners : list Listener
}.

Record ThemeEnv : Type := mkThemeEnv {
  localStorage : option (gmap string string);  (* [None]: no storage API *)
  matchMedia : bool;                           (* is [window.matchMedia] there *)
  colorScheme : option Scheme;                 (* what the OS reports, if anything *)
  rootAttributes : gmap string string;         (* attributes of documentElement *)
  themeToggle : option Toggle;
  darkModeQuery : list Listener                (* 'change' listeners of the dark query *)
}.

(** ** Navigation *)

Inductive Selected : Type :=
  | InvalidSelector
  | NoMatch
  | Match (r : Ref).

Record Anchor : Type := mkAnchor {
  href : string;
  anchorListeners : list Listener
}.

(** Options object handed to [scrollIntoView]. *)
Record ScrollOptions : Type := mkScrollOptions {
  behavior : string;
  block : string
}.

Record NavEnv : Type := mkNavEnv {
  anchors : list Anchor;                    (* the <a href=...> elements, in document order *)
  selectorOracle : string -> Selected;      (* the engine's answer to querySelector *)
  scrollCalls : list (Ref * ScrollOptions); (* calls of scrollIntoView, oldest first *)
  navigations : list string                 (* fragment navigations the browser performed *)
}.

(** ** Reveal animation *)

Record Element : Type := mkElement {
  classList : list string;
  opacity : option string;
  animationDelay : option float    (* style.animationDelay, in seconds *)
}.

Record RevealEnv : Type := mkRevealEnv {
  nodes : list Element;                (* candidates and other nodes, document order *)
  intersectionObserver : bool;         (* is the IntersectionObserver constructor there *)
  observed : option (list Ref);        (* targets of the observer, once constructed *)
  classAdds : list (Ref * string)      (* calls of classList.add, oldest first *)
}.

(** ** Contact form *)

Record Field : Type := mkField {
  fieldName : string;        (* the name attribute *)
  fieldId : string;          (* the id attribute, empty when there is none *)
  fieldValue : string;
  fieldDefault : string      (* the value the markup declares *)
}.

Record Form : Type := mkForm {
  fields : list Field;            (* the controls it lists, image buttons apart *)
  imageNames : list string;       (* id and name values of the img elements inside it *)
  submitListeners : list Listener
}.

Record FormEnv : Type := mkFormEnv {
  contactForm : option Form;
  alerts : list string;                        (* messages shown by alert() *)
  requests : list (list (string * string))     (* submissions the browser sent *)
}.

(** ** Page: ready state, footer, decoration *)

Inductive ReadyState : Type := Loading | Interactive | Complete.

(** One generated particle: the seven [Math.random()] draws that fill its
    [style.cssText], with the arithmetic of the template applied. *)
Record Particle : Type := mkParticle {
  pWidth : float; pHeight : float; pOpacity : float;
  pLeft : float; pTop : float; pDuration : float; pDelay : float
}.

Record PageEnv : Type := mkPageEnv {
  readyState : ReadyState;
  domContentLoaded : list Listener;
  mousemove : list Listener;
  yearElement : option string;         (* textContent of #current-year *)
  fullYear : Z;                        (* new Date().getFullYear() *)
  hero : option (list Particle);       (* children appended to '.hero' *)
  codeBlock : option (option (float * float));  (* style.transform of '.code-block' *)
  innerWidth : float;
  innerHeight : float;
  random : nat -> float;               (* successive results of Math.random() *)
  randomCalls : nat
}.

(** ** The world *)

Record World : Type := mkWorld {
  themeEnv : ThemeEnv;
  navEnv : NavEnv;
  revealEnv : RevealEnv;
  formEnv : FormEnv;
  pageEnv : PageEnv;
  defaultPrevented : bool     (* canceled flag of the event being dispatched *)
}.

(** Field updates. *)
Definition with_themeEnv (f : ThemeEnv -> ThemeEnv) (w : World) : World :=
  mkWorld (f (themeEnv w)) (navEnv w) (revealEnv w) (formEnv w) (pageEnv w)
          (defaultPrevented w).
Definition with_navEnv (f : NavEnv -> NavEnv) (w : World) : World :=
  mkWorld (themeEnv w) (f (navEnv w)) (revealEnv w) (formEnv w) (pageEnv w)
          (defaultPrevented w).
Definition with_revealEnv (f : RevealEnv -> RevealEnv) (w : World) : World :=
  mkWorld (themeEnv w) (navEnv w) (f (revealEnv w)) (formEnv w) (pageEnv w)
          (defaultPrevented w).
Definition with_formEnv (f : FormEnv -> FormEnv) (w : World) : World :=
  mkWorld (themeEnv w) (navEnv w) (revealEnv w) (f (formEnv w)) (pageEnv w)
          (defaultPrevented w).
Definition with_pageEnv (f : PageEnv -> PageEnv) (w : World) : World :=
  mkWorld (themeEnv w) (navEnv w) (revealEnv w) (formEnv w) (f (pageEnv w))
          (defaultPrevented w).
Definition with_defaultPrevented (b : bool) (w : World) : World :=
  mkWorld (themeEnv w) (navEnv w) (revealEnv w) (formEnv w) (pageEnv w) b.

Definition set_localStorage (v : option (gmap string string)) (t : ThemeEnv) : ThemeEnv :=
  mkThemeEnv v (matchMedia t) (colorScheme t) (rootAttributes t) (themeToggle t)
             (darkModeQuery t).
Definition set_colorScheme (v : option Scheme) (t : ThemeEnv) : ThemeEnv :=
  mkThemeEnv (localStorage t) (matchMedia t) v (rootAttributes t) (themeToggle t)
             (darkModeQuery t).
Definition set_rootAttributes (v : gmap string string) (t : ThemeEnv) : ThemeEnv :=
  mkThemeEnv (localStorage t) (matchMedia t) (colorScheme t) v (themeToggle t)
             (darkModeQuery t).
Definition set_themeToggle (v : option Toggle) (t : ThemeEnv) : ThemeEnv :=
  mkThemeEnv (localStorage t) (matchMedia t) (colorScheme t) (rootAttributes t) v
             (darkModeQuery t).
Definition set_darkModeQuery (v : list Listener) (t : ThemeEnv) : ThemeEnv :=
  mkThemeEnv (localStorage t) (matchMedia t) (colorScheme t) (rootAttributes t)
             (themeToggle t) v.

(** ** The monad of script fragments *)

Definition JS (A : Type) : Type := World -> World * Completion A.

Definition ret {A} (a : A) : JS A := fun w => (w, Normal a).

Definition bind {A B} (m : JS A) (k : A -> JS B) : JS B := fun w =>
  match m w with
  | (w', Normal a) => k a w'
  | (w', Throw e) => (w', Throw e)
  end.

Declare Scope js_scope.
Delimit Scope js_scope with js.
Bind Scope js_scope with JS.
Notation "'let*' x ':=' m 'in' k" := (bind m (fun x => k))
  (at level 10, x name, m at level 100, k at level 200) : js_scope.
Notation "m ;; k" := (bind m (fun _ => k))
  (at level 100, k at level 200, right associativity) : js_scope.
Open Scope js_scope.

Definition gets {A} (f : World -> A) : JS A := fun w => (w, Normal (f w)).
Definition modify (f : World -> World) : JS unit := fun w => (f w, Normal tt).

(** State and completion a fragment ends in. *)
Definition exec {A} (m : JS A) (w : World) : World := fst (m w).
Definition completion {A} (m : JS A) (w : World) : Completion A := snd (m w).

(** JavaScript truthiness of a value that is a string or [null]. *)
Definition truthy (v : option string) : bool :=
  match v with
  | Some s => negb (String.eqb s "")
  | None => false
  end.

(** ** Storage, root attributes, media queries *)

Definition localStorage_getItem (key : string) : JS (option string) := fun w =>
  match localStorage (themeEnv w) with
  | None => (w, Throw ReferenceError)
  | Some st => (w, Normal (st !! key))
  end.

Definition localStorage_setItem (key value : string) : JS unit := fun w =>
  match localStorage (themeEnv w) with
  | None => (w, Throw ReferenceError)
  | Some st =>
      (with_themeEnv (set_localStorage (Some (<[key := value]> st))) w, Normal tt)
  end.

Definition documentElement_setAttribute (name value : string) : JS unit :=
  modify (with_themeEnv (fun t => set_rootAttributes (<[name := value]> (rootAttributes t)) t)).

Definition documentElement_getAttribute (name : string) : JS (option string) :=
  gets (fun w => rootAttributes (themeEnv w) !! name).

(** [window.matchMedia] read as a condition. *)
Definition window_matchMedia : JS bool := gets (fun w => matchMedia (themeEnv w)).

(** What the engine answers for a query under the reported scheme. *)
Definition queryMatches (q : MediaQuery) (s : option Scheme) : bool :=
  match q, s with
  | PrefersLight, Some Light => true
  | PrefersDark, Some Dark => true
  | _, _ => false
  end.

(** [window.matchMedia(q).matches]; calling an absent function is a TypeError. *)
Definition matchMedia_matches (q : MediaQuery) : JS bool := fun w =>
  if matchMedia (themeEnv w)
  then (w, Normal (queryMatches q (colorScheme (themeEnv w))))
  else (w, Throw TypeError).

Definition set_anchors (v : list Anchor) (n : NavEnv) : NavEnv :=
  mkNavEnv v (selectorOracle n) (scrollCalls n) (navigations n).
Definition set_scrollCalls (v : list (Ref * ScrollOptions)) (n : NavEnv) : NavEnv :=
  mkNavEnv (anchors n) (selectorOracle n) v (navigations n).
Definition set_navigations (v : list string) (n : NavEnv) : NavEnv :=
  mkNavEnv (anchors n) (selectorOracle n) (scrollCalls n) v.

Definition set_nodes (v : list Element) (r : RevealEnv) : RevealEnv :=
  mkRevealEnv v (intersectionObserver r) (observed r) (classAdds r).
Definition set_observed (v : option (list Ref)) (r : RevealEnv) : RevealEnv :=
  mkRevealEnv (nodes r) (intersectionObserver r) v (classAdds r).
Definition set_classAdds (v : list (Ref * string)) (r : RevealEnv) : RevealEnv :=
  mkRevealEnv (nodes r) (intersectionObserver r) (observed r) v.

Definition set_contactForm (v : option Form) (f : FormEnv) : FormEnv :=
  mkFormEnv v (alerts f) (requests f).
Definition set_alerts (v : list string) (f : FormEnv) : FormEnv :=
  mkFormEnv (contactForm f) v (requests f).
Definition set_requests (v : list (list (string * string))) (f : FormEnv) : FormEnv :=
  mkFormEnv (contactForm f) (alerts f) v.

Definition set_domContentLoaded (v : list Listener) (p : PageEnv) : PageEnv :=
  mkPageEnv (readyState p) v (mousemove p) (yearElement p) (fullYear p) (hero p)
            (codeBlock p) (innerWidth p) (innerHeight p) (random p) (randomCalls p).
Definition set_mousemove (v : list Listener) (p : PageEnv) : PageEnv :=
  mkPageEnv (readyState p) (domContentLoaded p) v (yearElement p) (fullYear p) (hero p)
            (codeBlock p) (innerWidth p) (innerHeight p) (random p) (randomCalls p).
Definition set_yearElement (v : option string) (p : PageEnv) : PageEnv :=
  mkPageEnv (readyState p) (domContentLoaded p) (mousemove p) v (fullYear p) (hero p)
            (codeBlock p) (innerWidth p) (innerHeight p) (random p) (randomCalls p).
Definition set_hero (v : option (list Particle)) (p : PageEnv) : PageEnv :=
  mkPageEnv (readyState p) (domContentLoaded p) (mousemove p) (yearElement p)
            (fullYear p) v (codeBlock p) (innerWidth p) (innerHeight p) (random p)
            (randomCalls p).
Definition set_codeBlock (v : option (option (float * float))) (p : PageEnv) : PageEnv :=
  mkPageEnv (readyState p) (domContentLoaded p) (mousemove p) (yearElement p)
            (fullYear p) (hero p) v (innerWidth p) (innerHeight p) (random p)
            (randomCalls p).
Definition set_randomCalls (v : nat) (p : PageEnv) : PageEnv :=
  mkPageEnv (readyState p) (domContentLoaded p) (mousemove p) (yearElement p)
            (fullYear p) (hero p) (codeBlock p) (innerWidth p) (innerHeight p)
            (random p) v.
Definition set_readyState (v : ReadyState) (p : PageEnv) : PageEnv :=
  mkPageEnv v (domContentLoaded p) (mousemove p) (yearElement p) (fullYear p) (hero p)
            (codeBlock p) (innerWidth p) (innerHeight p) (random p) (randomCalls p).

(** ** DOM calls *)

(** The handle of a slot of the world, [null] when the slot is empty. *)
Definition handle {A} (r : Ref) (slot : option A) : option Ref :=
  match slot with
  | Some _ => Some r
  | None => None
  end.

(** A slot with its content replaced, if it has one. *)
Definition refill {A} (x : A) (slot : option A) : option A :=
  match slot with
  | Some _ => Some x
  | None => None
  end.

(** [document.querySelector(sel)].  The selectors the script spells out are
    answered from the slots of the world; any other string (an anchor's href)
    is left to the selector engine. *)
Definition document_querySelector (sel : string) : JS (option Ref) := fun w =>
  if String.eqb sel ".theme-toggle" then
    (w, Normal (handle ThemeToggleRef (themeToggle (themeEnv w))))
  else if String.eqb sel ".contact-form" then
    (w, Normal (handle ContactFormRef (contactForm (formEnv w))))
  else if String.eqb sel ".hero" then
    (w, Normal (handle HeroRef (hero (pageEnv w))))
  else if String.eqb sel ".code-block" then
    (w, Normal (handle CodeBlockRef (codeBlock (pageEnv w))))
  else
    match selectorOracle (navEnv w) sel with
    | InvalidSelector => (w, Throw SyntaxError)
    | NoMatch => (w, Normal None)
    | Match r => (w, Normal (Some r))
    end.

(** [parent.querySelector(sel)], used on the toggle control only. *)
Definition element_querySelector (parent : Ref) (sel : string) : JS (option Ref) :=
  gets (fun w =>
    match parent, themeToggle (themeEnv w) with
    | ThemeToggleRef, Some t =>
        if String.eqb sel ".icon" then handle IconRef (icon t)
        else if String.eqb sel ".text" then handle TextRef (text t)
        else None
    | _, _ => None
    end).

Definition document_getElementById (id : string) : JS (option Ref) :=
  gets (fun w =>
    if String.eqb id "current-year" then handle YearRef (yearElement (pageEnv w))
    else None).

(** [target.textContent = value]; on [null] the assignment throws. *)
Definition set_textContent (target : option Ref) (value : string) : JS unit := fun w =>
  match target with
  | None => (w, Throw TypeError)
  | Some IconRef =>
      (with_themeEnv (fun t =>
         set_themeToggle
           (fmap (M := option)
              (fun c => mkToggle (refill value (icon c)) (text c) (clickListeners c))
              (themeToggle t)) t) w, Normal tt)
  | Some TextRef =>
      (with_themeEnv (fun t =>
         set_themeToggle
           (fmap (M := option)
              (fun c => mkToggle (icon c) (refill value (text c)) (clickListeners c))
              (themeToggle t)) t) w, Normal tt)
  | Some YearRef =>
      (with_pageEnv (fun p => set_yearElement (refill value (yearElement p)) p) w,
       Normal tt)
  | Some _ => (w, Normal tt)
  end.

(** Things a listener can be attached to. *)
Inductive EventTarget : Type :=
  | MediaQueryListTarget (q : MediaQuery)
  | ElementTarget (r : Ref)
  | DocumentTarget.

(** [target.addEventListener(type, listener)].  Every closure of the script
    is a fresh function object, so nothing is deduplicated. *)
Definition addEventListener (target : EventTarget) (type : string) (l : Listener) : JS unit :=
  modify (fun w =>
    match target with
    | MediaQueryListTarget PrefersDark =>
        if String.eqb type "change"
        then with_themeEnv (fun t => set_darkModeQuery (darkModeQuery t ++ [l]) t) w
        else w
    | MediaQueryListTarget PrefersLight => w
    | ElementTarget ThemeToggleRef =>
        if String.eqb type "click"
        then with_themeEnv (fun t =>
               set_themeToggle
                 (fmap (M := option) (fun c => mkToggle (icon c) (text c) (clickListeners c ++ [l]))
                    (themeToggle t)) t) w
        else w
    | ElementTarget (AnchorRef i) =>
        if String.eqb type "click"
        then with_navEnv (fun n =>
               set_anchors
                 (alter (fun a => mkAnchor (href a) (anchorListeners a ++ [l])) i (anchors n)) n) w
        else w
    | ElementTarget ContactFormRef =>
        if String.eqb type "submit"
        then with_formEnv (fun f =>
               set_contactForm
                 (fmap (M := option)
                    (fun c => mkForm (fields c) (imageNames c) (submitListeners c ++ [l]))
                    (contactForm f)) f) w
        else w
    | ElementTarget _ => w
    | DocumentTarget =>
        if String.eqb type "DOMContentLoaded"
        then with_pageEnv (fun p => set_domContentLoaded (domContentLoaded p ++ [l]) p) w
        else if String.eqb type "mousemove"
        then with_pageEnv (fun p => set_mousemove (mousemove p ++ [l]) p) w
        else w
    end).

(** The two source files. *)
Inductive Variant : Type :=
  | MainJs      (* src/js/main.js *)
  | Part000.    (* src/unnamed/part_000 *)

(** Strict equality of a string-or-null value with a string literal. *)
Definition strictEq (v : option string) (s : string) : bool :=
  match v with
  | Some x => String.eqb x s
  | None => false
  end.

(** Bytes of a string literal that is not ASCII. *)
Definition bytes (l : list nat) : string :=
  fold_right (fun n s => String (ascii_of_nat n) s) EmptyString l.

(** ** ThemeManager *)

Module ThemeManager.
Section Variants.
Context (variant : Variant).

(** The glyph literals, byte for byte as each file has them. *)
Definition sunGlyph : string :=
  match variant with
  | MainJs => bytes [226; 152; 128; 239; 184; 143]
  | Part000 => bytes [195; 162; 203; 156; 226; 130; 172; 195; 175; 194; 184]
  end.
Definition moonGlyph : string :=
  match variant with
  | MainJs => bytes [240; 159; 140; 153]
  | Part000 => bytes [195; 176; 197; 184; 197; 146; 226; 132; 162]
  end.

(** The query of line 21, the theme it selects and the fallback. *)
Definition initialQuery : MediaQuery :=
  match variant with MainJs => PrefersLight | Part000 => PrefersDark end.
Definition queriedTheme : string :=
  match variant with MainJs => "light" | Part000 => "dark" end.
Definition fallbackTheme : string :=
  match variant with MainJs => "dark" | Part000 => "light" end.

Definition getInitialTheme : JS string :=
  let* storedTheme := localStorage_getItem "theme" in
  if truthy storedTheme then
    (* a truthy value read from storage is a string *)
    ret (default "" storedTheme)
  else
    let* mm := window_matchMedia in
    let* matches := (if mm then matchMedia_matches initialQuery else ret false : JS bool) in
    if matches then ret queriedTheme else ret fallbackTheme.

Definition updateToggleButton (theme : string) : JS unit :=
  let* toggle := document_querySelector ".theme-toggle" in
  match toggle with
  | None => ret tt
  | Some toggle =>
      let* icon := element_querySelector toggle ".icon" in
      let* text := element_querySelector toggle ".text" in
      if String.eqb theme "dark" then
        set_textContent icon sunGlyph;;
        match text with
        | Some _ => set_textContent text "Light"
        | None => ret tt
        end
      else
        set_textContent icon moonGlyph;;
        match text with
        | Some _ => set_textContent text "Dark"
        | None => ret tt
        end
  end.

Definition applyTheme (theme : string) : JS unit :=
  documentElement_setAttribute "data-theme" theme;;
  localStorage_setItem "theme" theme;;
  updateToggleButton theme.

Definition toggleTheme : JS unit :=
  let* currentTheme := documentElement_getAttribute "data-theme" in
  let newTheme := if strictEq currentTheme "dark" then "light" else "dark" in
  applyTheme newTheme.

(** The arrow function of lines 65-72; [matches] is [e.matches]. *)
Definition systemThemeListener (matches : bool) : JS unit :=
  let* storedTheme := localStorage_getItem "theme" in
  if negb (truthy storedTheme) then
    let newTheme := if matches then "dark" else "light" in
    applyTheme newTheme
  else ret tt.

Definition watchSystemTheme : JS unit :=
  let* mm := window_matchMedia in
  if negb mm then ret tt
  else addEventListener (MediaQueryListTarget PrefersDark) "change" SystemThemeListener.

Definition init : JS unit :=
  let* initialTheme := getInitialTheme in
  applyTheme initialTheme;;
  watchSystemTheme;;
  let* toggle := document_querySelector ".theme-toggle" in
  match toggle with
  | Some toggle => addEventListener (ElementTarget toggle) "click" ToggleClickListener
  | None => ret tt
  end.

End Variants.
End ThemeManager.

(** ** Iteration *)

(** [list.forEach(f)]: the elements in order; a throw ends the loop. *)
Fixpoint forEach {A} (l : list A) (f : A -> JS unit) : JS unit :=
  match l with
  | [] => ret tt
  | x :: l' => f x;; forEach l' f
  end.

(** [list.forEach((x, index) => ...)], counting from [start]. *)
Fixpoint forEachIndexed {A} (start : nat) (l : list A) (f : A -> nat -> JS unit) : JS unit :=
  match l with
  | [] => ret tt
  | x :: l' => f x start;; forEachIndexed (S start) l' f
  end.

(** [for (let i = 0; i < n; i++) body]. *)
Fixpoint forLoop (n : nat) (body : JS unit) : JS unit :=
  match n with
  | O => ret tt
  | S n' => body;; forLoop n' body
  end.

(** ** Selecting several elements *)

Definition quote : string := String (ascii_of_nat 34) EmptyString.

(** The selector of line 94: [a[href^=...]] with the hash in quotes. *)
Definition hashAnchorSelector : string :=
  ("a[href^=" ++ quote ++ "#" ++ quote ++ "]")%string.

Definition hasClass (c : string) (e : Element) : bool :=
  bool_decide (c ∈ classList e).

(** Positions of the elements of [l] that satisfy [p], in order. *)
Fixpoint positions {A} (p : A -> bool) (start : nat) (l : list A) : list nat :=
  match l with
  | [] => []
  | x :: l' => if p x then start :: positions p (S start) l' else positions p (S start) l'
  end.

Definition startsWithHash (s : string) : bool := String.prefix "#" s.

(** [document.querySelectorAll(sel)] for the selectors the script uses;
    document order, every element once. *)
Definition document_querySelectorAll (sel : string) : JS (list Ref) :=
  gets (fun w =>
    if String.eqb sel hashAnchorSelector then
      AnchorRef <$> positions (fun a => startsWithHash (href a)) 0 (anchors (navEnv w))
    else if String.eqb sel ".project-card" then
      NodeRef <$> positions (hasClass "project-card") 0 (nodes (revealEnv w))
    else if String.eqb sel ".skill-item" then
      NodeRef <$> positions (hasClass "skill-item") 0 (nodes (revealEnv w))
    else if String.eqb sel ".contact-item" then
      NodeRef <$> positions (hasClass "contact-item") 0 (nodes (revealEnv w))
    else if String.eqb sel ".project-card, .skill-item, .contact-item" then
      NodeRef <$> positions (fun e => hasClass "project-card" e || hasClass "skill-item" e
                                      || hasClass "contact-item" e) 0 (nodes (revealEnv w))
    else []).

(** ** Smooth scrolling *)

(** [this.getAttribute(name)] on an anchor. *)
Definition element_getAttribute (this : Ref) (name : string) : JS (option string) :=
  gets (fun w =>
    match this with
    | AnchorRef i =>
        if String.eqb name "href" then href <$> anchors (navEnv w) !! i else None
    | _ => None
    end).

Definition preventDefault : JS unit := modify (with_defaultPrevented true).

Definition scrollIntoView (target : Ref) (options : ScrollOptions) : JS unit :=
  modify (with_navEnv (fun n => set_scrollCalls (scrollCalls n ++ [(target, options)]) n)).

(** The click handler of lines 95-107, [this] being the clicked anchor. *)
Definition anchorClickListener (this : Ref) : JS unit :=
  let* href := element_getAttribute this "href" in
  if strictEq href "#" then ret tt
  else
    preventDefault;;
    (* a [null] argument would be converted to the string "null" *)
    let* target := document_querySelector (default "null" href) in
    match target with
    | Some target => scrollIntoView target (mkScrollOptions "smooth" "start")
    | None => ret tt
    end.

Definition initSmoothScroll : JS unit :=
  let* found := document_querySelectorAll hashAnchorSelector in
  forEach found (fun anchor =>
    addEventListener (ElementTarget anchor) "click" AnchorClickListener).

(** ** Footer year *)

Definition date_getFullYear : JS Z := gets (fun w => fullYear (pageEnv w)).

Definition updateFooterYear : JS unit :=
  let* yearElement := document_getElementById "current-year" in
  match yearElement with
  | Some _ =>
      let* year := date_getFullYear in
      set_textContent yearElement (pretty year)
  | None => ret tt
  end.

(** ** Scroll animations *)

Record Entry : Type := mkEntry {
  isIntersecting : bool;
  target : Ref
}.

(** [new IntersectionObserver(callback, options)]: the observer of the page
    starts with no targets.  Without the constructor the name is unbound.
    The options (threshold 0.1, bottom margin -50px) tell the browser when to
    report; what it reports is an input of [intersect] below. *)
Definition new_IntersectionObserver : JS unit := fun w =>
  if intersectionObserver (revealEnv w)
  then (with_revealEnv (set_observed (Some [])) w, Normal tt)
  else (w, Throw ReferenceError).

(** [observer.observe(el)]: a target already in the list is not added again. *)
Definition observe (el : Ref) : JS unit :=
  modify (with_revealEnv (fun r =>
    set_observed
      (fmap (M := option) (fun l => if bool_decide (el ∈ l) then l else l ++ [el])
         (observed r)) r)).

Definition unobserve (el : Ref) : JS unit :=
  modify (with_revealEnv (fun r =>
    set_observed
      (fmap (M := option) (fun l => filter (fun x => x ≠ el) l) (observed r)) r)).

(** [el.classList.add(c)]: the call is recorded; the token list holds each
    class once. *)
Definition classList_add (el : Ref) (c : string) : JS unit :=
  modify (with_revealEnv (fun r =>
    set_classAdds (classAdds r ++ [(el, c)])
      (match el with
       | NodeRef n =>
           set_nodes
             (alter (fun e =>
                mkElement (if bool_decide (c ∈ classList e) then classList e
                           else classList e ++ [c])
                          (opacity e) (animationDelay e)) n (nodes r)) r
       | _ => r
       end))).

Definition set_style_opacity (el : Ref) (v : string) : JS unit :=
  modify (with_revealEnv (fun r =>
    match el with
    | NodeRef n =>
        set_nodes (alter (fun e => mkElement (classList e) (Some v) (animationDelay e)) n
                     (nodes r)) r
    | _ => r
    end)).

(** [el.style.animationDelay = `${seconds}s`]. *)
Definition set_style_animationDelay (el : Ref) (seconds : float) : JS unit :=
  modify (with_revealEnv (fun r =>
    match el with
    | NodeRef n =>
        set_nodes (alter (fun e => mkElement (classList e) (opacity e) (Some seconds)) n
                     (nodes r)) r
    | _ => r
    end)).

(** A loop index as a JavaScript number. *)
Definition number_of_nat (n : nat) : float :=
  PrimFloat.of_uint63 (Uint63.of_Z (Z.of_nat n)).

(** The callback handed to the observer, lines 132-139. *)
Definition revealCallback (entries : list Entry) : JS unit :=
  forEach entries (fun entry =>
    if isIntersecting entry then
      classList_add (target entry) "animate-fade-in";;
      unobserve (target entry)
    else ret tt).

Definition initScrollAnimations (variant : Variant) : JS unit :=
  new_IntersectionObserver;;
  match variant with
  | MainJs =>
      let* projectCards := document_querySelectorAll ".project-card" in
      forEachIndexed 0 projectCards (fun card index =>
        set_style_opacity card "0";;
        set_style_animationDelay card (number_of_nat index * 0.1)%float;;
        observe card);;
      let* skillItems := document_querySelectorAll ".skill-item" in
      forEachIndexed 0 skillItems (fun item index =>
        set_style_opacity item "0";;
        set_style_animationDelay item (number_of_nat index * 0.15)%float;;
        observe item);;
      let* contactItems := document_querySelectorAll ".contact-item" in
      forEach contactItems (fun el =>
        set_style_opacity el "0";;
        observe el)
  | Part000 =>
      let* found := document_querySelectorAll ".project-card, .skill-item, .contact-item" in
      forEach found (fun el => observe el)
  end.

(** ** Parallax and particles (main.js only) *)

Definition window_innerWidth : JS float := gets (fun w => innerWidth (pageEnv w)).
Definition window_innerHeight : JS float := gets (fun w => innerHeight (pageEnv w)).

(** [el.style.transform = `translate(${x}px, ${y}px)`].  An infinity or a
    NaN prints as [Infinity], [-Infinity] or [NaN], which is no CSS number:
    the browser drops the declaration and the element keeps the transform it
    had. *)
Definition set_style_transform (el : Ref) (x y : float) : JS unit :=
  modify (with_pageEnv (fun p =>
    match el with
    | CodeBlockRef =>
        if is_finite x && is_finite y
        then set_codeBlock (refill (Some (x, y)) (codeBlock p)) p
        else p
    | _ => p
    end)).

(** The mousemove handler of lines 171-181. *)
Definition mouseMoveListener (clientX clientY : float) : JS unit :=
  let* iw := window_innerWidth in
  let mouseX := (clientX / iw)%float in
  let* ih := window_innerHeight in
  let mouseY := (clientY / ih)%float in
  let* codeBlock := document_querySelector ".code-block" in
  match codeBlock with
  | Some codeBlock =>
      let moveX := ((mouseX - 0.5) * 20)%float in
      let moveY := ((mouseY - 0.5) * 20)%float in
      set_style_transform codeBlock moveX moveY
  | None => ret tt
  end.

Definition initParallaxEffect : JS unit :=
  let* hero := document_querySelector ".hero" in
  match hero with
  | None => ret tt
  | Some _ => addEventListener DocumentTarget "mousemove" MouseMoveListener
  end.

Definition Math_random : JS float := fun w =>
  (with_pageEnv (fun p => set_randomCalls (S (randomCalls p)) p) w,
   Normal (random (pageEnv w) (randomCalls (pageEnv w)))).

Definition appendChild (parent : Ref) (child : Particle) : JS unit :=
  modify (with_pageEnv (fun p =>
    match parent with
    | HeroRef => set_hero (fmap (M := option) (fun l => l ++ [child]) (hero p)) p
    | _ => p
    end)).

Definition addParticleEffect : JS unit :=
  let* hero := document_querySelector ".hero" in
  match hero with
  | None => ret tt
  | Some hero =>
      forLoop 15
        (let* r1 := Math_random in
         let* r2 := Math_random in
         let* r3 := Math_random in
         let* r4 := Math_random in
         let* r5 := Math_random in
         let* r6 := Math_random in
         let* r7 := Math_random in
         let particle :=
           mkParticle (r1 * 4 + 2) (r2 * 4 + 2) (r3 * 0.3 + 0.1) (r4 * 100) (r5 * 100)
                      (r6 * 10 + 5) (r7 * 5) in
         appendChild hero particle)%float
  end.

(** ** Form handling *)

Definition alert (message : string) : JS unit :=
  modify (with_formEnv (fun f => set_alerts (alerts f ++ [message]) f)).

(** The names under which a form exposes its controls and images as
    properties of the form object. *)
Definition namedItems (c : Form) : list string :=
  concat ((fun x => [fieldName x; fieldId x]) <$> fields c) ++ imageNames c.

(** The named properties of a form override its built-in ones: with a
    control or an image called "reset", [form.reset] is that element and
    not the method. *)
Definition resetShadowed (c : Form) : bool :=
  bool_decide ("reset" ∈ namedItems c).

(** The fields of a form after [reset()]. *)
Definition resetFields (l : list Field) : list Field :=
  (fun x => mkField (fieldName x) (fieldId x) (fieldDefault x) (fieldDefault x)) <$> l.

(** [this.reset()]: every control goes back to the value its markup
    declares; where [this.reset] is an element of the form, calling it
    throws a TypeError. *)
Definition form_reset (this : Ref) : JS unit := fun w =>
  match this, contactForm (formEnv w) with
  | ContactFormRef, Some c =>
      if resetShadowed c then (w, Throw TypeError)
      else
        (with_formEnv
           (set_contactForm
              (Some (mkForm (resetFields (fields c)) (imageNames c) (submitListeners c)))) w,
         Normal tt)
  | _, _ => (w, Normal tt)
  end.

(** The submit handler of the contact form, [this] being the form. *)
Definition submitListener (this : Ref) : JS unit :=
  preventDefault;;
  alert "Thank you for your message! I'll get back to you soon.";;
  form_reset this.

Definition initFormHandling : JS unit :=
  let* contactForm := document_querySelector ".contact-form" in
  match contactForm with
  | None => ret tt
  | Some contactForm => addEventListener (ElementTarget contactForm) "submit" SubmitListener
  end.

(** ** Initialisation *)

(** What runs once the document is parsed (the body of both branches of the
    [readyState] test). *)
Definition deferredInit (variant : Variant) : JS unit :=
  initScrollAnimations variant;;
  initFormHandling;;
  match variant with
  | MainJs => initParallaxEffect;; addParticleEffect
  | Part000 => ret tt
  end.

Definition document_readyState : JS ReadyState := gets (fun w => readyState (pageEnv w)).

Definition init (variant : Variant) : JS unit :=
  ThemeManager.init variant;;
  updateFooterYear;;
  initSmoothScroll;;
  let* state := document_readyState in
  match state with
  | Loading => addEventListener DocumentTarget "DOMContentLoaded" DomReadyListener
  | _ => deferredInit variant
  end.

(** ** Events *)

Inductive Event : Type :=
  | ChangeEvent (matches : bool)           (* MediaQueryListEvent *)
  | ClickEvent (this : Ref)
  | SubmitEvent (this : Ref)
  | DomContentLoadedEvent
  | MouseMoveEvent (clientX clientY : float).

(** The body of a registered closure, applied to the event it receives. *)
Definition runListener (variant : Variant) (l : Listener) (e : Event) : JS unit :=
  match l, e with
  | SystemThemeListener, ChangeEvent matches => ThemeManager.systemThemeListener variant matches
  | ToggleClickListener, _ => ThemeManager.toggleTheme variant
  | AnchorClickListener, ClickEvent this => anchorClickListener this
  | SubmitListener, SubmitEvent this => submitListener this
  | DomReadyListener, _ => deferredInit variant
  | MouseMoveListener, MouseMoveEvent x y => mouseMoveListener x y
  | _, _ => ret tt
  end.

(** The browser calls the listeners in registration order; an exception
    escaping one of them is reported and the next one still runs. *)
Fixpoint dispatch (variant : Variant) (ls : list Listener) (e : Event) (w : World) : World :=
  match ls with
  | [] => w
  | l :: ls' => dispatch variant ls' e (exec (runListener variant l e) w)
  end.

(** The OS switches its colour scheme. *)
Definition osThemeChange (variant : Variant) (s : Scheme) (w : World) : World :=
  let w1 := with_themeEnv (set_colorScheme (Some s)) w in
  dispatch variant (darkModeQuery (themeEnv w1)) (ChangeEvent (bool_decide (s = Dark))) w1.

(** The user clicks the toggle control. *)
Definition clickToggle (variant : Variant) (w : World) : World :=
  match themeToggle (themeEnv w) with
  | Some t => dispatch variant (clickListeners t) (ClickEvent ThemeToggleRef) w
  | None => w
  end.

(** The user clicks the [i]-th anchor: listeners first, then, unless
    cancelled, the navigation to the fragment. *)
Definition clickAnchor (variant : Variant) (i : nat) (w : World) : World :=
  match anchors (navEnv w) !! i with
  | Some a =>
      let w1 := dispatch variant (anchorListeners a) (ClickEvent (AnchorRef i))
                  (with_defaultPrevented false w) in
      if defaultPrevented w1 then w1
      else with_navEnv (fun n => set_navigations (navigations n ++ [href a]) n) w1
  | None => w
  end.

(** The user submits the contact form: listeners first, then, unless
    cancelled, the request carrying the field values. *)
Definition submitForm (variant : Variant) (w : World) : World :=
  match contactForm (formEnv w) with
  | Some c =>
      let w1 := dispatch variant (submitListeners c) (SubmitEvent ContactFormRef)
                  (with_defaultPrevented false w) in
      if defaultPrevented w1 then w1
      else
        with_formEnv (fun f =>
          set_requests
            (requests f ++
               [match contactForm f with
                | Some c1 => (fun x => (fieldName x, fieldValue x)) <$> fields c1
                | None => []
                end]) f) w1
  | None => w
  end.

(** The document finishes parsing: the ready state changes and
    DOMContentLoaded fires on the document as it is then.  Elements that
    the parser added after the script ran are put into the world
    beforehand ([parseRest] below). *)
Definition domReady (variant : Variant) (w : World) : World :=
  let w1 := with_pageEnv (set_readyState Interactive) w in
  dispatch variant (domContentLoaded (pageEnv w1)) DomContentLoadedEvent w1.

(** The observer reports a batch of entries. *)
Definition intersect (entries : list Entry) (w : World) : World :=
  match observed (revealEnv w) with
  | Some _ => exec (revealCallback entries) w
  | None => w
  end.

(** ** Vocabulary of the statements *)

(** Short names for the members of [ThemeManager].  Its [init] keeps the
    qualified name: plain [init] is the function that starts the page. *)
Abbreviation getInitialTheme := ThemeManager.getInitialTheme.
Abbreviation applyTheme := ThemeManager.applyTheme.
Abbreviation updateToggleButton := ThemeManager.updateToggleButton.
Abbreviation toggleTheme := ThemeManager.toggleTheme.
Abbreviation systemThemeListener := ThemeManager.systemThemeListener.
Abbreviation watchSystemTheme := ThemeManager.watchSystemTheme.
Abbreviation sunGlyph := ThemeManager.sunGlyph.
Abbreviation moonGlyph := ThemeManager.moonGlyph.
Abbreviation initialQuery := ThemeManager.initialQuery.
Abbreviation queriedTheme := ThemeManager.queriedTheme.
Abbreviation fallbackTheme := ThemeManager.fallbackTheme.



(** What the toggle control shows once [updateToggleButton theme] has run. *)
Definition shownToggle (variant : Variant) (theme : string) (t : Toggle) : Toggle :=
  if String.eqb theme "dark"
  then mkToggle (Some (sunGlyph variant)) (refill "Light" (text t)) (clickListeners t)
  else mkToggle (Some (moonGlyph variant)) (refill "Dark" (text t)) (clickListeners t).

(** The toggle control, when the page has one, contains its icon. *)
Definition iconPresent (w : World) : Prop :=
  match themeToggle (themeEnv w) with
  | Some t => is_Some (icon t)
  | None => True
  end.

(** The applied theme: the [data-theme] attribute of the root element. *)
Definition appliedTheme (w : World) : option string :=
  rootAttributes (themeEnv w) !! "data-theme".

(** The persisted theme: the entry under the key "theme", when there is a
    storage and it has one. *)
Definition persistedTheme (w : World) : option string :=
  match localStorage (themeEnv w) with
  | Some st => st !! "theme"
  | None => None
  end.

(** A sample page: storage with no entry, an OS that reports light, a
    complete toggle control, five anchors (the last one with an href that is
    not a selector), three reveal candidates, a form. *)
Definition samplePage : World :=
  mkWorld
    (mkThemeEnv (Some ∅) true (Some Light) ∅ (Some (mkToggle (Some "") (Some "") [])) [])
    (mkNavEnv [mkAnchor "#" []; mkAnchor "#about" []; mkAnchor "#missing" [];
               mkAnchor "https://example.org/" []; mkAnchor "#/route" []]
       (fun s => if String.eqb s "#about" then Match (NodeRef 0)
                 else if String.eqb s "#/route" then InvalidSelector else NoMatch)
       [] [])
    (mkRevealEnv [mkElement ["project-card"] None None;
                  mkElement ["skill-item"] None None;
                  mkElement ["contact-item"] None None] true None [])
    (mkFormEnv
       (Some (mkForm [mkField "name" "" "Ada" ""; mkField "message" "" "Hello" ""] [] []))
       [] [])
    (mkPageEnv Complete [] [] (Some "") 2024 (Some []) (Some None) 1280 720
       (fun _ => 0.5%float) 0)
    false.

(** The same page in a browser without storage. *)
Definition noStoragePage : World :=
  with_themeEnv (set_localStorage None) samplePage.

(** The same page with a toggle control that has no icon inside. *)
Definition noIconPage : World :=
  with_themeEnv (set_themeToggle (Some (mkToggle None (Some "") []))) samplePage.

(** ** Page events *)

(** What can happen to the page once the script has run. *)
Inductive PageEvent : Type :=
  | OsThemeChanged (s : Scheme)
  | ToggleClicked
  | AnchorClicked (i : nat)
  | FormSubmitted
  | DocumentParsed
  | Intersected (entries : list Entry)
  | MouseMoved (clientX clientY : float).

Definition step (variant : Variant) (ev : PageEvent) (w : World) : World :=
  match ev with
  | OsThemeChanged s => osThemeChange variant s w
  | ToggleClicked => clickToggle variant w
  | AnchorClicked i => clickAnchor variant i w
  | FormSubmitted => submitForm variant w
  | DocumentParsed => domReady variant w
  | Intersected entries => intersect entries w
  | MouseMoved x y => dispatch variant (mousemove (pageEnv w)) (MouseMoveEvent x y) w
  end.

Definition run (variant : Variant) (evs : list PageEvent) (w : World) : World :=
  fold_left (fun w ev => step variant ev w) evs w.


(** What the OS-change listener depends on: the storage and the listeners
    of the dark-mode query. *)
Definition watchState (w : World) : option (gmap string string) * list Listener :=
  (localStorage (themeEnv w), darkModeQuery (themeEnv w)).

(** A fragment leaves a view of the world as it found it, thrown or not. *)
Definition keeps {X A} (view : World -> X) (m : JS A) : Prop :=
  forall w, view (exec m w) = view w.

(** The OS-change listener is the only listener of the dark-mode query,
    and wherever it is installed the storage, if any, holds a truthy theme. *)
Definition guarded (w : World) : Prop :=
  Forall (fun l => l = SystemThemeListener) (darkModeQuery (themeEnv w)) /\
  (darkModeQuery (themeEnv w) <> [] ->
   forall st, localStorage (themeEnv w) = Some st -> truthy (st !! "theme") = true).

(** ** Installed listeners *)

(** An anchor after initSmoothScroll: one more click listener when its href
    starts with a hash. *)
Definition withSmoothScroll (a : Anchor) : Anchor :=
  if startsWithHash (href a)
  then mkAnchor (href a) (anchorListeners a ++ [AnchorClickListener])
  else a.

(** No anchor of the page carries a listener yet. *)
Definition anchorsUnwired (w : World) : Prop :=
  Forall (fun a => anchorListeners a = []) (anchors (navEnv w)).

(** The options literal of line 102. *)
Definition smoothToStart : ScrollOptions := mkScrollOptions "smooth" "start".

(** The text of the acknowledgement. *)
Definition acknowledgement : string :=
  "Thank you for your message! I'll get back to you soon.".

(** ** Intersection notifications *)

(** The targets the observer currently watches. *)
Definition observedTargets (w : World) : list Ref :=
  default [] (observed (revealEnv w)).

(** A batch the browser can deliver in state [w]: it reports targets that the
    observer watches, each of them once. *)
Definition wellFormedBatch (entries : list Entry) (w : World) : Prop :=
  NoDup (target <$> entries) /\
  Forall (fun e => target e ∈ observedTargets w) entries.

(** A sequence of batches, each deliverable when its turn comes. *)
Fixpoint deliverable (batches : list (list Entry)) (w : World) : Prop :=
  match batches with
  | [] => True
  | b :: bs => wellFormedBatch b w /\ deliverable bs (intersect b w)
  end.

Definition runBatches (batches : list (list Entry)) (w : World) : World :=
  fold_left (fun w b => intersect b w) batches w.

(** Number of times [classList.add] was called on [el] with the marker class. *)
Definition markerAdds (el : Ref) (w : World) : nat :=
  length (filter (fun c => c = (el, "animate-fade-in")) (classAdds (revealEnv w))).

(** The body of the observer callback for one entry. *)
Definition revealEntry (e : Entry) (w : World) : World :=
  if isIntersecting e then
    with_revealEnv (fun r =>
      mkRevealEnv
        (match target e with
         | NodeRef n =>
             alter (fun x =>
               mkElement (if bool_decide ("animate-fade-in" ∈ classList x) then classList x
                          else classList x ++ ["animate-fade-in"])
                         (opacity x) (animationDelay x)) n (nodes r)
         | _ => nodes r
         end)
        (intersectionObserver r)
        (fmap (M := option) (fun l => filter (fun x => x ≠ target e) l) (observed r))
        (classAdds r ++ [(target e, "animate-fade-in")])) w
  else w.

(** Every watched target has not been given the marker yet, and no call of
    [classList.add] has been repeated. *)
Definition revealPending (w : World) : Prop :=
  NoDup (classAdds (revealEnv w)) /\
  forall el, el ∈ observedTargets w -> (el, "animate-fade-in") ∉ classAdds (revealEnv w).

(** ** Normal completion *)

(** A fragment run in [w] returns, as opposed to throwing. *)
Definition returns {A} (m : JS A) (w : World) : Prop :=
  exists a, completion m w = Normal a.

(** A fragment returns in every world. *)
Definition always {A} (m : JS A) : Prop := forall w, returns m w.

(** The sample page in a browser without IntersectionObserver. *)
Definition noObserverPage : World :=
  with_revealEnv (fun r => mkRevealEnv (nodes r) false (observed r) (classAdds r)) samplePage.

(** What the deferred part of [init] depends on. *)
Definition bootView (w : World) : bool * ReadyState :=
  (intersectionObserver (revealEnv w), readyState (pageEnv w)).

(** The sample page with a contact form whose only field declares a value. *)
Definition presetFormPage : World :=
  with_formEnv (set_contactForm (Some (mkForm [mkField "topic" "" "other" "general"] [] [])))
    samplePage.

(** The theme environment once applyTheme has run: what it writes before
    it can throw, and the toggle face when it gets that far. *)
Definition themedEnv (variant : Variant) (theme : string) (t : ThemeEnv) : ThemeEnv :=
  mkThemeEnv
    (fmap (M := option) (insert "theme" theme) (localStorage t))
    (matchMedia t) (colorScheme t)
    (<["data-theme" := theme]> (rootAttributes t))
    (match localStorage t, themeToggle t with
     | Some _, Some c =>
         match icon c with
         | Some _ => Some (shownToggle variant theme c)
         | None => Some c
         end
     | _, tg => tg
     end)
    (darkModeQuery t).

(** An element the script selects for the reveal. *)
Definition isCandidate (e : Element) : bool :=
  hasClass "project-card" e || hasClass "skill-item" e || hasClass "contact-item" e.

(** The observer has been constructed. *)
Definition constructed (w : World) : Prop := is_Some (observed (revealEnv w)).

(** ** Vocabulary of the further properties *)

(** The theme a toggle switches to, from an attribute value [T]. *)
Definition flipTheme (T : string) : string :=
  if String.eqb T "dark" then "light" else "dark".

(** Where the theme lives: the root attributes and the storage. *)
Definition themeStore (w : World) : gmap string string * option (gmap string string) :=
  (rootAttributes (themeEnv w), localStorage (themeEnv w)).

(** There is a storage, and it holds the theme that is applied. *)
Definition inSync (w : World) : Prop :=
  is_Some (localStorage (themeEnv w)) /\
  exists T, T <> "" /\ appliedTheme w = Some T /\ persistedTheme w = Some T.

(** The observer exists, watches each of its targets once, watches only
    elements that carried a candidate class in [w0], and no class list has
    changed since [w0]. *)
Definition onlyCandidates (w0 w : World) : Prop :=
  constructed w /\
  NoDup (observedTargets w) /\
  (forall r, r ∈ observedTargets w ->
     exists n e, r = NodeRef n /\ nodes (revealEnv w0) !! n = Some e /\ isCandidate e = true) /\
  classList <$> nodes (revealEnv w) = classList <$> nodes (revealEnv w0).


(** A class list and what the script can have made of it: the same list,
    or the list with the marker class appended where it was not there. *)
Definition marked (classes classes' : list string) : Prop :=
  classes' = classes \/
  (("animate-fade-in" ∉ classes) /\ classes' = classes ++ ["animate-fade-in"]).

(** Every class list of [w] is what the script can have made of the list
    at the same place in [w0]. *)
Definition classesSince (w0 w : World) : Prop :=
  Forall2 marked (classList <$> nodes (revealEnv w0)) (classList <$> nodes (revealEnv w)).

(** The particle whose seven draws start at draw number [c]. *)
Definition particleAt (rnd : nat -> float) (c : nat) : Particle :=
  mkParticle (rnd c * 4 + 2)%float (rnd (1 + c)%nat * 4 + 2)%float
             (rnd (2 + c)%nat * 0.3 + 0.1)%float
             (rnd (3 + c)%nat * 100)%float (rnd (4 + c)%nat * 100)%float
             (rnd (5 + c)%nat * 10 + 5)%float (rnd (6 + c)%nat * 5)%float.

(** [n] particles in a row, the first one starting at draw number [c]. *)
Fixpoint particles (rnd : nat -> float) (c n : nat) : list Particle :=
  match n with
  | O => []
  | S n' => particleAt rnd c :: particles rnd (7 + c) n'
  end.





(** What the parser adds to the document after the script has run and
    before DOMContentLoaded, of the elements that the deferred part of init
    looks up: further elements in document order, a '.contact-form', a
    '.hero' and a '.code-block'. *)
Record Parsed : Type := mkParsed {
  lateNodes : list Element;
  lateForm : option Form;
  lateHero : option (list Particle);
  lateCodeBlock : option (option (float * float))
}.

(** The document once the parser has added [p].  [querySelector] answers
    with the first match in document order, so an element that was already
    there stays the one that is found. *)
Definition parseRest (p : Parsed) (w : World) : World :=
  with_revealEnv (fun r => set_nodes (nodes r ++ lateNodes p) r)
    (with_formEnv
       (fun f => set_contactForm (from_option Some (lateForm p) (contactForm f)) f)
       (with_pageEnv
          (fun g => set_hero (from_option Some (lateHero p) (hero g))
                      (set_codeBlock (from_option Some (lateCodeBlock p) (codeBlock g)) g))
          w)).

(** The page with another ready state and other DOMContentLoaded listeners. *)
Definition retime (rs : ReadyState) (dl : list Listener) (w : World) : World :=
  with_pageEnv (fun p => set_readyState rs (set_domContentLoaded dl p)) w.

(** A fragment that neither reads nor writes what [f] changes: it does in
    [f w] what it does in [w]. *)
Definition indifferent {A} (f : World -> World) (m : JS A) : Prop :=
  forall w, m (f w) = (f (fst (m w)), snd (m w)).

(** Every listener list of the page. *)
Definition wiring (w : World) :
    list Listener * option (list Listener) * list (list Listener) *
    option (list Listener) * list Listener * list Listener :=
  (darkModeQuery (themeEnv w),
   clickListeners <$> themeToggle (themeEnv w),
   anchorListeners <$> anchors (navEnv w),
   submitListeners <$> contactForm (formEnv w),
   mousemove (pageEnv w),
   domContentLoaded (pageEnv w)).

(** The listeners registered on something else than the document's
    DOMContentLoaded event. *)
Definition elementListeners (w : World) : list Listener :=
  darkModeQuery (themeEnv w) ++
  default [] (clickListeners <$> themeToggle (themeEnv w)) ++
  concat (anchorListeners <$> anchors (navEnv w)) ++
  default [] (submitListeners <$> contactForm (formEnv w)) ++
  mousemove (pageEnv w).

(** * Theme management: proofs *)

Ltac break_world w :=
  let ls := fresh "ls" in let mm := fresh "mm" in let cs := fresh "cs" in
  let ra := fresh "ra" in let tg := fresh "tg" in let dq := fresh "dq" in
  let ne := fresh "ne" in let re := fresh "re" in let fe := fresh "fe" in
  let pe := fresh "pe" in let dp := fresh "dp" in
  destruct w as [[ls mm cs ra tg dq] ne re fe pe dp].

Lemma truthy_Some (s : string) : truthy (Some s) = true <-> s <> "".
Proof.
  unfold truthy. destruct (String.eqb_spec s ""); simpl; split; intros; congruence.
Qed.

Lemma truthy_false (v : option string) :
  truthy v = false <-> v = None \/ v = Some "".
Proof.
  destruct v as [s|]; simpl.
  - destruct (String.eqb_spec s ""); simpl; split; intros H; subst; auto; try discriminate.
    destruct H as [H|H]; [discriminate | congruence].
  - split; auto.
Qed.

Lemma updateToggleButton_eq v theme w :
  updateToggleButton v theme w =
  match themeToggle (themeEnv w) with
  | None => (w, Normal tt)
  | Some t =>
      match icon t with
      | None => (w, Throw TypeError)
      | Some _ =>
          (with_themeEnv (set_themeToggle (Some (shownToggle v theme t))) w, Normal tt)
      end
  end.
Proof.
  break_world w. unfold updateToggleButton, shownToggle, bind. simpl.
  destruct tg as [[ic tx cl]|]; simpl; [|reflexivity].
  destruct ic as [ic|]; simpl.
  - destruct (String.eqb theme "dark"); destruct tx; reflexivity.
  - destruct (String.eqb theme "dark"); reflexivity.
Qed.

Lemma applyTheme_eq v theme w :
  applyTheme v theme w =
  let w1 := with_themeEnv
              (fun t => set_rootAttributes (<["data-theme" := theme]> (rootAttributes t)) t) w in
  match localStorage (themeEnv w) with
  | None => (w1, Throw ReferenceError)
  | Some st =>
      updateToggleButton v theme
        (with_themeEnv (set_localStorage (Some (<["theme" := theme]> st))) w1)
  end.
Proof.
  break_world w. unfold applyTheme, bind. simpl.
  destruct ls; reflexivity.
Qed.

(** The attribute is written before anything can throw. *)
Lemma applyTheme_applied v theme w :
  appliedTheme (exec (applyTheme v theme) w) = Some theme.
Proof.
  unfold exec, appliedTheme. rewrite applyTheme_eq. break_world w. simpl.
  destruct ls as [st|]; simpl; [|apply lookup_insert_eq].
  rewrite updateToggleButton_eq. simpl.
  destruct tg as [[[ic|] tx cl]|]; simpl; apply lookup_insert_eq.
Qed.

Lemma applyTheme_storage v theme w st :
  localStorage (themeEnv w) = Some st ->
  localStorage (themeEnv (exec (applyTheme v theme) w)) = Some (<["theme" := theme]> st).
Proof.
  intros Hst. unfold exec. rewrite applyTheme_eq, Hst. break_world w. simpl.
  rewrite updateToggleButton_eq. simpl.
  destruct tg as [[[ic|] tx cl]|]; reflexivity.
Qed.

Lemma applyTheme_no_storage v theme w :
  localStorage (themeEnv w) = None ->
  completion (applyTheme v theme) w = Throw ReferenceError /\
  localStorage (themeEnv (exec (applyTheme v theme) w)) = None.
Proof.
  intros Hst. unfold completion, exec. rewrite applyTheme_eq, Hst.
  break_world w. simpl in *. auto.
Qed.

Lemma applyTheme_completion v theme w :
  completion (applyTheme v theme) w = Normal tt <->
  is_Some (localStorage (themeEnv w)) /\ iconPresent w.
Proof.
  unfold completion, iconPresent. rewrite applyTheme_eq. break_world w. simpl.
  destruct ls as [st|]; simpl.
  - rewrite updateToggleButton_eq. simpl.
    destruct tg as [[[ic|] tx cl]|]; simpl; split; intros H; eauto; try discriminate.
    destruct H as [_ [x Hx]]. discriminate.
  - split; [discriminate|]. intros [[x Hx] _]. discriminate.
Qed.

(** C4: for T among "light" and "dark", applyTheme(T) leaves T in the root
    attribute and T under the storage key "theme".  The call completes
    exactly when there is a storage and the toggle control, if any, has its
    icon; the attribute is written even when it does not complete. *)
Theorem applyTheme_attribute_and_storage (v : Variant) (w : World) (T : string) :
  T = "light" \/ T = "dark" ->
  (completion (applyTheme v T) w = Normal tt <->
     is_Some (localStorage (themeEnv w)) /\ iconPresent w) /\
  (completion (applyTheme v T) w = Normal tt ->
     appliedTheme (exec (applyTheme v T) w) = Some T /\
     persistedTheme (exec (applyTheme v T) w) = Some T).
Proof.
  intros _. split; [apply applyTheme_completion|].
  intros Hc. split; [apply applyTheme_applied|].
  apply applyTheme_completion in Hc. destruct Hc as [[st Hst] _].
  unfold persistedTheme. rewrite (applyTheme_storage v T w st Hst).
  apply lookup_insert_eq.
Qed.

Lemma applyTheme_attribute_and_storage_witness :
  completion (applyTheme MainJs "dark") samplePage = Normal tt /\
  appliedTheme (exec (applyTheme MainJs "dark") samplePage) = Some "dark" /\
  persistedTheme (exec (applyTheme MainJs "dark") samplePage) = Some "dark".
Proof.
  assert (Hc : completion (applyTheme MainJs "dark") samplePage = Normal tt)
    by reflexivity.
  split; [exact Hc|].
  exact (proj2 (applyTheme_attribute_and_storage MainJs samplePage "dark"
                  (or_intror eq_refl)) Hc).
Defined.

Lemma getInitialTheme_stored v w st s :
  localStorage (themeEnv w) = Some st -> st !! "theme" = Some s -> s <> "" ->
  getInitialTheme v w = (w, Normal s).
Proof.
  intros Hst Hs Hne.
  unfold getInitialTheme, bind, localStorage_getItem. rewrite Hst, Hs.
  apply truthy_Some in Hne. rewrite Hne. reflexivity.
Qed.

Lemma getInitialTheme_not_stored v w st :
  localStorage (themeEnv w) = Some st -> truthy (st !! "theme") = false ->
  getInitialTheme v w =
  (w, Normal (if matchMedia (themeEnv w) &&
                 queryMatches (initialQuery v) (colorScheme (themeEnv w))
              then queriedTheme v else fallbackTheme v)).
Proof.
  intros Hst Hs.
  unfold getInitialTheme, bind, localStorage_getItem. rewrite Hst, Hs.
  unfold window_matchMedia, gets, matchMedia_matches.
  destruct (matchMedia (themeEnv w)) eqn:Hmm; simpl; [|reflexivity].
  rewrite Hmm. destruct (queryMatches _ _); reflexivity.
Qed.

Lemma getInitialTheme_no_storage v w :
  localStorage (themeEnv w) = None ->
  getInitialTheme v w = (w, Throw ReferenceError).
Proof.
  intros Hst. unfold getInitialTheme, bind, localStorage_getItem.
  rewrite Hst. reflexivity.
Qed.



(** C9: a non-empty string stored under "theme", whatever it is, comes back
    verbatim from getInitialTheme, and applyTheme writes exactly that string
    to the root attribute and to storage: nothing validates or normalises
    the theme value. *)
Theorem stored_theme_is_not_validated (v : Variant) (w : World)
    (st : gmap string string) (s : string) :
  localStorage (themeEnv w) = Some st -> s <> "" ->
  (st !! "theme" = Some s -> getInitialTheme v w = (w, Normal s)) /\
  appliedTheme (exec (applyTheme v s) w) = Some s /\
  localStorage (themeEnv (exec (applyTheme v s) w)) = Some (<["theme" := s]> st) /\
  persistedTheme (exec (applyTheme v s) w) = Some s.
Proof.
  intros Hst Hne. split; [|split; [|split]].
  - intros Hs. exact (getInitialTheme_stored v w st s Hst Hs Hne).
  - apply applyTheme_applied.
  - exact (applyTheme_storage v s w st Hst).
  - unfold persistedTheme. rewrite (applyTheme_storage v s w st Hst).
    apply lookup_insert_eq.
Qed.

(** The sample page with the string "solarized" in storage. *)
Lemma stored_theme_is_not_validated_witness :
  let w := with_themeEnv (set_localStorage (Some {["theme" := "solarized"]})) samplePage in
  getInitialTheme MainJs w = (w, Normal "solarized") /\
  appliedTheme (exec (applyTheme MainJs "solarized") w) = Some "solarized" /\
  persistedTheme (exec (applyTheme MainJs "solarized") w) = Some "solarized".
Proof.
  intros w.
  assert (Hne : "solarized" <> "") by discriminate.
  destruct (stored_theme_is_not_validated MainJs w {["theme" := "solarized"]} "solarized"
              eq_refl Hne) as (H1 & H2 & _ & H4).
  split; [apply H1; reflexivity|]. split; assumption.
Defined.

(** The theme toggleTheme switches to. *)
Lemma toggleTheme_eq v w :
  toggleTheme v w =
  applyTheme v (if strictEq (appliedTheme w) "dark" then "light" else "dark") w.
Proof. reflexivity. Qed.

(** C10: toggleTheme applies "light" when the root attribute is exactly
    "dark" and "dark" for anything else, an absent attribute and an invalid
    string included; so after a toggle the applied theme, and the persisted
    one where there is a storage, is "light" or "dark". *)
Theorem toggleTheme_normalises (v : Variant) (w : World) :
  (appliedTheme w = Some "dark" ->
     appliedTheme (exec (toggleTheme v) w) = Some "light" /\
     (is_Some (localStorage (themeEnv w)) ->
        persistedTheme (exec (toggleTheme v) w) = Some "light")) /\
  (appliedTheme w <> Some "dark" ->
     appliedTheme (exec (toggleTheme v) w) = Some "dark" /\
     (is_Some (localStorage (themeEnv w)) ->
        persistedTheme (exec (toggleTheme v) w) = Some "dark")) /\
  (appliedTheme (exec (toggleTheme v) w) = Some "light" \/
   appliedTheme (exec (toggleTheme v) w) = Some "dark") /\
  (is_Some (localStorage (themeEnv w)) ->
     persistedTheme (exec (toggleTheme v) w) = appliedTheme (exec (toggleTheme v) w)).
Proof.
  assert (Hp : forall T, is_Some (localStorage (themeEnv w)) ->
             persistedTheme (exec (applyTheme v T) w) = Some T).
  { intros T [st Hst]. unfold persistedTheme.
    rewrite (applyTheme_storage v T w st Hst). apply lookup_insert_eq. }
  unfold exec at 1 2 3 4 5 6 7 8. rewrite toggleTheme_eq.
  fold (exec (applyTheme v (if strictEq (appliedTheme w) "dark" then "light" else "dark")) w).
  destruct (appliedTheme w) as [cur|] eqn:Hcur; simpl.
  - destruct (String.eqb_spec cur "dark") as [->|Hne]; simpl.
    + rewrite applyTheme_applied. repeat split; auto; try congruence.
    + rewrite applyTheme_applied. repeat split; auto; try congruence.
  - rewrite applyTheme_applied. repeat split; auto; try congruence.
Qed.

Lemma toggleTheme_normalises_witness :
  let w := exec (applyTheme MainJs "sepia") samplePage in
  appliedTheme w = Some "sepia" /\
  appliedTheme (exec (toggleTheme MainJs) w) = Some "dark" /\
  persistedTheme (exec (toggleTheme MainJs) w) = Some "dark".
Proof.
  intros w.
  assert (Hcur : appliedTheme w <> Some "dark") by (vm_compute; discriminate).
  assert (Hst : is_Some (localStorage (themeEnv w))) by (vm_compute; eauto).
  destruct (toggleTheme_normalises MainJs w) as (_ & H2 & _).
  destruct (H2 Hcur) as [Ha Hp].
  split; [reflexivity|]. split; [exact Ha | exact (Hp Hst)].
Defined.

Lemma toggleTheme_from v w T :
  appliedTheme w = Some T ->
  exec (toggleTheme v) w =
  exec (applyTheme v (if String.eqb T "dark" then "light" else "dark")) w.
Proof. intros H. unfold exec. rewrite toggleTheme_eq, H. reflexivity. Qed.

Lemma applyTheme_keeps_storage_api v theme w :
  is_Some (localStorage (themeEnv w)) ->
  is_Some (localStorage (themeEnv (exec (applyTheme v theme) w))).
Proof. intros [st Hst]. rewrite (applyTheme_storage v theme w st Hst). eauto. Qed.

(** C5: from a root attribute "light" or "dark", two calls of toggleTheme
    bring the attribute back to where it was, and the persisted value with
    it where there is a storage. *)
Theorem toggleTheme_twice (v : Variant) (w : World) (T : string) :
  T = "light" \/ T = "dark" ->
  appliedTheme w = Some T ->
  appliedTheme (exec (toggleTheme v) (exec (toggleTheme v) w)) = Some T /\
  (is_Some (localStorage (themeEnv w)) ->
     persistedTheme (exec (toggleTheme v) (exec (toggleTheme v) w)) = Some T).
Proof.
  intros HT Hcur.
  set (T' := if String.eqb T "dark" then "light" else "dark").
  assert (H1 : exec (toggleTheme v) w = exec (applyTheme v T') w)
    by exact (toggleTheme_from v w T Hcur).
  assert (Hcur' : appliedTheme (exec (toggleTheme v) w) = Some T')
    by (rewrite H1; apply applyTheme_applied).
  assert (Hback : (if String.eqb T' "dark" then "light" else "dark") = T)
    by (destruct HT; subst; reflexivity).
  rewrite (toggleTheme_from v _ T' Hcur'), Hback. split.
  - apply applyTheme_applied.
  - intros Hst.
    assert (Hst' : is_Some (localStorage (themeEnv (exec (toggleTheme v) w))))
      by (rewrite H1; apply applyTheme_keeps_storage_api, Hst).
    destruct Hst' as [st' Hst']. unfold persistedTheme.
    rewrite (applyTheme_storage v T _ st' Hst'). apply lookup_insert_eq.
Qed.

Lemma toggleTheme_twice_witness :
  let w := exec (applyTheme Part000 "light") samplePage in
  appliedTheme w = Some "light" /\
  appliedTheme (exec (toggleTheme Part000) (exec (toggleTheme Part000) w)) = Some "light" /\
  persistedTheme (exec (toggleTheme Part000) (exec (toggleTheme Part000) w)) = Some "light".
Proof.
  intros w.
  assert (Hcur : appliedTheme w = Some "light") by reflexivity.
  assert (Hst : is_Some (localStorage (themeEnv w))) by (vm_compute; eauto).
  destruct (toggleTheme_twice Part000 w "light" (or_introl eq_refl) Hcur) as [Ha Hp].
  split; [exact Hcur|]. split; [exact Ha | exact (Hp Hst)].
Defined.

Lemma exec_applyTheme v theme w :
  exec (applyTheme v theme) w = with_themeEnv (themedEnv v theme) w.
Proof.
  unfold exec. rewrite applyTheme_eq. cbv zeta.
  destruct w as [[ls mm cs ra tg dq] ne re fe pe dp].
  destruct ls as [st|]; cbn [themeEnv localStorage]; [|reflexivity].
  rewrite updateToggleButton_eq.
  destruct tg as [[[ic|] tx cl]|]; reflexivity.
Qed.

Lemma themedEnv_thrice v T T' t :
  themedEnv v T (themedEnv v T' (themedEnv v T t)) = themedEnv v T t.
Proof.
  destruct t as [ls mm cs ra tg dq]. unfold themedEnv.
  cbn [localStorage matchMedia colorScheme rootAttributes themeToggle darkModeQuery].
  f_equal.
  - destruct ls as [st|]; [|reflexivity].
    cbn [fmap option_fmap option_map]. rewrite !insert_insert_eq. reflexivity.
  - rewrite !insert_insert_eq. reflexivity.
  - destruct ls as [st|]; [|reflexivity].
    cbn [fmap option_fmap option_map].
    destruct tg as [[[ic|] tx cl]|]; try reflexivity.
    unfold shownToggle. cbn [icon text clickListeners].
    destruct (String.eqb T "dark"), (String.eqb T' "dark"), tx; reflexivity.
Qed.

(** Started from a state that applyTheme produced, two toggles restore the
    whole world: attribute, storage and the face of the toggle control. *)
Lemma two_toggles_restore_world v w T :
  T = "light" \/ T = "dark" ->
  let w1 := exec (applyTheme v T) w in
  exec (toggleTheme v) (exec (toggleTheme v) w1) = w1.
Proof.
  intros HT w1.
  set (T' := if String.eqb T "dark" then "light" else "dark").
  assert (Hback : (if String.eqb T' "dark" then "light" else "dark") = T)
    by (destruct HT; subst; reflexivity).
  assert (H1 : exec (toggleTheme v) w1 = exec (applyTheme v T') w1)
    by exact (toggleTheme_from v w1 T (applyTheme_applied v T w)).
  rewrite (toggleTheme_from v _ T'), Hback, H1
    by (rewrite H1; apply applyTheme_applied).
  subst w1. rewrite !exec_applyTheme.
  destruct w as [te ne re fe pe dp]. unfold with_themeEnv.
  cbn [themeEnv navEnv revealEnv formEnv pageEnv defaultPrevented].
  rewrite themedEnv_thrice. reflexivity.
Qed.

(** ** The OS-change listener and the stored preference *)

Lemma exec_bind {A B} (m : JS A) (k : A -> JS B) w :
  exec (bind m k) w =
  match completion m w with
  | Normal a => exec (k a) (exec m w)
  | Throw _ => exec m w
  end.
Proof. unfold exec, completion, bind. destruct (m w) as [w' [a|e]]; reflexivity. Qed.

Section Keeps.
Context {X : Type} (view : World -> X).

Lemma keeps_ret {A} (a : A) : keeps view (ret a).
Proof. intros w. reflexivity. Qed.

Lemma keeps_gets {A} (f : World -> A) : keeps view (gets f).
Proof. intros w. reflexivity. Qed.

Lemma keeps_bind {A B} (m : JS A) (k : A -> JS B) :
  keeps view m -> (forall a, keeps view (k a)) -> keeps view (bind m k).
Proof.
  intros Hm Hk w. rewrite exec_bind. destruct (completion m w).
  - rewrite Hk. apply Hm.
  - apply Hm.
Qed.

Lemma keeps_forEach {A} (l : list A) (f : A -> JS unit) :
  (forall x, keeps view (f x)) -> keeps view (forEach l f).
Proof.
  intros Hf. induction l as [|x l IH]; simpl.
  - apply keeps_ret.
  - apply keeps_bind; auto.
Qed.

Lemma keeps_forEachIndexed {A} (l : list A) (f : A -> nat -> JS unit) n :
  (forall x i, keeps view (f x i)) -> keeps view (forEachIndexed n l f).
Proof.
  intros Hf. revert n. induction l as [|x l IH]; intros n; simpl.
  - apply keeps_ret.
  - apply keeps_bind; auto.
Qed.

Lemma keeps_forLoop n (body : JS unit) :
  keeps view body -> keeps view (forLoop n body).
Proof.
  intros Hb. induction n as [|n IH]; simpl.
  - apply keeps_ret.
  - apply keeps_bind; auto.
Qed.
End Keeps.

(** Completion of a sequence, and fragments that cannot throw. *)
Lemma completion_bind {A B} (m : JS A) (k : A -> JS B) w :
  completion (bind m k) w =
  match completion m w with
  | Normal a => completion (k a) (exec m w)
  | Throw e => Throw e
  end.
Proof. unfold exec, completion, bind. destruct (m w) as [w' [a|e]]; reflexivity. Qed.

Lemma returns_bind {A B} (m : JS A) (k : A -> JS B) w :
  returns m w -> (forall a, returns (k a) (exec m w)) -> returns (bind m k) w.
Proof.
  intros [a Ha] Hk. unfold returns. rewrite completion_bind, Ha. apply Hk.
Qed.

Lemma always_ret {A} (a : A) : always (ret a).
Proof. intros w. exists a. reflexivity. Qed.

Lemma always_gets {A} (f : World -> A) : always (gets f).
Proof. intros w. exists (f w). reflexivity. Qed.

Lemma always_modify (f : World -> World) : always (modify f).
Proof. intros w. exists tt. reflexivity. Qed.

Lemma always_bind {A B} (m : JS A) (k : A -> JS B) :
  always m -> (forall a, always (k a)) -> always (bind m k).
Proof. intros Hm Hk w. apply returns_bind; [apply Hm | intros a; apply Hk]. Qed.

Lemma always_forEach {A} (l : list A) (f : A -> JS unit) :
  (forall x, always (f x)) -> always (forEach l f).
Proof.
  intros Hf. induction l as [|x l IH]; simpl; [apply always_ret|].
  apply always_bind; auto.
Qed.

Lemma always_forEachIndexed {A} (l : list A) (f : A -> nat -> JS unit) n :
  (forall x i, always (f x i)) -> always (forEachIndexed n l f).
Proof.
  intros Hf. revert n. induction l as [|x l IH]; intros n; simpl; [apply always_ret|].
  apply always_bind; auto.
Qed.

Lemma always_forLoop n (body : JS unit) : always body -> always (forLoop n body).
Proof.
  intros Hb. induction n as [|n IH]; simpl; [apply always_ret|].
  apply always_bind; auto.
Qed.

Lemma always_set_textContent (r : Ref) (s : string) : always (set_textContent (Some r) s).
Proof. intros w. exists tt. destruct r; reflexivity. Qed.

Lemma always_Math_random : always Math_random.
Proof. intros w. eexists. reflexivity. Qed.

(** The fixed selectors are valid: looking one up never throws. *)
Lemma always_document_querySelector_fixed (sel : string) :
  sel = ".theme-toggle" \/ sel = ".contact-form" \/ sel = ".hero" \/ sel = ".code-block" ->
  always (document_querySelector sel).
Proof.
  intros H w. unfold returns, completion, document_querySelector.
  destruct H as [-> | [-> | [-> | ->]]]; simpl; eauto.
Qed.

Ltac always_tac :=
  repeat first
    [ apply always_bind; [|intros ?]
    | apply always_forEach; intros ?
    | apply always_forEachIndexed; intros ? ?
    | apply always_forLoop
    | apply always_ret | apply always_gets | apply always_modify
    | apply always_set_textContent | apply always_Math_random
    | apply always_document_querySelector_fixed; tauto
    | match goal with |- always (match ?x with _ => _ end) => destruct x end
    | match goal with |- always (if ?x then _ else _) => destruct x end ].

Lemma keeps_watch_nav f : keeps watchState (modify (with_navEnv f)).
Proof. intros w. reflexivity. Qed.
Lemma keeps_watch_reveal f : keeps watchState (modify (with_revealEnv f)).
Proof. intros w. reflexivity. Qed.
Lemma keeps_watch_form f : keeps watchState (modify (with_formEnv f)).
Proof. intros w. reflexivity. Qed.
Lemma keeps_watch_page f : keeps watchState (modify (with_pageEnv f)).
Proof. intros w. reflexivity. Qed.
Lemma keeps_watch_preventDefault : keeps watchState preventDefault.
Proof. intros w. reflexivity. Qed.
Lemma keeps_watch_Math_random : keeps watchState Math_random.
Proof. intros w. reflexivity. Qed.

Lemma keeps_watch_document_querySelector sel : keeps watchState (document_querySelector sel).
Proof.
  intros w. unfold exec, document_querySelector.
  repeat (match goal with |- context [if ?b then _ else _] => destruct b end; try reflexivity).
  destruct (selectorOracle _ _); reflexivity.
Qed.

Lemma keeps_watch_addEventListener_element r ty l :
  keeps watchState (addEventListener (ElementTarget r) ty l).
Proof.
  intros w. unfold exec, addEventListener, modify. simpl.
  destruct r; simpl; try reflexivity; destruct (String.eqb _ _); reflexivity.
Qed.

Lemma keeps_watch_addEventListener_document ty l :
  keeps watchState (addEventListener DocumentTarget ty l).
Proof.
  intros w. unfold exec, addEventListener, modify. simpl.
  repeat (destruct (String.eqb _ _); try reflexivity).
Qed.

Lemma keeps_watch_set_textContent target v : keeps watchState (set_textContent target v).
Proof. intros w. destruct target as [[]|]; reflexivity. Qed.

Lemma keeps_watch_new_IntersectionObserver : keeps watchState new_IntersectionObserver.
Proof.
  intros w. unfold exec, new_IntersectionObserver.
  destruct (intersectionObserver _); reflexivity.
Qed.

Ltac keeps_watch :=
  repeat first
    [ apply keeps_bind; [|intros ?]
    | apply keeps_forEach; intros ?
    | apply keeps_forEachIndexed; intros ? ?
    | apply keeps_forLoop
    | apply keeps_ret | apply keeps_gets
    | apply keeps_watch_nav | apply keeps_watch_reveal | apply keeps_watch_form
    | apply keeps_watch_page | apply keeps_watch_preventDefault
    | apply keeps_watch_Math_random | apply keeps_watch_document_querySelector
    | apply keeps_watch_addEventListener_element
    | apply keeps_watch_addEventListener_document
    | apply keeps_watch_set_textContent
    | apply keeps_watch_new_IntersectionObserver
    | match goal with |- keeps _ (match ?x with _ => _ end) => destruct x end
    | match goal with |- keeps _ (if ?x then _ else _) => destruct x end ].

Lemma keeps_watch_anchorClickListener this : keeps watchState (anchorClickListener this).
Proof. unfold anchorClickListener, element_getAttribute, scrollIntoView. keeps_watch. Qed.

Lemma keeps_watch_form_reset this : keeps watchState (form_reset this).
Proof.
  intros w. unfold exec, form_reset. destruct this; try reflexivity.
  destruct (contactForm (formEnv w)) as [c|]; [destruct (resetShadowed c)|]; reflexivity.
Qed.

Lemma keeps_watch_submitListener this : keeps watchState (submitListener this).
Proof. unfold submitListener, alert. keeps_watch. apply keeps_watch_form_reset. Qed.

Lemma keeps_watch_mouseMoveListener x y : keeps watchState (mouseMoveListener x y).
Proof.
  unfold mouseMoveListener, window_innerWidth, window_innerHeight, set_style_transform.
  keeps_watch.
Qed.

Lemma keeps_watch_initScrollAnimations v : keeps watchState (initScrollAnimations v).
Proof.
  unfold initScrollAnimations, document_querySelectorAll, set_style_opacity,
    set_style_animationDelay, observe.
  keeps_watch.
Qed.

Lemma keeps_watch_deferredInit v : keeps watchState (deferredInit v).
Proof.
  unfold deferredInit, initFormHandling, initParallaxEffect, addParticleEffect, appendChild.
  apply keeps_bind; [apply keeps_watch_initScrollAnimations|intros _].
  keeps_watch.
Qed.

Lemma keeps_watch_revealCallback entries : keeps watchState (revealCallback entries).
Proof. unfold revealCallback, classList_add, unobserve. keeps_watch. Qed.

Lemma keeps_watch_after_theme_init v :
  keeps watchState
    (updateFooterYear;;
     initSmoothScroll;;
     let* state := document_readyState in
     match state with
     | Loading => addEventListener DocumentTarget "DOMContentLoaded" DomReadyListener
     | _ => deferredInit v
     end).
Proof.
  unfold updateFooterYear, document_getElementById, date_getFullYear, initSmoothScroll,
    document_querySelectorAll, document_readyState.
  keeps_watch; apply keeps_watch_deferredInit.
Qed.

Lemma systemThemeListener_eq v matches w :
  systemThemeListener v matches w =
  match localStorage (themeEnv w) with
  | None => (w, Throw ReferenceError)
  | Some st =>
      if truthy (st !! "theme") then (w, Normal tt)
      else applyTheme v (if matches then "dark" else "light") w
  end.
Proof.
  unfold systemThemeListener, bind, localStorage_getItem.
  destruct (localStorage (themeEnv w)) as [st|]; [|reflexivity].
  destruct (truthy (st !! "theme")); reflexivity.
Qed.

Lemma systemThemeListener_idle v matches w :
  (forall st, localStorage (themeEnv w) = Some st -> truthy (st !! "theme") = true) ->
  exec (systemThemeListener v matches) w = w.
Proof.
  intros H. unfold exec. rewrite systemThemeListener_eq.
  destruct (localStorage (themeEnv w)) as [st|]; [|reflexivity].
  rewrite (H st eq_refl). reflexivity.
Qed.

Lemma guarded_watchState w w' :
  watchState w' = watchState w -> guarded w -> guarded w'.
Proof.
  unfold watchState, guarded. intros H. injection H as Hs Hd. rewrite Hs, Hd. auto.
Qed.

Lemma applyTheme_watchers v theme w :
  darkModeQuery (themeEnv (exec (applyTheme v theme) w)) = darkModeQuery (themeEnv w).
Proof.
  unfold exec. rewrite applyTheme_eq. break_world w. simpl.
  destruct ls as [st|]; simpl; [|reflexivity].
  rewrite updateToggleButton_eq. simpl.
  destruct tg as [[[ic|] tx cl]|]; reflexivity.
Qed.

Lemma applyTheme_stored_truthy v theme w st :
  theme <> "" ->
  localStorage (themeEnv (exec (applyTheme v theme) w)) = Some st ->
  truthy (st !! "theme") = true.
Proof.
  intros Hne Hst.
  destruct (localStorage (themeEnv w)) as [st0|] eqn:H0.
  - rewrite (applyTheme_storage v theme w st0 H0) in Hst. injection Hst as <-.
    rewrite lookup_insert_eq. apply truthy_Some, Hne.
  - destruct (applyTheme_no_storage v theme w H0) as [_ Hn]. congruence.
Qed.

Lemma guarded_applyTheme v theme w :
  theme <> "" -> guarded w -> guarded (exec (applyTheme v theme) w).
Proof.
  intros Hne [Hall _]. split.
  - rewrite applyTheme_watchers. exact Hall.
  - intros _ st Hst. exact (applyTheme_stored_truthy v theme w st Hne Hst).
Qed.

Lemma guarded_toggleTheme v w : guarded w -> guarded (exec (toggleTheme v) w).
Proof.
  intros H. unfold exec. rewrite toggleTheme_eq.
  apply guarded_applyTheme; [|exact H].
  destruct (strictEq _ _); discriminate.
Qed.

Lemma guarded_systemThemeListener v matches w :
  guarded w -> guarded (exec (systemThemeListener v matches) w).
Proof.
  intros H. unfold exec. rewrite systemThemeListener_eq.
  destruct (localStorage (themeEnv w)) as [st|]; [|exact H].
  destruct (truthy (st !! "theme")); [exact H|].
  apply guarded_applyTheme; [|exact H]. destruct matches; discriminate.
Qed.

Lemma guarded_keeps {A} (m : JS A) w :
  keeps watchState m -> guarded w -> guarded (exec m w).
Proof. intros Hk. apply guarded_watchState, Hk. Qed.

Lemma guarded_runListener v l e w :
  guarded w -> guarded (exec (runListener v l e) w).
Proof.
  intros H. destruct l, e; simpl;
    first [ exact H
          | apply guarded_systemThemeListener, H
          | apply guarded_toggleTheme, H
          | apply guarded_keeps; [|exact H];
            first [ apply keeps_watch_anchorClickListener
                  | apply keeps_watch_submitListener
                  | apply keeps_watch_deferredInit
                  | apply keeps_watch_mouseMoveListener ] ].
Qed.

Lemma guarded_dispatch v ls e w : guarded w -> guarded (dispatch v ls e w).
Proof.
  revert w. induction ls as [|l ls IH]; intros w H; simpl; [exact H|].
  apply IH, guarded_runListener, H.
Qed.

Lemma guarded_step v ev w : guarded w -> guarded (step v ev w).
Proof.
  intros H. destruct ev; simpl.
  - unfold osThemeChange. apply guarded_dispatch.
    revert H. apply guarded_watchState. reflexivity.
  - unfold clickToggle. destruct (themeToggle _); [apply guarded_dispatch|]; exact H.
  - unfold clickAnchor. destruct (anchors _ !! i) as [a|]; [|exact H].
    match goal with |- guarded (if defaultPrevented ?x then _ else _) =>
      assert (Hx : guarded x) by
        (apply guarded_dispatch; revert H; apply guarded_watchState; reflexivity);
      destruct (defaultPrevented x); [exact Hx|]
    end.
    revert Hx. apply guarded_watchState. reflexivity.
  - unfold submitForm. destruct (contactForm _) as [c|]; [|exact H].
    match goal with |- guarded (if defaultPrevented ?x then _ else _) =>
      assert (Hx : guarded x) by
        (apply guarded_dispatch; revert H; apply guarded_watchState; reflexivity);
      destruct (defaultPrevented x); [exact Hx|]
    end.
    revert Hx. apply guarded_watchState. reflexivity.
  - unfold domReady. apply guarded_dispatch.
    revert H. apply guarded_watchState. reflexivity.
  - unfold intersect. destruct (observed _); [|exact H].
    apply guarded_keeps; [apply keeps_watch_revealCallback | exact H].
  - apply guarded_dispatch, H.
Qed.

Lemma guarded_run v evs w : guarded w -> guarded (run v evs w).
Proof.
  revert w. induction evs as [|ev evs IH]; intros w H; simpl; [exact H|].
  apply IH, guarded_step, H.
Qed.

Lemma getInitialTheme_cases v w :
  getInitialTheme v w = (w, Throw ReferenceError) \/
  exists theme, theme <> "" /\ getInitialTheme v w = (w, Normal theme).
Proof.
  destruct (localStorage (themeEnv w)) as [st|] eqn:Hst.
  - right. destruct (truthy (st !! "theme")) eqn:Ht.
    + destruct (st !! "theme") as [s|] eqn:Hs; [|discriminate].
      exists s. split; [apply truthy_Some, Ht|].
      apply (getInitialTheme_stored v w st s Hst Hs), truthy_Some, Ht.
    + rewrite (getInitialTheme_not_stored v w st Hst Ht).
      eexists. split; [|reflexivity].
      destruct v, (_ && _); discriminate.
  - left. apply getInitialTheme_no_storage, Hst.
Qed.

(** ThemeManager.init installs the OS-change listener only after it has
    persisted the initial theme. *)
Lemma guarded_ThemeManager_init v w :
  darkModeQuery (themeEnv w) = [] -> guarded (exec (ThemeManager.init v) w).
Proof.
  intros Hdq.
  assert (H0 : guarded w).
  { split; [rewrite Hdq; constructor | intros Hne; congruence]. }
  unfold ThemeManager.init. rewrite exec_bind. unfold completion, exec at 2.
  destruct (getInitialTheme_cases v w) as [Hthrow | (theme & Hne & Hret)].
  { rewrite Hthrow. simpl. unfold exec. rewrite Hthrow. exact H0. }
  rewrite Hret. simpl.
  rewrite exec_bind.
  assert (H1 : guarded (exec (applyTheme v theme) w))
    by exact (guarded_applyTheme v theme w Hne H0).
  destruct (completion (applyTheme v theme) w) as [[]|err] eqn:Hc; [|exact H1].
  apply applyTheme_completion in Hc. destruct Hc as [[st Hst] _].
  assert (Hst1 := applyTheme_storage v theme w st Hst).
  assert (Hdq1 := applyTheme_watchers v theme w). rewrite Hdq in Hdq1.
  set (w1 := exec (applyTheme v theme) w) in *. clearbody w1.
  rewrite exec_bind.
  assert (H2 : guarded (exec watchSystemTheme w1)).
  { unfold exec, watchSystemTheme, bind, window_matchMedia, gets.
    destruct (matchMedia (themeEnv w1)); simpl; [|exact H1].
    unfold guarded. simpl. rewrite Hdq1, Hst1. simpl. split.
    - repeat constructor.
    - intros _ st' [= <-]. rewrite lookup_insert_eq. apply truthy_Some, Hne. }
  destruct (completion watchSystemTheme w1); [|exact H2].
  apply guarded_keeps; [|exact H2].
  keeps_watch.
Qed.

Lemma guarded_init v w :
  darkModeQuery (themeEnv w) = [] -> guarded (exec (init v) w).
Proof.
  intros Hdq. unfold init. rewrite exec_bind.
  assert (H := guarded_ThemeManager_init v w Hdq).
  destruct (completion (ThemeManager.init v) w); [|exact H].
  apply guarded_keeps; [apply keeps_watch_after_theme_init | exact H].
Qed.

Lemma dispatch_guarded_change v ls matches w :
  Forall (fun l => l = SystemThemeListener) ls ->
  (ls <> [] -> forall st, localStorage (themeEnv w) = Some st ->
               truthy (st !! "theme") = true) ->
  dispatch v ls (ChangeEvent matches) w = w.
Proof.
  intros Hall Hst. induction Hall as [|l ls -> Hall IH]; simpl; [reflexivity|].
  assert (Hst' : forall st, localStorage (themeEnv w) = Some st ->
                            truthy (st !! "theme") = true)
    by (apply Hst; discriminate).
  rewrite (systemThemeListener_idle v matches w Hst'). apply IH. auto.
Qed.

Lemma osThemeChange_guarded v s w :
  guarded w -> osThemeChange v s w = with_themeEnv (set_colorScheme (Some s)) w.
Proof.
  intros [Hall Hst]. unfold osThemeChange. apply dispatch_guarded_change.
  - exact Hall.
  - exact Hst.
Qed.

(** C1: the listener installed by watchSystemTheme changes the world only
    when the storage holds no truthy value under "theme"; right after a
    toggleTheme it changes nothing; and on the page as the script sets it up,
    whatever the user and the browser did since, an OS theme change leaves
    the applied theme, the persisted theme and the toggle control alone:
    only the scheme the OS reports differs afterwards. *)
Theorem os_change_respects_stored_preference (v : Variant) :
  (forall w matches,
     exec (systemThemeListener v matches) w <> w ->
     exists st, localStorage (themeEnv w) = Some st /\ truthy (st !! "theme") = false) /\
  (forall w matches,
     exec (systemThemeListener v matches) (exec (toggleTheme v) w) =
     exec (toggleTheme v) w) /\
  (forall w0 evs s,
     darkModeQuery (themeEnv w0) = [] ->
     let w := run v evs (exec (init v) w0) in
     osThemeChange v s w = with_themeEnv (set_colorScheme (Some s)) w /\
     appliedTheme (osThemeChange v s w) = appliedTheme w /\
     persistedTheme (osThemeChange v s w) = persistedTheme w /\
     themeToggle (themeEnv (osThemeChange v s w)) = themeToggle (themeEnv w)).
Proof.
  split; [|split].
  - intros w matches Hchg.
    destruct (localStorage (themeEnv w)) as [st|] eqn:Hst.
    + exists st. split; [reflexivity|].
      destruct (truthy (st !! "theme")) eqn:Ht; [|reflexivity].
      exfalso. apply Hchg, systemThemeListener_idle.
      intros st' Hst'. congruence.
    + exfalso. apply Hchg, systemThemeListener_idle.
      intros st' Hst'. congruence.
  - intros w matches. apply systemThemeListener_idle.
    intros st Hst. unfold exec in Hst. rewrite toggleTheme_eq in Hst.
    revert Hst. apply applyTheme_stored_truthy.
    destruct (strictEq _ _); discriminate.
  - intros w0 evs s Hdq w.
    assert (Hw : osThemeChange v s w = with_themeEnv (set_colorScheme (Some s)) w).
    { apply osThemeChange_guarded, guarded_run, guarded_init, Hdq. }
    rewrite Hw. repeat split.
Qed.

Lemma os_change_respects_stored_preference_witness :
  let w := run MainJs [ToggleClicked] (exec (init MainJs) samplePage) in
  osThemeChange MainJs Dark w = with_themeEnv (set_colorScheme (Some Dark)) w /\
  appliedTheme (osThemeChange MainJs Dark w) = Some "dark" /\
  appliedTheme (osThemeChange MainJs Light w) = Some "dark".
Proof.
  intros w.
  destruct (os_change_respects_stored_preference MainJs) as (_ & _ & H).
  destruct (H samplePage [ToggleClicked] Dark eq_refl) as (H1 & H2 & _).
  destruct (H samplePage [ToggleClicked] Light eq_refl) as (_ & H3 & _).
  fold w in H1, H2, H3.
  split; [exact H1|]. split.
  - rewrite H2. reflexivity.
  - rewrite H3. reflexivity.
Defined.

(** * Smooth scrolling: proofs *)

Lemma startsWithHash_inv (s : string) :
  startsWithHash s = true -> exists s', s = String "#"%char s'.
Proof.
  unfold startsWithHash. destruct s as [|c s']; cbn [String.prefix]; [discriminate|].
  destruct (ascii_dec "#"%char c) as [<-|]; [eauto|discriminate].
Qed.

(** A selector that starts with a hash is none of the fixed selectors, so
    the selector engine answers for it. *)
Lemma document_querySelector_hash (s : string) (w : World) :
  startsWithHash s = true ->
  document_querySelector s w =
  match selectorOracle (navEnv w) s with
  | InvalidSelector => (w, Throw SyntaxError)
  | NoMatch => (w, Normal None)
  | Match r => (w, Normal (Some r))
  end.
Proof.
  intros H. apply startsWithHash_inv in H. destruct H as [s' ->]. reflexivity.
Qed.

Lemma anchorClickListener_eq (i : nat) (a : Anchor) (w : World) :
  anchors (navEnv w) !! i = Some a -> startsWithHash (href a) = true ->
  anchorClickListener (AnchorRef i) w =
  if String.eqb (href a) "#" then (w, Normal tt)
  else
    match selectorOracle (navEnv w) (href a) with
    | InvalidSelector => (with_defaultPrevented true w, Throw SyntaxError)
    | NoMatch => (with_defaultPrevented true w, Normal tt)
    | Match r =>
        (with_navEnv (fun n => set_scrollCalls (scrollCalls n ++ [(r, smoothToStart)]) n)
           (with_defaultPrevented true w), Normal tt)
    end.
Proof.
  intros Ha Hh.
  unfold anchorClickListener, bind, element_getAttribute, gets. simpl.
  rewrite Ha. simpl.
  destruct (String.eqb (href a) "#"); [reflexivity|].
  unfold preventDefault, modify.
  rewrite (document_querySelector_hash _ _ Hh). simpl.
  destruct (selectorOracle (navEnv w) (href a)); reflexivity.
Qed.

(** The loop of initSmoothScroll, started in the middle of the anchor list. *)
Lemma forEach_addClick (pre l : list Anchor) (w : World) :
  anchors (navEnv w) = pre ++ l ->
  forEach (AnchorRef <$> positions (fun a => startsWithHash (href a)) (length pre) l)
    (fun anchor => addEventListener (ElementTarget anchor) "click" AnchorClickListener) w =
  (with_navEnv (set_anchors (pre ++ (withSmoothScroll <$> l))) w, Normal tt).
Proof.
  revert pre w. induction l as [|x l IH]; intros pre w Hw.
  - simpl. unfold ret. f_equal. destruct w as [te [an so sc nv] re fe pe dp].
    simpl in *. subst an. reflexivity.
  - simpl. unfold withSmoothScroll at 1.
    destruct (startsWithHash (href x)) eqn:Hx.
    + rewrite fmap_cons. simpl forEach. unfold bind at 1.
      unfold addEventListener at 1, modify. simpl.
      match goal with |- context [forEach ?L ?F ?W] =>
        assert (Hs : anchors (navEnv W) =
                     (pre ++ [mkAnchor (href x) (anchorListeners x ++ [AnchorClickListener])]) ++ l)
      end.
      { simpl. rewrite Hw. rewrite <- (Nat.add_0_r (length pre)).
        rewrite alter_app_r. simpl. rewrite <- app_assoc. reflexivity. }
      specialize (IH _ _ Hs). rewrite length_app, Nat.add_1_r in IH.
      rewrite IH. f_equal. rewrite <- app_assoc.
      destruct w as [te [an so sc nv] re fe pe dp]. reflexivity.
    + specialize (IH (pre ++ [x]) w). rewrite <- app_assoc in IH. simpl in IH.
      rewrite length_app, Nat.add_1_r in IH. rewrite (IH Hw).
      rewrite <- app_assoc. reflexivity.
Qed.

Lemma initSmoothScroll_eq (w : World) :
  initSmoothScroll w =
  (with_navEnv (fun n => set_anchors (withSmoothScroll <$> anchors n) n) w, Normal tt).
Proof.
  unfold initSmoothScroll, bind, document_querySelectorAll, gets.
  change (String.eqb hashAnchorSelector hashAnchorSelector) with true. cbv iota.
  exact (forEach_addClick [] (anchors (navEnv w)) w eq_refl).
Qed.

Lemma initSmoothScroll_anchor (w : World) (i : nat) (a : Anchor) :
  anchorsUnwired w -> anchors (navEnv w) !! i = Some a -> startsWithHash (href a) = true ->
  anchors (navEnv (exec initSmoothScroll w)) !! i =
  Some (mkAnchor (href a) [AnchorClickListener]).
Proof.
  intros Hun Ha Hh. unfold exec. rewrite initSmoothScroll_eq. simpl.
  rewrite list_lookup_fmap, Ha. simpl. unfold withSmoothScroll. rewrite Hh.
  unfold anchorsUnwired in Hun. rewrite Forall_lookup in Hun.
  rewrite (Hun i a Ha). reflexivity.
Qed.

Lemma clickAnchor_wired (v : Variant) (w : World) (i : nat) (h : string) :
  anchors (navEnv w) !! i = Some (mkAnchor h [AnchorClickListener]) ->
  clickAnchor v i w =
  let w' := exec (anchorClickListener (AnchorRef i)) (with_defaultPrevented false w) in
  if defaultPrevented w' then w'
  else with_navEnv (fun n => set_navigations (navigations n ++ [h]) n) w'.
Proof. intros Ha. unfold clickAnchor. rewrite Ha. reflexivity. Qed.

(** An href that starts with a hash and is not a selector: the handler has
    cancelled the click when querySelector throws, and the SyntaxError
    escapes it. *)
Lemma smooth_scroll_invalid_selector :
  anchors (navEnv samplePage) !! 4 = Some (mkAnchor "#/route" []) /\
  completion (anchorClickListener (AnchorRef 4))
    (with_defaultPrevented false (exec initSmoothScroll samplePage)) = Throw SyntaxError /\
  clickAnchor MainJs 4 (exec initSmoothScroll samplePage) =
  with_defaultPrevented true (exec initSmoothScroll samplePage).
Proof. repeat split. Qed.

(** C7, amended: once initSmoothScroll has run on a page whose anchors had no
    listeners, a click on an anchor whose href starts with a hash
    - for the href "#": is not cancelled; the browser navigates and nothing
      else changes;
    - for an href that selects an element: is cancelled, and scrollIntoView
      is called on that element once, with smooth behaviour and block start;
    - for an href that selects nothing: is cancelled, and nothing else
      happens; the handler returns normally;
    - for an href the selector engine rejects: is cancelled and no scroll is
      made, and the handler ends with the engine's SyntaxError. *)
Theorem smooth_scroll_click (v : Variant) (w : World) (i : nat) (a : Anchor) :
  anchorsUnwired w ->
  anchors (navEnv w) !! i = Some a ->
  startsWithHash (href a) = true ->
  let w1 := exec initSmoothScroll w in
  let w2 := clickAnchor v i w1 in
  (href a = "#" ->
     defaultPrevented w2 = false /\
     scrollCalls (navEnv w2) = scrollCalls (navEnv w) /\
     w2 = with_navEnv (fun n => set_navigations (navigations n ++ ["#"]) n)
            (with_defaultPrevented false w1)) /\
  (href a <> "#" ->
     (forall r, selectorOracle (navEnv w) (href a) = Match r ->
        defaultPrevented w2 = true /\
        scrollCalls (navEnv w2) = scrollCalls (navEnv w) ++ [(r, smoothToStart)] /\
        navigations (navEnv w2) = navigations (navEnv w) /\
        w2 = with_navEnv (fun n => set_scrollCalls (scrollCalls n ++ [(r, smoothToStart)]) n)
               (with_defaultPrevented true w1)) /\
     (selectorOracle (navEnv w) (href a) = NoMatch ->
        defaultPrevented w2 = true /\
        scrollCalls (navEnv w2) = scrollCalls (navEnv w) /\
        navigations (navEnv w2) = navigations (navEnv w) /\
        w2 = with_defaultPrevented true w1 /\
        completion (anchorClickListener (AnchorRef i)) (with_defaultPrevented false w1)
        = Normal tt) /\
     (selectorOracle (navEnv w) (href a) = InvalidSelector ->
        defaultPrevented w2 = true /\
        scrollCalls (navEnv w2) = scrollCalls (navEnv w) /\
        navigations (navEnv w2) = navigations (navEnv w) /\
        w2 = with_defaultPrevented true w1 /\
        completion (anchorClickListener (AnchorRef i)) (with_defaultPrevented false w1)
        = Throw SyntaxError)).
Proof.
  intros Hun Ha Hh w1 w2.
  assert (Ha1 : anchors (navEnv w1) !! i = Some (mkAnchor (href a) [AnchorClickListener]))
    by exact (initSmoothScroll_anchor w i a Hun Ha Hh).
  assert (Hl : anchorClickListener (AnchorRef i) (with_defaultPrevented false w1) = _)
    by exact (anchorClickListener_eq i _ (with_defaultPrevented false w1) Ha1 Hh).
  assert (Hw1 : w1 = with_navEnv (fun n => set_anchors (withSmoothScroll <$> anchors n) n) w)
    by (unfold w1, exec; rewrite initSmoothScroll_eq; reflexivity).
  assert (Hw2 := clickAnchor_wired v w1 i (href a) Ha1). fold w2 in Hw2.
  unfold exec in Hw2. simpl href in Hl.
  split.
  - intros Hhash. rewrite Hhash in Hl, Hw2. simpl in Hl. rewrite Hl in Hw2. simpl in Hw2.
    rewrite Hw2. rewrite Hw1. repeat split.
  - intros Hne. apply String.eqb_neq in Hne. rewrite Hne in Hl.
    split; [|split].
    + intros r Hr.
      assert (Hr1 : selectorOracle (navEnv (with_defaultPrevented false w1)) (href a) = Match r)
        by (rewrite Hw1; exact Hr).
      rewrite Hr1 in Hl. rewrite Hl in Hw2. simpl in Hw2.
      rewrite Hw2. rewrite Hw1. repeat split.
    + intros Hr.
      assert (Hr1 : selectorOracle (navEnv (with_defaultPrevented false w1)) (href a) = NoMatch)
        by (rewrite Hw1; exact Hr).
      rewrite Hr1 in Hl. rewrite Hl in Hw2. simpl in Hw2.
      unfold completion. rewrite Hl. rewrite Hw2. rewrite Hw1. repeat split.
    + intros Hr.
      assert (Hr1 : selectorOracle (navEnv (with_defaultPrevented false w1)) (href a)
                    = InvalidSelector)
        by (rewrite Hw1; exact Hr).
      rewrite Hr1 in Hl. rewrite Hl in Hw2. simpl in Hw2.
      unfold completion. rewrite Hl. rewrite Hw2. rewrite Hw1. repeat split.
Qed.

Lemma smooth_scroll_click_witness :
  let w1 := exec initSmoothScroll samplePage in
  defaultPrevented (clickAnchor MainJs 0 w1) = false /\
  scrollCalls (navEnv (clickAnchor MainJs 1 w1)) = [(NodeRef 0, smoothToStart)] /\
  clickAnchor MainJs 2 w1 = with_defaultPrevented true w1.
Proof.
  intros w1.
  assert (Hun : anchorsUnwired samplePage) by (repeat constructor).
  destruct (smooth_scroll_click MainJs samplePage 0 (mkAnchor "#" []) Hun eq_refl eq_refl)
    as [H0 _].
  destruct (smooth_scroll_click MainJs samplePage 1 (mkAnchor "#about" []) Hun eq_refl eq_refl)
    as [_ H1].
  destruct (smooth_scroll_click MainJs samplePage 2 (mkAnchor "#missing" []) Hun eq_refl eq_refl)
    as [_ H2].
  assert (Hn1 : "#about" <> "#") by discriminate.
  assert (Hn2 : "#missing" <> "#") by discriminate.
  split; [exact (proj1 (H0 eq_refl))|]. split.
  - exact (proj1 (proj2 (proj1 (H1 Hn1) (NodeRef 0) eq_refl))).
  - exact (proj1 (proj2 (proj2 (proj2 (proj1 (proj2 (H2 Hn2)) eq_refl))))).
Defined.

(** * Contact form: proofs *)

Lemma initFormHandling_eq (w : World) (c : Form) :
  contactForm (formEnv w) = Some c ->
  initFormHandling w =
  (with_formEnv
     (set_contactForm
        (Some (mkForm (fields c) (imageNames c) (submitListeners c ++ [SubmitListener])))) w,
   Normal tt).
Proof.
  intros Hc. unfold initFormHandling, bind, document_querySelector. simpl.
  rewrite Hc. unfold addEventListener, modify. simpl.
  destruct w as [te ne re [cf al rq] pe dp]. simpl in *. subst cf. reflexivity.
Qed.

Lemma submitListener_eq (w : World) (c : Form) :
  contactForm (formEnv w) = Some c ->
  submitListener ContactFormRef w =
  if resetShadowed c then
    (with_formEnv (fun f => set_alerts (alerts f ++ [acknowledgement]) f)
       (with_defaultPrevented true w), Throw TypeError)
  else
    (with_formEnv (fun f =>
       mkFormEnv
         (Some (mkForm (resetFields (fields c)) (imageNames c) (submitListeners c)))
         (alerts f ++ [acknowledgement]) (requests f))
       (with_defaultPrevented true w), Normal tt).
Proof.
  intros Hc. unfold submitListener, bind, preventDefault, alert, form_reset, modify.
  cbn [formEnv with_formEnv with_defaultPrevented contactForm set_alerts].
  rewrite Hc. destruct (resetShadowed c); reflexivity.
Qed.

(** A form whose markup declares a value: after a submission the field holds
    that value again, it is not empty. *)
Lemma contact_form_not_cleared :
  contactForm (formEnv (submitForm MainJs (exec initFormHandling presetFormPage))) =
  Some (mkForm [mkField "topic" "" "general" "general"] [] [SubmitListener]) /\
  ~ (forall c x,
       contactForm (formEnv (submitForm MainJs (exec initFormHandling presetFormPage)))
       = Some c ->
       x ∈ fields c -> fieldValue x = "").
Proof.
  split; [reflexivity|].
  intros H.
  specialize (H (mkForm [mkField "topic" "" "general" "general"] [] [SubmitListener])
                (mkField "topic" "" "general" "general") eq_refl).
  simpl in H. discriminate H. left.
Qed.

(** C8, amended: once initFormHandling has run on a page whose contact form
    had no listener, a submission is cancelled, so the browser sends no
    request, and exactly one acknowledgement is shown.  Where no control and
    no image of the form is named "reset" (by name or by id), every field is
    then back at the value its markup declares, which is the empty string
    for a form whose fields declare none, and the handler returns normally.
    Where one is, [this.reset] is that element: the handler throws a
    TypeError after the acknowledgement and every field keeps its value. *)
Theorem contact_form_submit (v : Variant) (w : World) (c : Form) :
  contactForm (formEnv w) = Some c ->
  submitListeners c = [] ->
  let w1 := exec initFormHandling w in
  let w2 := submitForm v w1 in
  defaultPrevented w2 = true /\
  requests (formEnv w2) = requests (formEnv w) /\
  alerts (formEnv w2) = alerts (formEnv w) ++ [acknowledgement] /\
  (resetShadowed c = false ->
     contactForm (formEnv w2) =
       Some (mkForm (resetFields (fields c)) (imageNames c) [SubmitListener]) /\
     completion (submitListener ContactFormRef) (with_defaultPrevented false w1) = Normal tt) /\
  (resetShadowed c = true ->
     contactForm (formEnv w2) = Some (mkForm (fields c) (imageNames c) [SubmitListener]) /\
     completion (submitListener ContactFormRef) (with_defaultPrevented false w1)
     = Throw TypeError) /\
  Forall (fun x => fieldValue x = fieldDefault x) (resetFields (fields c)) /\
  (Forall (fun x => fieldDefault x = "") (fields c) ->
     Forall (fun x => fieldValue x = "") (resetFields (fields c))).
Proof.
  intros Hc Hnil w1 w2.
  set (c1 := mkForm (fields c) (imageNames c) [SubmitListener]).
  assert (Hw1 : w1 = with_formEnv (set_contactForm (Some c1)) w).
  { unfold w1, exec. rewrite (initFormHandling_eq w c Hc), Hnil. reflexivity. }
  assert (Hc1 : contactForm (formEnv (with_defaultPrevented false w1)) = Some c1)
    by (rewrite Hw1; reflexivity).
  assert (Hsh : resetShadowed c1 = resetShadowed c) by reflexivity.
  assert (Heq := submitListener_eq _ c1 Hc1). rewrite Hsh in Heq.
  assert (Hw2 : w2 = exec (submitListener ContactFormRef) (with_defaultPrevented false w1)).
  { unfold w2, submitForm. rewrite Hw1 in Heq |- *.
    cbn [formEnv with_formEnv contactForm set_contactForm].
    change (submitListeners c1) with [SubmitListener].
    cbn [dispatch runListener]. unfold exec. rewrite Heq.
    destruct (resetShadowed c); reflexivity. }
  unfold exec in Hw2. unfold completion. rewrite Heq in *. clear Heq.
  destruct (resetShadowed c); rewrite Hw2, Hw1; cbn.
  - repeat split; try discriminate.
    + unfold resetFields. apply Forall_fmap, Forall_true. reflexivity.
    + intros Hd. unfold resetFields. apply Forall_fmap.
      eapply Forall_impl; [exact Hd|]. intros x Hx. exact Hx.
  - repeat split; try discriminate.
    + unfold resetFields. apply Forall_fmap, Forall_true. reflexivity.
    + intros Hd. unfold resetFields. apply Forall_fmap.
      eapply Forall_impl; [exact Hd|]. intros x Hx. exact Hx.
Qed.

Lemma contact_form_submit_witness :
  let w2 := submitForm MainJs (exec initFormHandling samplePage) in
  let named := mkForm [mkField "reset" "" "typed" ""] [] [] in
  let w3 := submitForm MainJs
              (exec initFormHandling
                 (with_formEnv (set_contactForm (Some named)) samplePage)) in
  defaultPrevented w2 = true /\
  requests (formEnv w2) = [] /\
  alerts (formEnv w2) = [acknowledgement] /\
  contactForm (formEnv w2) =
    Some (mkForm [mkField "name" "" "" ""; mkField "message" "" "" ""] [] [SubmitListener]) /\
  Forall (fun x => fieldValue x = "")
    (resetFields [mkField "name" "" "Ada" ""; mkField "message" "" "Hello" ""]) /\
  defaultPrevented w3 = true /\
  alerts (formEnv w3) = [acknowledgement] /\
  contactForm (formEnv w3) =
    Some (mkForm [mkField "reset" "" "typed" ""] [] [SubmitListener]).
Proof.
  intros w2 named w3.
  destruct (contact_form_submit MainJs samplePage
              (mkForm [mkField "name" "" "Ada" ""; mkField "message" "" "Hello" ""] [] [])
              eq_refl eq_refl) as (H1 & H2 & H3 & H4 & _ & _ & H7).
  destruct (contact_form_submit MainJs
              (with_formEnv (set_contactForm (Some named)) samplePage) named
              eq_refl eq_refl) as (G1 & _ & G3 & _ & G5 & _).
  split; [exact H1|]. split; [exact H2|]. split; [exact H3|].
  split; [exact (proj1 (H4 eq_refl))|].
  split; [apply H7; repeat constructor|].
  split; [exact G1|]. split; [exact G3|]. exact (proj1 (G5 eq_refl)).
Defined.

(** * Reveal animation: proofs *)

Lemma revealCallback_cons (e : Entry) (es : list Entry) (w : World) :
  revealCallback (e :: es) w = revealCallback es (revealEntry e w).
Proof.
  unfold revealCallback, revealEntry. simpl. unfold bind at 1.
  destruct (isIntersecting e); [|reflexivity].
  unfold bind, classList_add, unobserve, modify. simpl.
  f_equal. destruct w as [te ne [nd io ob ca] fe pe dp]. simpl.
  destruct (target e); reflexivity.
Qed.

Lemma revealCallback_completes (es : list Entry) (w : World) :
  completion (revealCallback es) w = Normal tt.
Proof.
  revert w. induction es as [|e es IH]; intros w; [reflexivity|].
  unfold completion. rewrite revealCallback_cons. apply IH.
Qed.

Lemma revealEntry_observed_subset (e : Entry) (w : World) (el : Ref) :
  el ∈ observedTargets (revealEntry e w) -> el ∈ observedTargets w.
Proof.
  unfold revealEntry, observedTargets. destruct (isIntersecting e); [|auto].
  simpl. destruct (observed (revealEnv w)) as [l|]; simpl; [|auto].
  rewrite list_elem_of_filter. tauto.
Qed.

Lemma revealCallback_observed_subset (es : list Entry) (w : World) (el : Ref) :
  el ∈ observedTargets (exec (revealCallback es) w) -> el ∈ observedTargets w.
Proof.
  revert w. induction es as [|e es IH]; intros w; [auto|].
  unfold exec. rewrite revealCallback_cons. intros H.
  apply (revealEntry_observed_subset e w), IH, H.
Qed.

(** One entry keeps the invariant, provided its target is still watched. *)
Lemma revealPending_entry (e : Entry) (w : World) :
  revealPending w -> target e ∈ observedTargets w -> revealPending (revealEntry e w).
Proof.
  intros [Hnd Hpend] Hin. unfold revealEntry.
  destruct (isIntersecting e); [|split; assumption].
  unfold revealPending, observedTargets in *. simpl.
  split.
  - apply NoDup_app. split; [exact Hnd|]. split; [|apply NoDup_singleton].
    intros x Hx Hx'. apply list_elem_of_singleton in Hx'. subst x.
    exact (Hpend _ Hin Hx).
  - intros el Hel. destruct (observed (revealEnv w)) as [l|]; simpl in *.
    + apply list_elem_of_filter in Hel. destruct Hel as [Hne Hel].
      rewrite elem_of_app, list_elem_of_singleton. intros [Hc|Hc].
      * exact (Hpend el Hel Hc).
      * congruence.
    + apply elem_of_nil in Hel. destruct Hel.
Qed.

Lemma revealPending_callback (es : list Entry) (w : World) :
  revealPending w -> wellFormedBatch es w -> revealPending (exec (revealCallback es) w).
Proof.
  revert w. induction es as [|e es IH]; intros w HK [Hnd Hall]; [exact HK|].
  unfold exec. rewrite revealCallback_cons.
  rewrite fmap_cons in Hnd. apply NoDup_cons in Hnd. destruct Hnd as [Hfresh Hnd].
  apply Forall_cons in Hall. destruct Hall as [He Hall].
  apply IH; [apply revealPending_entry; assumption|].
  split; [exact Hnd|].
  rewrite Forall_forall in Hall |- *. intros x Hx.
  specialize (Hall x Hx).
  unfold revealEntry. destruct (isIntersecting e); [|exact Hall].
  unfold observedTargets in *. simpl.
  destruct (observed (revealEnv w)) as [l|]; simpl in *; [|exact Hall].
  apply list_elem_of_filter. split; [|exact Hall].
  intros Heq. apply Hfresh. rewrite <- Heq. apply list_elem_of_fmap. eauto.
Qed.

Lemma revealPending_intersect (b : list Entry) (w : World) :
  revealPending w -> wellFormedBatch b w -> revealPending (intersect b w).
Proof.
  intros HK Hb. unfold intersect. destruct (observed (revealEnv w)) eqn:Ho; [|exact HK].
  apply revealPending_callback; assumption.
Qed.

Lemma revealPending_runBatches (bs : list (list Entry)) (w : World) :
  revealPending w -> deliverable bs w -> revealPending (runBatches bs w).
Proof.
  revert w. induction bs as [|b bs IH]; intros w HK Hd; [exact HK|].
  destruct Hd as [Hb Hd]. simpl. apply IH; [|exact Hd].
  apply revealPending_intersect; assumption.
Qed.

Lemma filter_eq_absent (a : Ref * string) (l : list (Ref * string)) :
  a ∉ l -> filter (fun c => c = a) l = [].
Proof.
  induction l as [|x l IH]; intros Ha; [reflexivity|].
  rewrite filter_cons. apply not_elem_of_cons in Ha. destruct Ha as [Hne Ha].
  destruct (decide (x = a)) as [Heq|_]; [congruence|]. apply IH, Ha.
Qed.

Lemma markerAdds_NoDup (el : Ref) (w : World) :
  NoDup (classAdds (revealEnv w)) -> markerAdds el w <= 1.
Proof.
  unfold markerAdds. generalize (classAdds (revealEnv w)). intros l Hnd.
  induction Hnd as [|x l Hx Hnd IH]; [simpl; lia|].
  rewrite filter_cons. destruct (decide (x = (el, "animate-fade-in"))) as [->|Hne]; [|exact IH].
  rewrite (filter_eq_absent _ l Hx). simpl. lia.
Qed.

(** An intersecting entry takes its target off the observer's list, and
    nothing in the callback puts a target back. *)
Lemma revealCallback_unobserves (es : list Entry) (e : Entry) (w : World) :
  e ∈ es -> isIntersecting e = true ->
  target e ∉ observedTargets (exec (revealCallback es) w).
Proof.
  revert w. induction es as [|x es IH]; intros w Hin Hint.
  - apply elem_of_nil in Hin. destruct Hin.
  - unfold exec. rewrite revealCallback_cons.
    apply elem_of_cons in Hin. destruct Hin as [<-|Hin].
    + intros Hobs. apply revealCallback_observed_subset in Hobs.
      unfold revealEntry, observedTargets in Hobs. rewrite Hint in Hobs. simpl in Hobs.
      destruct (observed (revealEnv w)) as [l|]; simpl in Hobs.
      * apply list_elem_of_filter in Hobs. destruct Hobs as [Hne _]. congruence.
      * apply elem_of_nil in Hobs. destruct Hobs.
    + apply (IH _ Hin Hint).
Qed.

Lemma intersect_unobserves (es : list Entry) (e : Entry) (w : World) :
  e ∈ es -> isIntersecting e = true -> target e ∉ observedTargets (intersect es w).
Proof.
  intros Hin Hint. unfold intersect.
  destruct (observed (revealEnv w)) eqn:Ho.
  - apply revealCallback_unobserves; assumption.
  - unfold observedTargets. rewrite Ho. apply not_elem_of_nil.
Qed.

Lemma initScrollAnimations_keeps_classAdds (v : Variant) :
  keeps (fun w => classAdds (revealEnv w)) (initScrollAnimations v).
Proof.
  assert (Hnew : keeps (fun w => classAdds (revealEnv w)) new_IntersectionObserver).
  { intros w. unfold exec, new_IntersectionObserver.
    destruct (intersectionObserver _); reflexivity. }
  assert (Hop : forall el s, keeps (fun w => classAdds (revealEnv w)) (set_style_opacity el s)).
  { intros el s w. unfold exec, set_style_opacity, modify. simpl. destruct el; reflexivity. }
  assert (Hde : forall el s,
             keeps (fun w => classAdds (revealEnv w)) (set_style_animationDelay el s)).
  { intros el s w. unfold exec, set_style_animationDelay, modify. simpl.
    destruct el; reflexivity. }
  assert (Hob : forall el, keeps (fun w => classAdds (revealEnv w)) (observe el)).
  { intros el w. reflexivity. }
  unfold initScrollAnimations, document_querySelectorAll.
  apply keeps_bind; [exact Hnew|intros _].
  destruct v;
    repeat first
      [ apply keeps_bind; [|intros ?]
      | apply keeps_forEach; intros ?
      | apply keeps_forEachIndexed; intros ? ?
      | apply keeps_gets | apply Hop | apply Hde | apply Hob ].
Qed.

(** On any batches at all, the token list of an element never holds a class
    twice: [classList.add] of a class already there changes nothing. *)
Lemma revealEntry_classLists (e : Entry) (w : World) :
  Forall (fun x => NoDup (classList x)) (nodes (revealEnv w)) ->
  Forall (fun x => NoDup (classList x)) (nodes (revealEnv (revealEntry e w))).
Proof.
  intros H. unfold revealEntry. destruct (isIntersecting e); [|exact H].
  simpl. destruct (target e); try exact H.
  apply Forall_alter; [exact H|]. intros x _ Hx. simpl.
  case_bool_decide; [exact Hx|].
  apply NoDup_app. split; [exact Hx|]. split; [|apply NoDup_singleton].
  intros y Hy Hy'. apply list_elem_of_singleton in Hy'. subst y. contradiction.
Qed.

Lemma intersect_classLists (es : list Entry) (w : World) :
  Forall (fun x => NoDup (classList x)) (nodes (revealEnv w)) ->
  Forall (fun x => NoDup (classList x)) (nodes (revealEnv (intersect es w))).
Proof.
  unfold intersect. destruct (observed (revealEnv w)) eqn:Ho; [|auto]. clear Ho.
  revert w. induction es as [|e es IH]; intros w H; [exact H|].
  unfold exec. rewrite revealCallback_cons. apply IH, revealEntry_classLists, H.
Qed.

Lemma opacity_keeps_classLists (el : Ref) (s : string) :
  keeps (fun w => classList <$> nodes (revealEnv w)) (set_style_opacity el s).
Proof.
  intros w. unfold exec, set_style_opacity, modify. simpl.
  destruct el; try reflexivity. simpl.
  rewrite (list_fmap_alter classList _ id); [apply list_alter_id; reflexivity|].
  apply Forall_true. reflexivity.
Qed.

Lemma delay_keeps_classLists (el : Ref) (s : float) :
  keeps (fun w => classList <$> nodes (revealEnv w)) (set_style_animationDelay el s).
Proof.
  intros w. unfold exec, set_style_animationDelay, modify. simpl.
  destruct el; try reflexivity. simpl.
  rewrite (list_fmap_alter classList _ id); [apply list_alter_id; reflexivity|].
  apply Forall_true. reflexivity.
Qed.

Lemma observe_keeps_classLists (el : Ref) :
  keeps (fun w => classList <$> nodes (revealEnv w)) (observe el).
Proof. intros w. reflexivity. Qed.

Lemma initScrollAnimations_keeps_classLists (v : Variant) :
  keeps (fun w => classList <$> nodes (revealEnv w)) (initScrollAnimations v).
Proof.
  assert (Hnew : keeps (fun w => classList <$> nodes (revealEnv w)) new_IntersectionObserver).
  { intros w. unfold exec, new_IntersectionObserver.
    destruct (intersectionObserver _); reflexivity. }
  unfold initScrollAnimations, document_querySelectorAll.
  apply keeps_bind; [exact Hnew|intros _].
  destruct v;
    repeat first
      [ apply keeps_bind; [|intros ?]
      | apply keeps_forEach; intros ?
      | apply keeps_forEachIndexed; intros ? ?
      | apply keeps_gets | apply opacity_keeps_classLists
      | apply delay_keeps_classLists | apply observe_keeps_classLists ].
Qed.

Lemma runBatches_classLists (bs : list (list Entry)) (w : World) :
  Forall (fun x => NoDup (classList x)) (nodes (revealEnv w)) ->
  Forall (fun x => NoDup (classList x)) (nodes (revealEnv (runBatches bs w))).
Proof.
  revert w. induction bs as [|b bs IH]; intros w H; [exact H|].
  simpl. apply IH, intersect_classLists, H.
Qed.

(** ** Registration of the candidates *)

Lemma positions_lookup {A} (p : A -> bool) (start k : nat) (l : list A) (x : A) :
  l !! k = Some x -> p x = true -> start + k ∈ positions p start l.
Proof.
  revert start k. induction l as [|y l IH]; intros start k Hk Hp; [discriminate|].
  destruct k as [|k]; simpl in *.
  - injection Hk as ->. rewrite Hp, Nat.add_0_r. left.
  - replace (start + S k) with (S start + k) by lia.
    destruct (p y); [right|]; apply IH; assumption.
Qed.

Lemma exec_forEach_cons {A} (x : A) (l : list A) (f : A -> JS unit) (w : World) :
  returns (f x) w ->
  exec (forEach (x :: l) f) w = exec (forEach l f) (exec (f x) w).
Proof. intros [a Ha]. simpl. rewrite exec_bind, Ha. reflexivity. Qed.

Lemma exec_forEachIndexed_cons {A} (x : A) (l : list A) (f : A -> nat -> JS unit) n w :
  returns (f x n) w ->
  exec (forEachIndexed n (x :: l) f) w = exec (forEachIndexed (S n) l f) (exec (f x n) w).
Proof. intros [a Ha]. simpl. rewrite exec_bind, Ha. reflexivity. Qed.

Section Loops.
Context {A : Type} (Q : World -> Prop) (P : A -> World -> Prop).

Lemma forEachIndexed_all (l : list A) (f : A -> nat -> JS unit) :
  (forall x i w, returns (f x i) w) ->
  (forall x i w, Q w -> Q (exec (f x i) w) /\ P x (exec (f x i) w)) ->
  (forall x i y w, P y w -> P y (exec (f x i) w)) ->
  forall n w, Q w ->
    Q (exec (forEachIndexed n l f) w) /\
    (forall x, x ∈ l -> P x (exec (forEachIndexed n l f) w)) /\
    (forall y, P y w -> P y (exec (forEachIndexed n l f) w)).
Proof.
  intros Hret Hstep Hkeep. induction l as [|x l IH]; intros n w HQ.
  - split; [exact HQ|]. split; [|auto]. intros x Hx. apply elem_of_nil in Hx. destruct Hx.
  - rewrite (exec_forEachIndexed_cons x l f n w (Hret x n w)).
    destruct (Hstep x n w HQ) as [HQ1 HP1].
    destruct (IH (S n) _ HQ1) as (HQ2 & Hin & Hpres).
    split; [exact HQ2|]. split.
    + intros y Hy. apply elem_of_cons in Hy. destruct Hy as [->|Hy]; [apply Hpres, HP1|auto].
    + intros y Hy. apply Hpres, Hkeep, Hy.
Qed.

Lemma forEach_all (l : list A) (f : A -> JS unit) :
  (forall x w, returns (f x) w) ->
  (forall x w, Q w -> Q (exec (f x) w) /\ P x (exec (f x) w)) ->
  (forall x y w, P y w -> P y (exec (f x) w)) ->
  forall w, Q w ->
    Q (exec (forEach l f) w) /\
    (forall x, x ∈ l -> P x (exec (forEach l f) w)) /\
    (forall y, P y w -> P y (exec (forEach l f) w)).
Proof.
  intros Hret Hstep Hkeep. induction l as [|x l IH]; intros w HQ.
  - split; [exact HQ|]. split; [|auto]. intros x Hx. apply elem_of_nil in Hx. destruct Hx.
  - rewrite (exec_forEach_cons x l f w (Hret x w)).
    destruct (Hstep x w HQ) as [HQ1 HP1].
    destruct (IH _ HQ1) as (HQ2 & Hin & Hpres).
    split; [exact HQ2|]. split.
    + intros y Hy. apply elem_of_cons in Hy. destruct Hy as [->|Hy]; [apply Hpres, HP1|auto].
    + intros y Hy. apply Hpres, Hkeep, Hy.
Qed.
End Loops.

Lemma observe_watches (el : Ref) (w : World) :
  constructed w ->
  constructed (exec (observe el) w) /\ el ∈ observedTargets (exec (observe el) w).
Proof.
  intros [l Hl]. unfold constructed, observedTargets, exec, observe, modify. simpl.
  rewrite Hl. simpl. split; [eauto|].
  case_bool_decide; [assumption|]. apply elem_of_app. right. left.
Qed.

Lemma observe_keeps_watching (el y : Ref) (w : World) :
  y ∈ observedTargets w -> y ∈ observedTargets (exec (observe el) w).
Proof.
  unfold observedTargets, exec, observe, modify. simpl.
  destruct (observed (revealEnv w)) as [l|]; simpl; [|auto].
  intros Hy. case_bool_decide; [assumption|]. apply elem_of_app. left. exact Hy.
Qed.

Lemma style_keeps_observed (el : Ref) (s : string) :
  keeps (fun w => observed (revealEnv w)) (set_style_opacity el s).
Proof. intros w. unfold exec, set_style_opacity, modify. simpl. destruct el; reflexivity. Qed.

Lemma delay_keeps_observed (el : Ref) (s : float) :
  keeps (fun w => observed (revealEnv w)) (set_style_animationDelay el s).
Proof.
  intros w. unfold exec, set_style_animationDelay, modify. simpl. destruct el; reflexivity.
Qed.

Lemma exec_seq {A B} (m1 : JS A) (m2 : JS B) (w : World) :
  returns m1 w -> exec (m1;; m2)%js w = exec m2 (exec m1 w).
Proof. intros [a Ha]. rewrite exec_bind, Ha. reflexivity. Qed.

Lemma exec_bind_gets {A B} (f : World -> A) (k : A -> JS B) (w : World) :
  exec (bind (gets f) k) w = exec (k (f w)) w.
Proof. reflexivity. Qed.

(** The body of the three loops of main.js, and of the loop of part_000. *)
Lemma styled_observe_step (styles : JS unit) (el : Ref) (w : World) :
  always styles -> keeps (fun w => observed (revealEnv w)) styles ->
  (constructed w ->
     constructed (exec (styles;; observe el)%js w) /\
     el ∈ observedTargets (exec (styles;; observe el)%js w)) /\
  (forall y, y ∈ observedTargets w -> y ∈ observedTargets (exec (styles;; observe el)%js w)).
Proof.
  intros Hal Hk. rewrite (exec_seq styles (observe el) w (Hal w)).
  assert (Ho : observed (revealEnv (exec styles w)) = observed (revealEnv w)) by apply Hk.
  split.
  - intros Hc. apply observe_watches. unfold constructed. rewrite Ho. exact Hc.
  - intros y Hy. apply observe_keeps_watching. unfold observedTargets. rewrite Ho. exact Hy.
Qed.

Lemma same_classes_lookup (w w' : World) (n : nat) (e : Element) (c : string) :
  classList <$> nodes (revealEnv w') = classList <$> nodes (revealEnv w) ->
  nodes (revealEnv w) !! n = Some e -> hasClass c e = true ->
  exists e', nodes (revealEnv w') !! n = Some e' /\ hasClass c e' = true.
Proof.
  intros Hcl Hn Hc. apply (f_equal (fun l => l !! n)) in Hcl.
  rewrite !list_lookup_fmap, Hn in Hcl.
  destruct (nodes (revealEnv w') !! n) as [e'|]; [|discriminate].
  exists e'. split; [reflexivity|]. simpl in Hcl. injection Hcl as Hcl.
  unfold hasClass in *. rewrite Hcl. exact Hc.
Qed.

Lemma selected_by_class (p : Element -> bool) (w : World) (n : nat) (e : Element) :
  nodes (revealEnv w) !! n = Some e -> p e = true ->
  NodeRef n ∈ NodeRef <$> positions p 0 (nodes (revealEnv w)).
Proof.
  intros Hn Hp. apply list_elem_of_fmap. exists n. split; [reflexivity|].
  exact (positions_lookup p 0 n _ e Hn Hp).
Qed.

Lemma styled2_observe_step (s1 s2 : JS unit) (el : Ref) (w : World) :
  always s1 -> keeps (fun w => observed (revealEnv w)) s1 ->
  always s2 -> keeps (fun w => observed (revealEnv w)) s2 ->
  (constructed w ->
     constructed (exec (s1;; s2;; observe el)%js w) /\
     el ∈ observedTargets (exec (s1;; s2;; observe el)%js w)) /\
  (forall y, y ∈ observedTargets w ->
             y ∈ observedTargets (exec (s1;; s2;; observe el)%js w)).
Proof.
  intros Ha1 Hk1 Ha2 Hk2. rewrite (exec_seq s1 _ w (Ha1 w)).
  assert (Ho : observed (revealEnv (exec s1 w)) = observed (revealEnv w)) by apply Hk1.
  destruct (styled_observe_step s2 el (exec s1 w) Ha2 Hk2) as [H1 H2].
  split.
  - intros Hc. apply H1. unfold constructed. rewrite Ho. exact Hc.
  - intros y Hy. apply H2. unfold observedTargets. rewrite Ho. exact Hy.
Qed.

Lemma always_observe (el : Ref) : always (observe el).
Proof. apply always_modify. Qed.

Lemma always_set_style_opacity (el : Ref) (s : string) : always (set_style_opacity el s).
Proof. apply always_modify. Qed.

Lemma always_set_style_animationDelay (el : Ref) (s : float) :
  always (set_style_animationDelay el s).
Proof. apply always_modify. Qed.

(** A loop that styles and observes each element of a list. *)
Lemma staggered_loop (step : PrimFloat.float) (l : list Ref) (start : nat) (w : World) :
  let loop := forEachIndexed start l (fun card index =>
                set_style_opacity card "0";;
                set_style_animationDelay card (number_of_nat index * step)%float;;
                observe card)%js in
  constructed w ->
  returns loop w /\
  constructed (exec loop w) /\
  (forall x, x ∈ l -> x ∈ observedTargets (exec loop w)) /\
  (forall y, y ∈ observedTargets w -> y ∈ observedTargets (exec loop w)) /\
  classList <$> nodes (revealEnv (exec loop w)) = classList <$> nodes (revealEnv w).
Proof.
  intros loop Hc.
  assert (Hal : forall x i, always
            (set_style_opacity x "0";;
             set_style_animationDelay x (number_of_nat i * step)%float;;
             observe x)%js).
  { intros x i. repeat (apply always_bind; [|intros ?]); apply always_modify. }
  assert (Hstep : forall x i w0,
            (constructed w0 ->
               constructed (exec (set_style_opacity x "0";;
                                  set_style_animationDelay x (number_of_nat i * step)%float;;
                                  observe x)%js w0) /\
               x ∈ observedTargets
                     (exec (set_style_opacity x "0";;
                            set_style_animationDelay x (number_of_nat i * step)%float;;
                            observe x)%js w0)) /\
            (forall y, y ∈ observedTargets w0 ->
               y ∈ observedTargets
                     (exec (set_style_opacity x "0";;
                            set_style_animationDelay x (number_of_nat i * step)%float;;
                            observe x)%js w0))).
  { intros x i w0. apply styled2_observe_step;
      first [apply always_modify | apply style_keeps_observed | apply delay_keeps_observed]. }
  destruct (forEachIndexed_all constructed (fun x w => x ∈ observedTargets w) l _
              (fun x i w0 => Hal x i w0)
              (fun x i w0 => proj1 (Hstep x i w0))
              (fun x i y w0 => proj2 (Hstep x i w0) y) start w Hc) as (H1 & H2 & H3).
  split; [|split; [|split; [|split]]]; auto.
  - apply always_forEachIndexed. exact Hal.
  - apply (keeps_forEachIndexed (fun w => classList <$> nodes (revealEnv w))).
    intros x i. repeat (apply keeps_bind; [|intros ?]);
      first [apply opacity_keeps_classLists | apply delay_keeps_classLists
            | apply observe_keeps_classLists].
Qed.

Lemma plain_loop (styled : bool) (l : list Ref) (w : World) :
  let loop := forEach l (fun el =>
                if styled then (set_style_opacity el "0";; observe el)%js else observe el) in
  constructed w ->
  (forall x, x ∈ l -> x ∈ observedTargets (exec loop w)) /\
  (forall y, y ∈ observedTargets w -> y ∈ observedTargets (exec loop w)).
Proof.
  intros loop Hc.
  apply (forEach_all constructed (fun x w => x ∈ observedTargets w)); try exact Hc.
  - intros x w0. destruct styled; [apply always_bind; [|intros ?]|]; apply always_modify.
  - intros x w0. destruct styled.
    + apply styled_observe_step; [apply always_modify | apply style_keeps_observed].
    + apply observe_watches.
  - intros x y w0. destruct styled.
    + apply styled_observe_step; [apply always_modify | apply style_keeps_observed].
    + apply observe_keeps_watching.
Qed.

Lemma new_IntersectionObserver_eq (w : World) :
  intersectionObserver (revealEnv w) = true ->
  new_IntersectionObserver w = (with_revealEnv (set_observed (Some [])) w, Normal tt).
Proof. intros Hio. unfold new_IntersectionObserver. rewrite Hio. reflexivity. Qed.

(** Every element that carries one of the three candidate classes is among
    the observer's targets once initScrollAnimations has run. *)
Lemma initScrollAnimations_registers (v : Variant) (w : World) (n : nat) (e : Element) :
  intersectionObserver (revealEnv w) = true ->
  nodes (revealEnv w) !! n = Some e ->
  isCandidate e = true ->
  NodeRef n ∈ observedTargets (exec (initScrollAnimations v) w).
Proof.
  intros Hio Hn Hcand. unfold initScrollAnimations.
  rewrite exec_seq by (exists tt; unfold completion; rewrite (new_IntersectionObserver_eq w Hio);
                       reflexivity).
  unfold exec at 2. rewrite (new_IntersectionObserver_eq w Hio). simpl fst.
  set (w0 := with_revealEnv (set_observed (Some [])) w).
  assert (Hc0 : constructed w0) by (unfold constructed; simpl; eauto).
  assert (Hn0 : nodes (revealEnv w0) !! n = Some e) by exact Hn.
  clearbody w0. clear Hn Hio w.
  destruct v.
  - (* main.js: three loops, one per class *)
    unfold document_querySelectorAll. rewrite exec_bind_gets.
    change (String.eqb ".project-card" hashAnchorSelector) with false. cbv iota.
    change (String.eqb ".project-card" ".project-card") with true. cbv iota.
    match goal with |- context [forEachIndexed 0 ?l ?f] =>
      destruct (staggered_loop 0.1%float l 0 w0 Hc0) as (Hr1 & Hc1 & Hin1 & _ & Hcl1)
    end.
    rewrite exec_seq by exact Hr1.
    match goal with |- context [exec (forEachIndexed 0 ?l ?f) w0] =>
      set (w1 := exec (forEachIndexed 0 l f) w0) in *
    end.
    rewrite exec_bind_gets.
    change (String.eqb ".skill-item" hashAnchorSelector) with false. cbv iota.
    change (String.eqb ".skill-item" ".project-card") with false. cbv iota.
    change (String.eqb ".skill-item" ".skill-item") with true. cbv iota.
    match goal with |- context [forEachIndexed 0 ?l ?f] =>
      destruct (staggered_loop 0.15%float l 0 w1 Hc1) as (Hr2 & Hc2 & Hin2 & Hk2 & Hcl2)
    end.
    rewrite exec_seq by exact Hr2.
    match goal with |- context [exec (forEachIndexed 0 ?l ?f) w1] =>
      set (w2 := exec (forEachIndexed 0 l f) w1) in *
    end.
    rewrite exec_bind_gets.
    change (String.eqb ".contact-item" hashAnchorSelector) with false. cbv iota.
    change (String.eqb ".contact-item" ".project-card") with false. cbv iota.
    change (String.eqb ".contact-item" ".skill-item") with false. cbv iota.
    change (String.eqb ".contact-item" ".contact-item") with true. cbv iota.
    match goal with |- context [forEach ?l _] =>
      destruct (plain_loop true l w2 Hc2) as (Hin3 & Hk3)
    end.
    unfold isCandidate in Hcand.
    apply orb_true_iff in Hcand. destruct Hcand as [Hcand|Hcontact].
    + apply orb_true_iff in Hcand. destruct Hcand as [Hcard|Hskill].
      * apply Hk3, Hk2, Hin1. exact (selected_by_class _ w0 n e Hn0 Hcard).
      * destruct (same_classes_lookup w0 w1 n e "skill-item" Hcl1 Hn0 Hskill)
          as (e1 & Hn1 & Hs1).
        apply Hk3, Hin2. exact (selected_by_class _ w1 n e1 Hn1 Hs1).
    + assert (Hcl02 : classList <$> nodes (revealEnv w2) = classList <$> nodes (revealEnv w0))
        by (rewrite Hcl2; exact Hcl1).
      destruct (same_classes_lookup w0 w2 n e "contact-item" Hcl02 Hn0 Hcontact)
        as (e2 & Hn2 & Hs2).
      apply Hin3. exact (selected_by_class _ w2 n e2 Hn2 Hs2).
  - (* part_000: one loop over the union *)
    unfold document_querySelectorAll. rewrite exec_bind_gets.
    change (String.eqb ".project-card, .skill-item, .contact-item" hashAnchorSelector)
      with false. cbv iota.
    change (String.eqb ".project-card, .skill-item, .contact-item" ".project-card")
      with false. cbv iota.
    change (String.eqb ".project-card, .skill-item, .contact-item" ".skill-item")
      with false. cbv iota.
    change (String.eqb ".project-card, .skill-item, .contact-item" ".contact-item")
      with false. cbv iota.
    change (String.eqb ".project-card, .skill-item, .contact-item"
              ".project-card, .skill-item, .contact-item") with true. cbv iota.
    match goal with |- context [forEach ?l _] =>
      destruct (plain_loop false l w0 Hc0) as (Hin & _)
    end.
    apply Hin. exact (selected_by_class _ w0 n e Hn0 Hcand).
Qed.

(** C6: after initScrollAnimations, over any sequence of batches the browser
    can deliver (each batch reports watched targets, each once),
    [classList.add] is called with the marker class at most once per
    element; an element that has received the marker is no longer watched;
    any batch, deliverable or not, leaves the targets of its intersecting
    entries unwatched, so a later return to the viewport is never reported;
    and over any batches at all no class list comes to hold a class twice. *)
Theorem reveal_is_one_shot (v : Variant) (w0 : World) (batches : list (list Entry)) :
  classAdds (revealEnv w0) = [] ->
  let w1 := exec (initScrollAnimations v) w0 in
  deliverable batches w1 ->
  let w := runBatches batches w1 in
  (forall el, markerAdds el w <= 1) /\
  (forall el, (el, "animate-fade-in") ∈ classAdds (revealEnv w) -> el ∉ observedTargets w) /\
  (forall entries e, e ∈ entries -> isIntersecting e = true ->
     target e ∉ observedTargets (intersect entries w)) /\
  (forall anyBatches,
     Forall (fun x => NoDup (classList x)) (nodes (revealEnv w0)) ->
     Forall (fun x => NoDup (classList x)) (nodes (revealEnv (runBatches anyBatches w1)))).
Proof.
  intros Hlog w1 Hd w.
  assert (H1 : revealPending w1).
  { unfold revealPending. unfold w1.
    rewrite (initScrollAnimations_keeps_classAdds v w0), Hlog.
    split; [constructor|]. intros el _. apply not_elem_of_nil. }
  assert (HK : revealPending w) by (apply revealPending_runBatches; assumption).
  split; [|split; [|split]].
  - intros el. apply markerAdds_NoDup, HK.
  - intros el Hadd Hobs. exact (proj2 HK el Hobs Hadd).
  - intros entries e. apply intersect_unobserves.
  - intros anyBatches H0. apply runBatches_classLists.
    assert (Hcl := initScrollAnimations_keeps_classLists v w0). fold w1 in Hcl.
    simpl in Hcl.
    apply (Forall_fmap classList (fun l => NoDup l)).
    apply (Forall_fmap classList (fun l => NoDup l)) in H0.
    rewrite Hcl. exact H0.
Qed.

(** On the sample page: the first card enters, leaves, and the second batch
    can no longer mention it. *)
Lemma reveal_is_one_shot_witness :
  let w1 := exec (initScrollAnimations MainJs) samplePage in
  let batches := [[mkEntry true (NodeRef 0); mkEntry false (NodeRef 1)];
                  [mkEntry true (NodeRef 1); mkEntry true (NodeRef 2)]] in
  observedTargets w1 = [NodeRef 0; NodeRef 1; NodeRef 2] /\
  (forall el, markerAdds el (runBatches batches w1) <= 1) /\
  observedTargets (runBatches batches w1) = [].
Proof.
  intros w1 batches.
  assert (Hd : deliverable batches w1).
  { simpl. repeat split; try exact I;
      try (apply NoDup_ListNoDup; repeat constructor; simpl; intuition discriminate);
      repeat constructor. }
  destruct (reveal_is_one_shot MainJs samplePage batches eq_refl Hd) as (H1 & _).
  split; [reflexivity|]. split; [exact H1 | reflexivity].
Defined.

(** * Absent features: proofs *)

Lemma always_watchSystemTheme : always watchSystemTheme.
Proof. unfold watchSystemTheme, window_matchMedia, addEventListener. always_tac. Qed.

Lemma always_updateFooterYear : always updateFooterYear.
Proof. unfold updateFooterYear, document_getElementById, date_getFullYear. always_tac. Qed.

Lemma always_initSmoothScroll : always initSmoothScroll.
Proof. unfold initSmoothScroll, document_querySelectorAll, addEventListener. always_tac. Qed.

Lemma always_initFormHandling : always initFormHandling.
Proof. unfold initFormHandling, addEventListener. always_tac. Qed.

Lemma always_initParallaxEffect : always initParallaxEffect.
Proof. unfold initParallaxEffect, addEventListener. always_tac. Qed.

Lemma always_addParticleEffect : always addParticleEffect.
Proof. unfold addParticleEffect, appendChild. always_tac. Qed.

Lemma always_mouseMoveListener x y : always (mouseMoveListener x y).
Proof.
  unfold mouseMoveListener, window_innerWidth, window_innerHeight, set_style_transform.
  always_tac.
Qed.

Lemma returns_submitListener this w :
  (forall c, contactForm (formEnv w) = Some c -> resetShadowed c = false) ->
  returns (submitListener this) w.
Proof.
  intros Hc. unfold submitListener.
  apply returns_bind; [apply always_modify|]. intros _.
  apply returns_bind; [apply always_modify|]. intros _.
  unfold returns, completion, form_reset, exec, preventDefault, alert, modify. cbn.
  destruct this; try (exists tt; reflexivity).
  destruct (contactForm (formEnv w)) as [c|] eqn:Hf; [|exists tt; reflexivity].
  rewrite (Hc c eq_refl). exists tt. reflexivity.
Qed.

Lemma always_revealCallback es : always (revealCallback es).
Proof. intros w. exists tt. apply revealCallback_completes. Qed.

Lemma keeps_boot_modify_theme f : keeps bootView (modify (with_themeEnv f)).
Proof. intros w. reflexivity. Qed.

Lemma keeps_boot_getItem key : keeps bootView (localStorage_getItem key).
Proof.
  intros w. unfold exec, localStorage_getItem. destruct (localStorage _); reflexivity.
Qed.

Lemma keeps_boot_setItem key value : keeps bootView (localStorage_setItem key value).
Proof.
  intros w. unfold exec, localStorage_setItem. destruct (localStorage _); reflexivity.
Qed.

Lemma keeps_boot_matches q : keeps bootView (matchMedia_matches q).
Proof.
  intros w. unfold exec, matchMedia_matches. destruct (matchMedia _); reflexivity.
Qed.

Lemma keeps_boot_document_querySelector sel : keeps bootView (document_querySelector sel).
Proof.
  intros w. unfold exec, document_querySelector.
  repeat (match goal with |- context [if ?b then _ else _] => destruct b end; try reflexivity).
  destruct (selectorOracle _ _); reflexivity.
Qed.

Lemma keeps_boot_set_textContent target s : keeps bootView (set_textContent target s).
Proof. intros w. destruct target as [[]|]; reflexivity. Qed.

Lemma keeps_boot_addEventListener target ty l :
  keeps bootView (addEventListener target ty l).
Proof.
  intros w. unfold exec, addEventListener, modify. simpl.
  destruct target as [q|r|]; [destruct q | destruct r |]; simpl;
    repeat (match goal with |- context [if ?b then _ else _] => destruct b end);
    reflexivity.
Qed.

Ltac keeps_boot :=
  repeat first
    [ apply keeps_bind; [|intros ?]
    | apply keeps_forEach; intros ?
    | apply keeps_ret | apply keeps_gets
    | apply keeps_boot_modify_theme | apply keeps_boot_getItem | apply keeps_boot_setItem
    | apply keeps_boot_matches | apply keeps_boot_document_querySelector
    | apply keeps_boot_set_textContent | apply keeps_boot_addEventListener
    | match goal with |- keeps _ (match ?x with _ => _ end) => destruct x end
    | match goal with |- keeps _ (if ?x then _ else _) => destruct x end ].

Lemma keeps_boot_ThemeManager_init v : keeps bootView (ThemeManager.init v).
Proof.
  unfold ThemeManager.init, getInitialTheme, applyTheme, updateToggleButton,
    watchSystemTheme, window_matchMedia, documentElement_setAttribute, element_querySelector.
  keeps_boot.
Qed.

Lemma keeps_boot_updateFooterYear : keeps bootView updateFooterYear.
Proof. unfold updateFooterYear, document_getElementById, date_getFullYear. keeps_boot. Qed.

Lemma keeps_boot_initSmoothScroll : keeps bootView initSmoothScroll.
Proof. unfold initSmoothScroll, document_querySelectorAll. keeps_boot. Qed.

Lemma returns_getInitialTheme v w :
  is_Some (localStorage (themeEnv w)) -> returns (getInitialTheme v) w.
Proof.
  intros [st Hst]. unfold returns, completion.
  destruct (truthy (st !! "theme")) eqn:Ht.
  - destruct (st !! "theme") as [s|] eqn:Hs; [|discriminate].
    apply truthy_Some in Ht.
    rewrite (getInitialTheme_stored v w st s Hst Hs Ht). simpl. eauto.
  - rewrite (getInitialTheme_not_stored v w st Hst Ht). simpl. eauto.
Qed.

Lemma returns_applyTheme v theme w :
  is_Some (localStorage (themeEnv w)) -> iconPresent w -> returns (applyTheme v theme) w.
Proof. intros Hs Hi. exists tt. apply applyTheme_completion. auto. Qed.

Lemma returns_toggleTheme v w :
  is_Some (localStorage (themeEnv w)) -> iconPresent w -> returns (toggleTheme v) w.
Proof.
  intros Hs Hi. unfold returns, completion. rewrite toggleTheme_eq.
  apply returns_applyTheme; assumption.
Qed.

Lemma returns_systemThemeListener v matches w :
  is_Some (localStorage (themeEnv w)) -> iconPresent w ->
  returns (systemThemeListener v matches) w.
Proof.
  intros [st Hst] Hi. unfold returns, completion. rewrite systemThemeListener_eq, Hst.
  destruct (truthy _); [simpl; eauto|].
  apply returns_applyTheme; eauto.
Qed.

Lemma returns_updateToggleButton v theme w :
  iconPresent w -> returns (updateToggleButton v theme) w.
Proof.
  unfold iconPresent, returns, completion. rewrite updateToggleButton_eq.
  destruct (themeToggle (themeEnv w)) as [t|]; simpl; [|eauto].
  intros [x Hx]. rewrite Hx. simpl. eauto.
Qed.

Lemma returns_ThemeManager_init v w :
  is_Some (localStorage (themeEnv w)) -> iconPresent w -> returns (ThemeManager.init v) w.
Proof.
  intros Hs Hi. unfold ThemeManager.init.
  apply returns_bind; [apply returns_getInitialTheme, Hs|]. intros theme.
  assert (He : exec (getInitialTheme v) w = w).
  { unfold exec. destruct (getInitialTheme_cases v w) as [H|(t & _ & H)]; rewrite H; reflexivity. }
  rewrite He.
  apply returns_bind; [apply returns_applyTheme; assumption|]. intros _.
  apply returns_bind; [apply always_watchSystemTheme|]. intros _.
  apply returns_bind; [apply always_document_querySelector_fixed; tauto|]. intros toggle.
  destruct toggle; [apply always_modify | apply always_ret].
Qed.

Lemma returns_initScrollAnimations v w :
  intersectionObserver (revealEnv w) = true -> returns (initScrollAnimations v) w.
Proof.
  intros Hio. unfold initScrollAnimations.
  apply returns_bind.
  - exists tt. unfold completion, new_IntersectionObserver. rewrite Hio. reflexivity.
  - intros _. generalize (exec new_IntersectionObserver w). revert v.
    assert (H : forall v, always
      (match v with
       | MainJs =>
           let* projectCards := document_querySelectorAll ".project-card" in
           forEachIndexed 0 projectCards (fun card index =>
             set_style_opacity card "0";;
             set_style_animationDelay card (number_of_nat index * 0.1)%float;;
             observe card);;
           let* skillItems := document_querySelectorAll ".skill-item" in
           forEachIndexed 0 skillItems (fun item index =>
             set_style_opacity item "0";;
             set_style_animationDelay item (number_of_nat index * 0.15)%float;;
             observe item);;
           let* contactItems := document_querySelectorAll ".contact-item" in
           forEach contactItems (fun el => set_style_opacity el "0";; observe el)
       | Part000 =>
           let* found :=
             document_querySelectorAll ".project-card, .skill-item, .contact-item" in
           forEach found (fun el => observe el)
       end)).
    { intros v. unfold document_querySelectorAll, set_style_opacity,
        set_style_animationDelay, observe. always_tac. }
    exact H.
Qed.

Lemma initScrollAnimations_no_observer v w :
  intersectionObserver (revealEnv w) = false ->
  initScrollAnimations v w = (w, Throw ReferenceError).
Proof.
  intros Hio. unfold initScrollAnimations, bind, new_IntersectionObserver.
  rewrite Hio. reflexivity.
Qed.

Lemma returns_deferredInit v w :
  intersectionObserver (revealEnv w) = true -> returns (deferredInit v) w.
Proof.
  intros Hio. unfold deferredInit.
  apply returns_bind; [apply returns_initScrollAnimations, Hio|]. intros _.
  apply returns_bind; [apply always_initFormHandling|]. intros _.
  destruct v; [|apply always_ret].
  apply returns_bind; [apply always_initParallaxEffect|]. intros _.
  apply always_addParticleEffect.
Qed.

Lemma returns_init v w :
  is_Some (localStorage (themeEnv w)) -> iconPresent w ->
  readyState (pageEnv w) = Loading \/ intersectionObserver (revealEnv w) = true ->
  returns (init v) w.
Proof.
  intros Hs Hi Hboot. unfold init.
  apply returns_bind; [apply returns_ThemeManager_init; assumption|]. intros _.
  assert (H1 := keeps_boot_ThemeManager_init v w).
  set (w1 := exec (ThemeManager.init v) w) in *. clearbody w1.
  apply returns_bind; [apply always_updateFooterYear|]. intros _.
  assert (H2 := keeps_boot_updateFooterYear w1).
  set (w2 := exec updateFooterYear w1) in *. clearbody w2.
  apply returns_bind; [apply always_initSmoothScroll|]. intros _.
  assert (H3 := keeps_boot_initSmoothScroll w2).
  set (w3 := exec initSmoothScroll w2) in *. clearbody w3.
  assert (Hv : bootView w3 = bootView w) by congruence.
  unfold bootView in Hv. injection Hv as Hio Hrs.
  unfold returns. rewrite completion_bind. unfold document_readyState, gets, completion at 1.
  simpl. unfold exec at 1. simpl. rewrite Hrs.
  destruct (readyState (pageEnv w)) eqn:Hr.
  - apply always_modify.
  - apply returns_deferredInit. rewrite Hio. destruct Hboot; [discriminate|assumption].
  - apply returns_deferredInit. rewrite Hio. destruct Hboot; [discriminate|assumption].
Qed.

(** Without a storage API the first statement of getInitialTheme and the
    second of applyTheme throw; without IntersectionObserver the first
    statement of initScrollAnimations throws. *)
Lemma absent_api_throws :
  completion (getInitialTheme MainJs) noStoragePage = Throw ReferenceError /\
  completion (applyTheme MainJs "dark") noStoragePage = Throw ReferenceError /\
  completion (getInitialTheme Part000) noStoragePage = Throw ReferenceError /\
  completion (applyTheme Part000 "dark") noStoragePage = Throw ReferenceError /\
  completion (initScrollAnimations MainJs) noObserverPage = Throw ReferenceError.
Proof. repeat split. Qed.

(** A toggle control without an icon: the write to [icon.textContent] is a
    write to a property of null. *)
Lemma updateToggleButton_null_icon (v : Variant) (theme : string) (w : World) (t : Toggle) :
  themeToggle (themeEnv w) = Some t -> icon t = None ->
  updateToggleButton v theme w = (w, Throw TypeError).
Proof. intros Ht Hi. rewrite updateToggleButton_eq, Ht, Hi. reflexivity. Qed.

Lemma updateToggleButton_null_icon_sample :
  completion (updateToggleButton MainJs "dark") noIconPage = Throw TypeError /\
  completion (ThemeManager.init MainJs) noIconPage = Throw TypeError /\
  darkModeQuery (themeEnv (exec (ThemeManager.init MainJs) noIconPage)) = [].
Proof. repeat split. Qed.

(** C2, amended: absence of the toggle control, of its text sub-element, of
    the media-query API, of the year element, of the contact form, of the
    hero and code blocks and of a scroll target makes no operation throw
    (the submit handler, as long as [reset] is callable on the form).
    The storage API and the IntersectionObserver constructor are not
    optional: given the storage, getInitialTheme returns; given the storage
    and a toggle control that is absent or has its icon, applyTheme,
    toggleTheme, the OS-change listener and ThemeManager.init return; given
    IntersectionObserver, initScrollAnimations returns; given all three, init
    returns.  Without the storage getInitialTheme and applyTheme throw a
    ReferenceError, and so does initScrollAnimations without
    IntersectionObserver. *)
Theorem absent_features (v : Variant) (w : World) :
  (returns watchSystemTheme w /\
   returns updateFooterYear w /\
   returns initSmoothScroll w /\
   returns initFormHandling w /\
   returns initParallaxEffect w /\
   returns addParticleEffect w /\
   (forall x y, returns (mouseMoveListener x y) w) /\
   (forall this,
      (forall c, contactForm (formEnv w) = Some c -> resetShadowed c = false) ->
      returns (submitListener this) w) /\
   (forall entries, returns (revealCallback entries) w) /\
   (forall i a, anchors (navEnv w) !! i = Some a -> startsWithHash (href a) = true ->
      selectorOracle (navEnv w) (href a) <> InvalidSelector ->
      returns (anchorClickListener (AnchorRef i)) w)) /\
  (iconPresent w -> forall theme, returns (updateToggleButton v theme) w) /\
  (is_Some (localStorage (themeEnv w)) ->
     returns (getInitialTheme v) w /\
     (iconPresent w ->
        (forall theme, returns (applyTheme v theme) w) /\
        returns (toggleTheme v) w /\
        (forall matches, returns (systemThemeListener v matches) w) /\
        returns (ThemeManager.init v) w /\
        (readyState (pageEnv w) = Loading \/ intersectionObserver (revealEnv w) = true ->
           returns (init v) w))) /\
  (intersectionObserver (revealEnv w) = true ->
     returns (initScrollAnimations v) w /\ returns (deferredInit v) w) /\
  (localStorage (themeEnv w) = None ->
     completion (getInitialTheme v) w = Throw ReferenceError /\
     forall theme, completion (applyTheme v theme) w = Throw ReferenceError) /\
  (intersectionObserver (revealEnv w) = false ->
     completion (initScrollAnimations v) w = Throw ReferenceError).
Proof.
  split; [|split; [|split; [|split; [|split]]]].
  - repeat split.
    + apply always_watchSystemTheme.
    + apply always_updateFooterYear.
    + apply always_initSmoothScroll.
    + apply always_initFormHandling.
    + apply always_initParallaxEffect.
    + apply always_addParticleEffect.
    + intros x y. apply always_mouseMoveListener.
    + intros this Hc. apply returns_submitListener, Hc.
    + intros entries. apply always_revealCallback.
    + intros i a Ha Hh Hsel. unfold returns, completion.
      rewrite (anchorClickListener_eq i a w Ha Hh).
      destruct (String.eqb (href a) "#"); [simpl; eauto|].
      destruct (selectorOracle (navEnv w) (href a)); simpl; eauto. contradiction.
  - intros Hi theme. apply returns_updateToggleButton, Hi.
  - intros Hs. split; [apply returns_getInitialTheme, Hs|].
    intros Hi. repeat split.
    + intros theme. apply returns_applyTheme; assumption.
    + apply returns_toggleTheme; assumption.
    + intros matches. apply returns_systemThemeListener; assumption.
    + apply returns_ThemeManager_init; assumption.
    + intros Hboot. apply returns_init; assumption.
  - intros Hio. split.
    + apply returns_initScrollAnimations, Hio.
    + apply returns_deferredInit, Hio.
  - intros Hs. split.
    + unfold completion. rewrite (getInitialTheme_no_storage v w Hs). reflexivity.
    + intros theme. apply applyTheme_no_storage, Hs.
  - intros Hio. unfold completion.
    rewrite (initScrollAnimations_no_observer v w Hio). reflexivity.
Qed.

(** A bare page: storage and IntersectionObserver, and none of the optional
    elements or of the media-query API. *)
Lemma absent_features_witness :
  let bare :=
    mkWorld (mkThemeEnv (Some ∅) false None ∅ None [])
            (mkNavEnv [mkAnchor "#gone" []] (fun _ => NoMatch) [] [])
            (mkRevealEnv [] true None [])
            (mkFormEnv None [] [])
            (mkPageEnv Complete [] [] None 2024 None None 0 0 (fun _ => 0%float) 0)
            false in
  returns (init MainJs) bare /\
  returns (init Part000) bare /\
  returns (anchorClickListener (AnchorRef 0)) bare /\
  completion (applyTheme MainJs "dark") noStoragePage = Throw ReferenceError /\
  completion (initScrollAnimations Part000) noObserverPage = Throw ReferenceError.
Proof.
  intros bare.
  assert (Hs : is_Some (localStorage (themeEnv bare))) by (simpl; eauto).
  assert (Hi : iconPresent bare) by exact I.
  assert (Hb : readyState (pageEnv bare) = Loading \/
               intersectionObserver (revealEnv bare) = true) by (right; reflexivity).
  assert (Hsel : selectorOracle (navEnv bare) "#gone" <> InvalidSelector) by discriminate.
  split; [|split; [|split; [|split]]].
  - destruct (absent_features MainJs bare) as (_ & _ & H & _).
    exact (proj2 (proj2 (proj2 (proj2 (proj2 (H Hs) Hi)))) Hb).
  - destruct (absent_features Part000 bare) as (_ & _ & H & _).
    exact (proj2 (proj2 (proj2 (proj2 (proj2 (H Hs) Hi)))) Hb).
  - destruct (absent_features MainJs bare) as (H & _).
    exact (proj2 (proj2 (proj2 (proj2 (proj2 (proj2 (proj2 (proj2 (proj2 H))))))))
             0 (mkAnchor "#gone" []) eq_refl eq_refl Hsel).
  - destruct (absent_features MainJs noStoragePage) as (_ & _ & _ & _ & H & _).
    exact (proj2 (H eq_refl) "dark").
  - destruct (absent_features Part000 noObserverPage) as (_ & _ & _ & _ & _ & H).
    exact (H eq_refl).
Defined.

(** * Further properties of the script *)

(** A leaf of the script, seen through a view it does not write. *)
Ltac split_goal_match :=
  match goal with
  | |- context [match ?x with _ => _ end] => destruct x
  | |- context [if ?x then _ else _] => destruct x
  end.

Ltac keeps_leaf :=
  let w := fresh "w" in
  intros w;
  unfold exec, localStorage_getItem, localStorage_setItem, documentElement_setAttribute,
    documentElement_getAttribute, window_matchMedia, matchMedia_matches,
    document_querySelector, element_querySelector, document_getElementById,
    set_textContent, addEventListener, preventDefault, scrollIntoView,
    element_getAttribute, document_querySelectorAll, date_getFullYear,
    new_IntersectionObserver, observe, unobserve, classList_add, set_style_opacity,
    set_style_animationDelay, window_innerWidth, window_innerHeight, set_style_transform,
    Math_random, appendChild, alert, form_reset, document_readyState, modify, gets, ret;
  repeat split_goal_match; reflexivity.

Ltac keeps_tac :=
  repeat first
    [ apply keeps_bind; [|intros ?]
    | apply keeps_forEach; intros ?
    | apply keeps_forEachIndexed; intros ? ?
    | apply keeps_forLoop
    | match goal with |- keeps _ (match ?x with _ => _ end) => destruct x end
    | match goal with |- keeps _ (if ?x then _ else _) => destruct x end
    | solve [keeps_leaf] ].

Lemma initFormHandling_keeps_theme : keeps themeEnv initFormHandling.
Proof.
  intros w. unfold exec, initFormHandling, bind, document_querySelector. simpl.
  destruct (contactForm (formEnv w)); reflexivity.
Qed.

Lemma deferredInit_keeps_theme v : keeps themeEnv (deferredInit v).
Proof.
  unfold deferredInit.
  apply keeps_bind; [|intros _; apply keeps_bind; [apply initFormHandling_keeps_theme|intros _]].
  - unfold initScrollAnimations. keeps_tac.
  - unfold initParallaxEffect, addParticleEffect. keeps_tac.
Qed.

(** ** Theme: what the store holds over the life of the page *)

Lemma inSync_themeStore (w w' : World) :
  themeStore w' = themeStore w -> inSync w -> inSync w'.
Proof.
  unfold themeStore, inSync, appliedTheme, persistedTheme.
  intros H. injection H as Ha Hs. rewrite Ha, Hs. auto.
Qed.

Lemma inSync_keeps {A} (m : JS A) (w : World) :
  keeps themeStore m -> inSync w -> inSync (exec m w).
Proof. intros Hk. apply inSync_themeStore, Hk. Qed.

Lemma inSync_applyTheme v theme w :
  theme <> "" -> is_Some (localStorage (themeEnv w)) -> inSync (exec (applyTheme v theme) w).
Proof.
  intros Hne [st Hst]. split.
  - rewrite (applyTheme_storage v theme w st Hst). eauto.
  - exists theme. split; [exact Hne|]. split; [apply applyTheme_applied|].
    unfold persistedTheme. rewrite (applyTheme_storage v theme w st Hst).
    apply lookup_insert_eq.
Qed.

Lemma keeps_themeStore_anchorClickListener this : keeps themeStore (anchorClickListener this).
Proof. unfold anchorClickListener. keeps_tac. Qed.

Lemma keeps_themeStore_submitListener this : keeps themeStore (submitListener this).
Proof. unfold submitListener. keeps_tac. Qed.

Lemma keeps_themeStore_mouseMoveListener x y : keeps themeStore (mouseMoveListener x y).
Proof. unfold mouseMoveListener. keeps_tac. Qed.

Lemma keeps_themeStore_revealCallback es : keeps themeStore (revealCallback es).
Proof. unfold revealCallback. keeps_tac. Qed.

Lemma keeps_themeStore_deferredInit v : keeps themeStore (deferredInit v).
Proof.
  unfold deferredInit, initScrollAnimations, initFormHandling, initParallaxEffect,
    addParticleEffect.
  keeps_tac.
Qed.

Lemma keeps_themeStore_after_theme_init v :
  keeps themeStore
    (updateFooterYear;;
     initSmoothScroll;;
     let* state := document_readyState in
     match state with
     | Loading => addEventListener DocumentTarget "DOMContentLoaded" DomReadyListener
     | _ => deferredInit v
     end).
Proof.
  unfold updateFooterYear, initSmoothScroll.
  keeps_tac; apply keeps_themeStore_deferredInit.
Qed.

Lemma inSync_runListener v l e w : inSync w -> inSync (exec (runListener v l e) w).
Proof.
  intros H. destruct l, e; simpl;
    first [ exact H
          | apply inSync_keeps; [|exact H];
            first [ apply keeps_themeStore_anchorClickListener
                  | apply keeps_themeStore_submitListener
                  | apply keeps_themeStore_deferredInit
                  | apply keeps_themeStore_mouseMoveListener ]
          | idtac ].
  (* the two listeners that apply a theme *)
  all: try (unfold exec; rewrite toggleTheme_eq;
            apply inSync_applyTheme; [destruct (strictEq _ _); discriminate | apply H]).
  all: unfold exec; rewrite systemThemeListener_eq;
    destruct H as [[st Hst] H]; rewrite Hst;
    (destruct (truthy (st !! "theme")); [split; eauto|]);
    apply inSync_applyTheme; [destruct matches; discriminate | eauto].
Qed.

Lemma inSync_dispatch v ls e w : inSync w -> inSync (dispatch v ls e w).
Proof.
  revert w. induction ls as [|l ls IH]; intros w H; simpl; [exact H|].
  apply IH, inSync_runListener, H.
Qed.

Lemma inSync_step v ev w : inSync w -> inSync (step v ev w).
Proof.
  intros H. destruct ev; simpl.
  - unfold osThemeChange. apply inSync_dispatch.
    revert H. apply inSync_themeStore. reflexivity.
  - unfold clickToggle. destruct (themeToggle _); [apply inSync_dispatch|]; exact H.
  - unfold clickAnchor. destruct (anchors _ !! i) as [a|]; [|exact H].
    match goal with |- inSync (if defaultPrevented ?x then _ else _) =>
      assert (Hx : inSync x) by
        (apply inSync_dispatch; revert H; apply inSync_themeStore; reflexivity);
      destruct (defaultPrevented x); [exact Hx|]
    end.
    revert Hx. apply inSync_themeStore. reflexivity.
  - unfold submitForm. destruct (contactForm _) as [c|]; [|exact H].
    match goal with |- inSync (if defaultPrevented ?x then _ else _) =>
      assert (Hx : inSync x) by
        (apply inSync_dispatch; revert H; apply inSync_themeStore; reflexivity);
      destruct (defaultPrevented x); [exact Hx|]
    end.
    revert Hx. apply inSync_themeStore. reflexivity.
  - unfold domReady. apply inSync_dispatch.
    revert H. apply inSync_themeStore. reflexivity.
  - unfold intersect. destruct (observed _); [|exact H].
    apply inSync_keeps; [apply keeps_themeStore_revealCallback | exact H].
  - apply inSync_dispatch, H.
Qed.

Lemma inSync_run v evs w : inSync w -> inSync (run v evs w).
Proof.
  revert w. induction evs as [|ev evs IH]; intros w H; simpl; [exact H|].
  apply IH, inSync_step, H.
Qed.

(** What ThemeManager.init leaves in the store: the theme getInitialTheme
    resolved, whether or not the toggle control could be updated. *)
Lemma ThemeManager_init_store v w st :
  localStorage (themeEnv w) = Some st ->
  exists T, T <> "" /\ getInitialTheme v w = (w, Normal T) /\
    themeStore (exec (ThemeManager.init v) w) =
    (<["data-theme" := T]> (rootAttributes (themeEnv w)), Some (<["theme" := T]> st)).
Proof.
  intros Hst.
  destruct (getInitialTheme_cases v w) as [Hthrow | (T & Hne & Hret)].
  { destruct (returns_getInitialTheme v w (ex_intro _ st Hst)) as [a Ha].
    unfold completion in Ha. rewrite Hthrow in Ha. discriminate. }
  exists T. split; [exact Hne|]. split; [exact Hret|].
  unfold ThemeManager.init. rewrite exec_bind. unfold completion, exec at 2. rewrite Hret. simpl.
  assert (Hs : themeStore (exec (applyTheme v T) w) =
               (<["data-theme" := T]> (rootAttributes (themeEnv w)),
                Some (<["theme" := T]> st))).
  { rewrite exec_applyTheme. unfold themeStore. simpl. rewrite Hst. reflexivity. }
  rewrite exec_bind. destruct (completion (applyTheme v T) w); [|exact Hs].
  rewrite <- Hs.
  assert (Hk : keeps themeStore
           (watchSystemTheme;;
            let* toggle := document_querySelector ".theme-toggle" in
            match toggle with
            | Some toggle => addEventListener (ElementTarget toggle) "click" ToggleClickListener
            | None => ret tt
            end)).
  { unfold ThemeManager.watchSystemTheme. keeps_tac. }
  apply Hk.
Qed.

Lemma inSync_init v w :
  is_Some (localStorage (themeEnv w)) -> inSync (exec (init v) w).
Proof.
  intros [st Hst].
  destruct (ThemeManager_init_store v w st Hst) as (T & Hne & _ & Hs).
  assert (H1 : inSync (exec (ThemeManager.init v) w)).
  { unfold themeStore in Hs. injection Hs as Ha Hl. split; [rewrite Hl; eauto|].
    exists T. split; [exact Hne|]. unfold appliedTheme, persistedTheme. rewrite Ha, Hl.
    split; apply lookup_insert_eq. }
  unfold init. rewrite exec_bind.
  destruct (completion (ThemeManager.init v) w); [|exact H1].
  apply inSync_keeps; [apply keeps_themeStore_after_theme_init | exact H1].
Qed.

(** X1: on a browser with storage, from the moment the script has run and
    whatever happens afterwards (clicks, submissions, OS changes, scrolling),
    the theme under the storage key is the theme in the root attribute, and
    it is a non-empty string. *)
Theorem theme_store_stays_in_sync (v : Variant) (w0 : World) (evs : list PageEvent) :
  is_Some (localStorage (themeEnv w0)) ->
  let w := run v evs (exec (init v) w0) in
  exists T, T <> "" /\ appliedTheme w = Some T /\ persistedTheme w = Some T.
Proof.
  intros Hst w.
  exact (proj2 (inSync_run v evs _ (inSync_init v w0 Hst))).
Qed.

Lemma theme_store_stays_in_sync_witness :
  exists T, T <> "" /\
    appliedTheme (run MainJs [ToggleClicked; OsThemeChanged Dark; AnchorClicked 1]
                    (exec (init MainJs) samplePage)) = Some T /\
    persistedTheme (run MainJs [ToggleClicked; OsThemeChanged Dark; AnchorClicked 1]
                      (exec (init MainJs) samplePage)) = Some T.
Proof.
  assert (Hst : is_Some (localStorage (themeEnv samplePage))) by (simpl; eauto).
  exact (theme_store_stays_in_sync MainJs samplePage
           [ToggleClicked; OsThemeChanged Dark; AnchorClicked 1] Hst).
Defined.

Lemma init_store v w st :
  localStorage (themeEnv w) = Some st ->
  exists T, T <> "" /\ getInitialTheme v w = (w, Normal T) /\
    themeStore (exec (init v) w) =
    (<["data-theme" := T]> (rootAttributes (themeEnv w)), Some (<["theme" := T]> st)).
Proof.
  intros Hst. destruct (ThemeManager_init_store v w st Hst) as (T & Hne & Hret & Hs).
  exists T. split; [exact Hne|]. split; [exact Hret|].
  unfold init. rewrite exec_bind.
  destruct (completion (ThemeManager.init v) w); [|exact Hs].
  rewrite <- Hs. apply keeps_themeStore_after_theme_init.
Qed.

(** X2: the first run of the script persists the theme it resolved, OS
    default included; a later getInitialTheme returns that theme whatever
    the OS reports by then and whether or not the media-query API is there.
    The OS preference is consulted on the first visit only. *)
Theorem first_load_fixes_theme (v : Variant) (w : World) (st : gmap string string) :
  localStorage (themeEnv w) = Some st ->
  exists T,
    getInitialTheme v w = (w, Normal T) /\
    persistedTheme (exec (init v) w) = Some T /\
    forall (mm : bool) (os : option Scheme),
      completion (getInitialTheme v)
        (with_themeEnv
           (fun t => mkThemeEnv (localStorage t) mm os (rootAttributes t) (themeToggle t)
                                (darkModeQuery t))
           (exec (init v) w)) = Normal T.
Proof.
  intros Hst. destruct (init_store v w st Hst) as (T & Hne & Hret & Hs).
  unfold themeStore in Hs. injection Hs as Ha Hl.
  exists T. split; [exact Hret|]. split.
  - unfold persistedTheme. rewrite Hl. apply lookup_insert_eq.
  - intros mm os. unfold completion.
    erewrite getInitialTheme_stored; [reflexivity | simpl; exact Hl | apply lookup_insert_eq
                                     | exact Hne].
Qed.

Lemma first_load_fixes_theme_witness :
  exists T,
    getInitialTheme MainJs samplePage = (samplePage, Normal T) /\
    persistedTheme (exec (init MainJs) samplePage) = Some T /\
    forall (mm : bool) (os : option Scheme),
      completion (getInitialTheme MainJs)
        (with_themeEnv
           (fun t => mkThemeEnv (localStorage t) mm os (rootAttributes t) (themeToggle t)
                                (darkModeQuery t))
           (exec (init MainJs) samplePage)) = Normal T.
Proof. exact (first_load_fixes_theme MainJs samplePage ∅ eq_refl). Defined.

(** X3: a non-empty theme written by applyTheme is what getInitialTheme
    reads back, even when applyTheme stopped at the toggle control; the
    empty string does not survive the round trip, getInitialTheme then
    answers "light" or "dark". *)
Theorem applyTheme_getInitialTheme_round_trip (v : Variant) (w : World) (T : string) :
  is_Some (localStorage (themeEnv w)) ->
  (T <> "" ->
     completion (getInitialTheme v) (exec (applyTheme v T) w) = Normal T) /\
  (completion (getInitialTheme v) (exec (applyTheme v "") w) = Normal "light" \/
   completion (getInitialTheme v) (exec (applyTheme v "") w) = Normal "dark").
Proof.
  intros [st Hst]. split.
  - intros Hne. unfold completion.
    erewrite getInitialTheme_stored;
      [reflexivity | exact (applyTheme_storage v T w st Hst) | apply lookup_insert_eq
      | exact Hne].
  - unfold completion.
    erewrite getInitialTheme_not_stored;
      [| exact (applyTheme_storage v "" w st Hst) | rewrite lookup_insert_eq; reflexivity].
    simpl. destruct v, (_ && _); simpl; auto.
Qed.

Lemma applyTheme_getInitialTheme_round_trip_witness :
  completion (getInitialTheme Part000) (exec (applyTheme Part000 "sepia") noIconPage)
  = Normal "sepia".
Proof.
  assert (Hst : is_Some (localStorage (themeEnv noIconPage))) by (simpl; eauto).
  assert (Hne : "sepia" <> "") by discriminate.
  exact (proj1 (applyTheme_getInitialTheme_round_trip Part000 noIconPage "sepia" Hst) Hne).
Defined.

(** X4: with a storage that holds no theme (never written, or cleared), the
    OS-change listener applies "dark" when the dark query matches and "light"
    otherwise, and persists it; having done so it ignores every later
    notification. *)
Theorem os_listener_applies_once (v : Variant) (w : World) (st : gmap string string)
    (matches : bool) :
  localStorage (themeEnv w) = Some st ->
  truthy (st !! "theme") = false ->
  let T := if matches then "dark" else "light" in
  let w1 := exec (systemThemeListener v matches) w in
  appliedTheme w1 = Some T /\
  persistedTheme w1 = Some T /\
  forall later, exec (systemThemeListener v later) w1 = w1.
Proof.
  intros Hst Ht T w1.
  assert (Hw1 : w1 = exec (applyTheme v T) w).
  { unfold w1, exec. rewrite systemThemeListener_eq, Hst, Ht. reflexivity. }
  assert (Hl : localStorage (themeEnv w1) = Some (<["theme" := T]> st))
    by (rewrite Hw1; exact (applyTheme_storage v T w st Hst)).
  split; [rewrite Hw1; apply applyTheme_applied|]. split.
  - unfold persistedTheme. rewrite Hl. apply lookup_insert_eq.
  - intros later. apply systemThemeListener_idle. intros st' Hst'.
    rewrite Hl in Hst'. injection Hst' as <-. rewrite lookup_insert_eq.
    apply truthy_Some. unfold T. destruct matches; discriminate.
Qed.

Lemma os_listener_applies_once_witness :
  appliedTheme (exec (systemThemeListener MainJs true) samplePage) = Some "dark" /\
  persistedTheme (exec (systemThemeListener MainJs true) samplePage) = Some "dark" /\
  forall later,
    exec (systemThemeListener MainJs later) (exec (systemThemeListener MainJs true) samplePage)
    = exec (systemThemeListener MainJs true) samplePage.
Proof. exact (os_listener_applies_once MainJs samplePage ∅ true eq_refl eq_refl). Defined.

(** X5: in a browser without a storage API the script stops at its first
    statement: the whole of init leaves the page exactly as it found it (no
    theme attribute, no footer year, no listener of any kind) and ends with
    a ReferenceError. *)
Theorem init_without_storage (v : Variant) (w : World) :
  localStorage (themeEnv w) = None ->
  init v w = (w, Throw ReferenceError) /\
  ThemeManager.init v w = (w, Throw ReferenceError).
Proof.
  intros Hst.
  assert (H : ThemeManager.init v w = (w, Throw ReferenceError)).
  { unfold ThemeManager.init, bind. rewrite (getInitialTheme_no_storage v w Hst). reflexivity. }
  split; [|exact H].
  unfold init, bind. rewrite H. reflexivity.
Qed.

Lemma init_without_storage_witness :
  init MainJs noStoragePage = (noStoragePage, Throw ReferenceError) /\
  ThemeManager.init MainJs noStoragePage = (noStoragePage, Throw ReferenceError).
Proof. exact (init_without_storage MainJs noStoragePage eq_refl). Defined.

(** X6: on a page whose toggle control has no icon element, init writes the
    resolved theme to the root attribute and to the storage and then stops
    with a TypeError: the toggle gets no click listener, the OS-change
    listener is not registered, the footer year is not written and no anchor
    is wired for smooth scrolling. *)
Theorem init_stops_at_iconless_toggle (v : Variant) (w : World)
    (st : gmap string string) (t : Toggle) :
  localStorage (themeEnv w) = Some st ->
  themeToggle (themeEnv w) = Some t ->
  icon t = None ->
  exists T,
    getInitialTheme v w = (w, Normal T) /\
    init v w =
    (with_themeEnv
       (fun te => set_localStorage (Some (<["theme" := T]> st))
                    (set_rootAttributes (<["data-theme" := T]> (rootAttributes te)) te)) w,
     Throw TypeError) /\
    themeToggle (themeEnv (exec (init v) w)) = Some t /\
    darkModeQuery (themeEnv (exec (init v) w)) = darkModeQuery (themeEnv w) /\
    anchors (navEnv (exec (init v) w)) = anchors (navEnv w) /\
    yearElement (pageEnv (exec (init v) w)) = yearElement (pageEnv w).
Proof.
  intros Hst Htg Hic.
  destruct (ThemeManager_init_store v w st Hst) as (T & _ & Hret & _).
  exists T. split; [exact Hret|].
  assert (Happ : applyTheme v T w =
            (with_themeEnv
               (fun te => set_localStorage (Some (<["theme" := T]> st))
                  (set_rootAttributes (<["data-theme" := T]> (rootAttributes te)) te)) w,
             Throw TypeError)).
  { rewrite applyTheme_eq, Hst. cbv zeta.
    rewrite (updateToggleButton_null_icon v T _ t); [| exact Htg | exact Hic].
    destruct w as [[ls mm cs ra tg dq] ne re fe pe dp]. reflexivity. }
  assert (Hinit : init v w =
            (with_themeEnv
               (fun te => set_localStorage (Some (<["theme" := T]> st))
                  (set_rootAttributes (<["data-theme" := T]> (rootAttributes te)) te)) w,
             Throw TypeError)).
  { unfold init, ThemeManager.init, bind. rewrite Hret, Happ. reflexivity. }
  split; [exact Hinit|]. unfold exec. rewrite Hinit. simpl.
  repeat split. exact Htg.
Qed.

Lemma init_stops_at_iconless_toggle_witness :
  exists T,
    getInitialTheme MainJs noIconPage = (noIconPage, Normal T) /\
    completion (init MainJs) noIconPage = Throw TypeError /\
    anchors (navEnv (exec (init MainJs) noIconPage)) = anchors (navEnv noIconPage).
Proof.
  destruct (init_stops_at_iconless_toggle MainJs noIconPage ∅ (mkToggle None (Some "") [])
              eq_refl eq_refl eq_refl) as (T & H1 & H2 & _ & _ & H5 & _).
  exists T. split; [exact H1|]. split; [|exact H5].
  unfold completion. rewrite H2. reflexivity.
Defined.

Lemma updateFooterYear_keeps_theme : keeps themeEnv updateFooterYear.
Proof.
  intros w. unfold exec, updateFooterYear, bind, document_getElementById, gets. simpl.
  destruct (yearElement (pageEnv w)); reflexivity.
Qed.

Lemma initSmoothScroll_keeps_theme : keeps themeEnv initSmoothScroll.
Proof. intros w. unfold exec. rewrite initSmoothScroll_eq. reflexivity. Qed.

Lemma init_themeEnv v w :
  themeEnv (exec (init v) w) = themeEnv (exec (ThemeManager.init v) w).
Proof.
  unfold init. rewrite exec_bind.
  destruct (completion (ThemeManager.init v) w); [|reflexivity].
  assert (Hk : keeps themeEnv
           (updateFooterYear;;
            initSmoothScroll;;
            let* state := document_readyState in
            match state with
            | Loading => addEventListener DocumentTarget "DOMContentLoaded" DomReadyListener
            | _ => deferredInit v
            end)).
  { apply keeps_bind; [apply updateFooterYear_keeps_theme|intros _].
    apply keeps_bind; [apply initSmoothScroll_keeps_theme|intros _].
    apply keeps_bind; [keeps_leaf|intros state].
    destruct state; first [apply deferredInit_keeps_theme | keeps_leaf]. }
  apply Hk.
Qed.

(** The theme environment after ThemeManager.init on a page with storage and
    a toggle control that has its icon. *)
Lemma ThemeManager_init_themeEnv v w st t ic :
  localStorage (themeEnv w) = Some st ->
  themeToggle (themeEnv w) = Some t ->
  icon t = Some ic ->
  exists T, T <> "" /\ getInitialTheme v w = (w, Normal T) /\
    ThemeManager.init v w =
    (with_themeEnv (fun te =>
       mkThemeEnv (Some (<["theme" := T]> st)) (matchMedia te) (colorScheme te)
         (<["data-theme" := T]> (rootAttributes te))
         (Some (mkToggle (icon (shownToggle v T t)) (text (shownToggle v T t))
                  (clickListeners t ++ [ToggleClickListener])))
         (darkModeQuery te ++ if matchMedia te then [SystemThemeListener] else [])) w,
     Normal tt).
Proof.
  intros Hst Htg Hic.
  destruct (ThemeManager_init_store v w st Hst) as (T & Hne & Hret & _).
  exists T. split; [exact Hne|]. split; [exact Hret|].
  unfold ThemeManager.init, bind at 1. rewrite Hret.
  unfold bind at 1. rewrite applyTheme_eq, Hst. cbv zeta.
  rewrite updateToggleButton_eq.
  destruct w as [[ls mm cs ra tg dq] ne re fe pe dp]. simpl in Hst, Htg.
  subst ls tg. destruct t as [ic0 tx cl]. simpl in Hic. subst ic0.
  unfold ThemeManager.watchSystemTheme, bind, window_matchMedia, gets. simpl.
  destruct mm; simpl; unfold shownToggle; destruct (String.eqb T "dark");
    unfold with_themeEnv, addEventListener, modify; simpl; rewrite ?app_nil_r; reflexivity.
Qed.

(** X7: after init on a page with storage and a complete toggle control that
    had no listener, the control carries exactly one click listener, a click
    runs toggleTheme once, and the theme it leaves applied and persisted is
    "light" if the theme was "dark" and "dark" otherwise. *)
Theorem toggle_click_switches_theme (v : Variant) (w : World)
    (st : gmap string string) (t : Toggle) :
  localStorage (themeEnv w) = Some st ->
  themeToggle (themeEnv w) = Some t ->
  is_Some (icon t) ->
  clickListeners t = [] ->
  let w1 := exec (init v) w in
  (exists t1, themeToggle (themeEnv w1) = Some t1 /\
              clickListeners t1 = [ToggleClickListener]) /\
  clickToggle v w1 = exec (toggleTheme v) w1 /\
  exists T, appliedTheme w1 = Some T /\
    appliedTheme (clickToggle v w1) = Some (flipTheme T) /\
    persistedTheme (clickToggle v w1) = Some (flipTheme T).
Proof.
  intros Hst Htg [ic Hic] Hcl w1.
  destruct (ThemeManager_init_themeEnv v w st t ic Hst Htg Hic) as (T & Hne & _ & Hinit).
  assert (Hte : themeEnv w1 = themeEnv (exec (ThemeManager.init v) w))
    by (unfold w1; apply init_themeEnv).
  unfold exec in Hte. rewrite Hinit, Hcl in Hte. simpl in Hte.
  assert (Htg1 : themeToggle (themeEnv w1) =
                 Some (mkToggle (icon (shownToggle v T t)) (text (shownToggle v T t))
                         [ToggleClickListener])) by (rewrite Hte; reflexivity).
  assert (Hclick : clickToggle v w1 = exec (toggleTheme v) w1).
  { unfold clickToggle. rewrite Htg1. reflexivity. }
  assert (Happ : appliedTheme w1 = Some T).
  { unfold appliedTheme. rewrite Hte. apply lookup_insert_eq. }
  split; [eauto|]. split; [exact Hclick|].
  exists T. split; [exact Happ|]. rewrite Hclick.
  rewrite (toggleTheme_from v w1 T Happ). fold (flipTheme T). split.
  - apply applyTheme_applied.
  - unfold persistedTheme.
    erewrite applyTheme_storage; [apply lookup_insert_eq | rewrite Hte; reflexivity].
Qed.

Lemma toggle_click_switches_theme_witness :
  clickToggle Part000 (exec (init Part000) samplePage) =
  exec (toggleTheme Part000) (exec (init Part000) samplePage) /\
  exists T, appliedTheme (exec (init Part000) samplePage) = Some T /\
    appliedTheme (clickToggle Part000 (exec (init Part000) samplePage)) = Some (flipTheme T).
Proof.
  assert (Hic : is_Some (icon (mkToggle (Some "") (Some "") []))) by (simpl; eauto).
  destruct (toggle_click_switches_theme Part000 samplePage ∅
              (mkToggle (Some "") (Some "") []) eq_refl eq_refl Hic eq_refl)
    as (_ & H2 & T & H3 & H4 & _).
  split; [exact H2|]. exists T. split; [exact H3 | exact H4].
Defined.

(** X8: when applyTheme has run on a page with storage and a toggle control
    that has its icon and its text, the control shows the sun and "Light" for
    the theme "dark" and the moon and "Dark" for any other theme, its
    listeners untouched; so after a toggleTheme the label names the theme
    the next click will apply. *)
Theorem toggle_label_names_next_theme (v : Variant) (w : World) (t : Toggle)
    (ic tx : string) :
  is_Some (localStorage (themeEnv w)) ->
  themeToggle (themeEnv w) = Some t ->
  icon t = Some ic ->
  text t = Some tx ->
  (forall T,
     themeToggle (themeEnv (exec (applyTheme v T) w)) =
     Some (if String.eqb T "dark"
           then mkToggle (Some (sunGlyph v)) (Some "Light") (clickListeners t)
           else mkToggle (Some (moonGlyph v)) (Some "Dark") (clickListeners t))) /\
  let w1 := exec (toggleTheme v) w in
  (appliedTheme w1 = Some "dark" /\
   themeToggle (themeEnv w1) =
   Some (mkToggle (Some (sunGlyph v)) (Some "Light") (clickListeners t))) \/
  (appliedTheme w1 = Some "light" /\
   themeToggle (themeEnv w1) =
   Some (mkToggle (Some (moonGlyph v)) (Some "Dark") (clickListeners t))).
Proof.
  intros [st Hst] Htg Hic Htx.
  assert (Hface : forall T,
     themeToggle (themeEnv (exec (applyTheme v T) w)) =
     Some (if String.eqb T "dark"
           then mkToggle (Some (sunGlyph v)) (Some "Light") (clickListeners t)
           else mkToggle (Some (moonGlyph v)) (Some "Dark") (clickListeners t))).
  { intros T. rewrite exec_applyTheme. unfold with_themeEnv, themedEnv. simpl.
    rewrite Hst, Htg, Hic. unfold shownToggle. rewrite Htx.
    destruct (String.eqb T "dark"); reflexivity. }
  split; [exact Hface|]. intros w1.
  assert (Hw1 : w1 = exec (applyTheme v (if strictEq (appliedTheme w) "dark"
                                          then "light" else "dark")) w).
  { unfold w1, exec. rewrite toggleTheme_eq. reflexivity. }
  rewrite Hw1. destruct (strictEq (appliedTheme w) "dark").
  - right. split; [apply applyTheme_applied | apply (Hface "light")].
  - left. split; [apply applyTheme_applied | apply (Hface "dark")].
Qed.

Lemma toggle_label_names_next_theme_witness :
  let w1 := exec (toggleTheme MainJs) samplePage in
  (appliedTheme w1 = Some "dark" /\
   themeToggle (themeEnv w1) = Some (mkToggle (Some (sunGlyph MainJs)) (Some "Light") [])) \/
  (appliedTheme w1 = Some "light" /\
   themeToggle (themeEnv w1) = Some (mkToggle (Some (moonGlyph MainJs)) (Some "Dark") [])).
Proof.
  assert (Hst : is_Some (localStorage (themeEnv samplePage))) by (simpl; eauto).
  exact (proj2 (toggle_label_names_next_theme MainJs samplePage
                  (mkToggle (Some "") (Some "") []) "" "" Hst eq_refl eq_refl eq_refl)).
Defined.

(** X9: the two files resolve the same initial theme in every browser except
    one kind: a storage without a theme and no colour scheme to read (no
    media-query API, or an OS that reports none), where main.js answers
    "dark" and part_000 "light". *)
Theorem variants_differ_only_without_signal (w : World) :
  (getInitialTheme MainJs w <> getInitialTheme Part000 w <->
   exists st, localStorage (themeEnv w) = Some st /\
              truthy (st !! "theme") = false /\
              (matchMedia (themeEnv w) = false \/ colorScheme (themeEnv w) = None)) /\
  (forall st, localStorage (themeEnv w) = Some st ->
     truthy (st !! "theme") = false ->
     matchMedia (themeEnv w) = false \/ colorScheme (themeEnv w) = None ->
     getInitialTheme MainJs w = (w, Normal "dark") /\
     getInitialTheme Part000 w = (w, Normal "light")).
Proof.
  split; [|intros st Hst Ht Hno;
           rewrite (getInitialTheme_not_stored MainJs w st Hst Ht),
                   (getInitialTheme_not_stored Part000 w st Hst Ht);
           destruct Hno as [-> | ->]; [split; reflexivity|];
           destruct (matchMedia (themeEnv w)); split; reflexivity].
  destruct (localStorage (themeEnv w)) as [st|] eqn:Hst.
  - destruct (truthy (st !! "theme")) eqn:Ht.
    + split.
      * intros Hne. exfalso. apply Hne.
        destruct (st !! "theme") as [s|] eqn:Hs; [|discriminate].
        apply truthy_Some in Ht.
        rewrite (getInitialTheme_stored MainJs w st s Hst Hs Ht).
        rewrite (getInitialTheme_stored Part000 w st s Hst Hs Ht). reflexivity.
      * intros (st' & Hst' & Ht' & _). congruence.
    + rewrite (getInitialTheme_not_stored MainJs w st Hst Ht).
      rewrite (getInitialTheme_not_stored Part000 w st Hst Ht).
      destruct (matchMedia (themeEnv w)), (colorScheme (themeEnv w)) as [[]|]; simpl;
        split; intros H; try congruence; eauto;
        try (destruct H as (st' & _ & _ & [H|H]); discriminate).
  - rewrite !getInitialTheme_no_storage by exact Hst. split; [congruence|].
    intros (st' & Hst' & _). discriminate.
Qed.

(** ** Footer year *)

Lemma updateFooterYear_eq (w : World) :
  updateFooterYear w =
  (with_pageEnv (fun p => set_yearElement
                            (refill (pretty (fullYear p)) (yearElement p)) p) w,
   Normal tt).
Proof.
  unfold updateFooterYear, bind, document_getElementById, gets, date_getFullYear.
  change (String.eqb "current-year" "current-year") with true. cbv iota.
  destruct w as [te ne re fe [rs dcl mv ye fy he cb iw ih rnd rc] dp].
  cbn [pageEnv yearElement handle].
  destruct ye; reflexivity.
Qed.

(** X10: updateFooterYear replaces whatever the year element showed by the
    decimal numeral of the current year and changes nothing else on the
    page; with no year element it changes nothing at all; run again in the
    same year it changes nothing more; and two different years never give
    the same text. *)
Theorem footer_year_written (w : World) :
  (forall old, yearElement (pageEnv w) = Some old ->
     yearElement (pageEnv (exec updateFooterYear w)) = Some (pretty (fullYear (pageEnv w)))) /\
  (yearElement (pageEnv w) = None -> exec updateFooterYear w = w) /\
  (themeEnv (exec updateFooterYear w), navEnv (exec updateFooterYear w),
   revealEnv (exec updateFooterYear w), formEnv (exec updateFooterYear w))
  = (themeEnv w, navEnv w, revealEnv w, formEnv w) /\
  exec updateFooterYear (exec updateFooterYear w) = exec updateFooterYear w /\
  (forall w', yearElement (pageEnv w) <> None -> yearElement (pageEnv w') <> None ->
     yearElement (pageEnv (exec updateFooterYear w)) =
     yearElement (pageEnv (exec updateFooterYear w')) ->
     fullYear (pageEnv w) = fullYear (pageEnv w')) /\
  pageEnv (exec updateFooterYear w) =
    set_yearElement (yearElement (pageEnv (exec updateFooterYear w))) (pageEnv w) /\
  defaultPrevented (exec updateFooterYear w) = defaultPrevented w.
Proof.
  unfold exec. rewrite !updateFooterYear_eq. cbn [fst].
  split; [|split; [|split; [|split; [|split; [|split; reflexivity]]]]].
  - intros old Hold. destruct w as [te ne re fe [rs dcl mv ye fy he cb iw ih rnd rc] dp].
    cbn in Hold. subst ye. reflexivity.
  - intros Hy. destruct w as [te ne re fe [rs dcl mv ye fy he cb iw ih rnd rc] dp].
    cbn in Hy. subst ye. reflexivity.
  - reflexivity.
  - destruct w as [te ne re fe [rs dcl mv ye fy he cb iw ih rnd rc] dp].
    destruct ye; reflexivity.
  - intros w' Hy Hy'.
    destruct w as [te ne re fe [rs dcl mv ye fy he cb iw ih rnd rc] dp].
    destruct w' as [te' ne' re' fe' [rs' dcl' mv' ye' fy' he' cb' iw' ih' rnd' rc'] dp'].
    cbn in Hy, Hy'. destruct ye; [|congruence]. destruct ye'; [|congruence].
    cbn [with_pageEnv pageEnv set_yearElement yearElement refill fullYear].
    intros H. injection H as H. exact (pretty_Z_inj _ _ H).
Qed.

(** ** Links that are not in-page links *)

(** X11: initSmoothScroll leaves an anchor whose href does not start with a
    hash without any listener; a click on it is not cancelled, makes no
    scroll call, and the browser follows the link. *)
Theorem plain_link_is_left_alone (v : Variant) (w : World) (i : nat) (a : Anchor) :
  anchorsUnwired w ->
  anchors (navEnv w) !! i = Some a ->
  startsWithHash (href a) = false ->
  let w1 := exec initSmoothScroll w in
  anchors (navEnv w1) !! i = Some (mkAnchor (href a) []) /\
  clickAnchor v i w1 =
  with_navEnv (fun n => set_navigations (navigations n ++ [href a]) n)
    (with_defaultPrevented false w1) /\
  defaultPrevented (clickAnchor v i w1) = false /\
  scrollCalls (navEnv (clickAnchor v i w1)) = scrollCalls (navEnv w).
Proof.
  intros Hun Ha Hh w1.
  assert (Hw1 : w1 = with_navEnv (fun n => set_anchors (withSmoothScroll <$> anchors n) n) w)
    by (unfold w1, exec; rewrite initSmoothScroll_eq; reflexivity).
  assert (Ha1 : anchors (navEnv w1) !! i = Some (mkAnchor (href a) [])).
  { rewrite Hw1. simpl. rewrite list_lookup_fmap, Ha. simpl.
    unfold withSmoothScroll. rewrite Hh.
    unfold anchorsUnwired in Hun. rewrite Forall_lookup in Hun.
    specialize (Hun i a Ha). destruct a as [h ls]. simpl in *. subst ls. reflexivity. }
  assert (Hc : clickAnchor v i w1 =
               with_navEnv (fun n => set_navigations (navigations n ++ [href a]) n)
                 (with_defaultPrevented false w1)).
  { unfold clickAnchor. rewrite Ha1. reflexivity. }
  split; [exact Ha1|]. split; [exact Hc|]. rewrite Hc, Hw1. split; reflexivity.
Qed.

Lemma plain_link_is_left_alone_witness :
  clickAnchor MainJs 3 (exec initSmoothScroll samplePage) =
  with_navEnv (fun n => set_navigations (navigations n ++ ["https://example.org/"]) n)
    (with_defaultPrevented false (exec initSmoothScroll samplePage)).
Proof.
  assert (Hun : anchorsUnwired samplePage) by (repeat constructor).
  exact (proj1 (proj2 (plain_link_is_left_alone MainJs samplePage 3
                         (mkAnchor "https://example.org/" []) Hun eq_refl eq_refl))).
Defined.

(** ** What the observer watches *)

Lemma positions_elem {A} (p : A -> bool) (start k : nat) (l : list A) :
  k ∈ positions p start l ->
  exists j x, k = start + j /\ l !! j = Some x /\ p x = true.
Proof.
  revert start. induction l as [|y l IH]; intros start Hk; simpl in Hk.
  - apply elem_of_nil in Hk. destruct Hk.
  - destruct (p y) eqn:Hp.
    + apply elem_of_cons in Hk. destruct Hk as [->|Hk].
      * exists 0, y. split; [lia|]. split; [reflexivity|exact Hp].
      * destruct (IH _ Hk) as (j & x & -> & Hj & Hx).
        exists (S j), x. split; [lia|]. split; assumption.
    + destruct (IH _ Hk) as (j & x & -> & Hj & Hx).
      exists (S j), x. split; [lia|]. split; assumption.
Qed.

Lemma forEach_invariant {A} (Q : World -> Prop) (l : list A) (f : A -> JS unit) :
  (forall x w, x ∈ l -> returns (f x) w) ->
  (forall x w, x ∈ l -> Q w -> Q (exec (f x) w)) ->
  forall w, Q w -> Q (exec (forEach l f) w).
Proof.
  induction l as [|x l IH]; intros Hret Hstep w HQ; [exact HQ|].
  rewrite (exec_forEach_cons x l f w) by (apply Hret; left).
  apply IH.
  - intros y w' Hy. apply Hret. right. exact Hy.
  - intros y w' Hy. apply Hstep. right. exact Hy.
  - apply Hstep; [left | exact HQ].
Qed.

Lemma forEachIndexed_invariant {A} (Q : World -> Prop) (l : list A)
    (f : A -> nat -> JS unit) :
  (forall x i w, x ∈ l -> returns (f x i) w) ->
  (forall x i w, x ∈ l -> Q w -> Q (exec (f x i) w)) ->
  forall n w, Q w -> Q (exec (forEachIndexed n l f) w).
Proof.
  induction l as [|x l IH]; intros Hret Hstep n w HQ; [exact HQ|].
  rewrite (exec_forEachIndexed_cons x l f n w) by (apply Hret; left).
  apply IH.
  - intros y i w' Hy. apply Hret. right. exact Hy.
  - intros y i w' Hy. apply Hstep. right. exact Hy.
  - apply Hstep; [left | exact HQ].
Qed.

(** Elements selected by a class in a later world carried it in [w0]. *)
Lemma selected_is_candidate (w0 w : World) (c : string) (p : Element -> bool) (r : Ref) :
  classList <$> nodes (revealEnv w) = classList <$> nodes (revealEnv w0) ->
  (forall e e', classList e = classList e' -> p e = true -> isCandidate e' = true) ->
  r ∈ NodeRef <$> positions p 0 (nodes (revealEnv w)) ->
  exists n e, r = NodeRef n /\ nodes (revealEnv w0) !! n = Some e /\ isCandidate e = true.
Proof.
  intros Hcl Hp Hr. apply list_elem_of_fmap in Hr. destruct Hr as (k & -> & Hk).
  apply positions_elem in Hk. destruct Hk as (j & x & -> & Hj & Hx).
  apply (f_equal (fun l => l !! j)) in Hcl. rewrite !list_lookup_fmap, Hj in Hcl.
  destruct (nodes (revealEnv w0) !! j) as [e|] eqn:He; [|discriminate].
  simpl in Hcl. injection Hcl as Hcl.
  exists j, e. split; [reflexivity|]. split; [exact He|]. exact (Hp x e Hcl Hx).
Qed.

Lemma observe_onlyCandidates (w0 w : World) (x : Ref) :
  (exists n e, x = NodeRef n /\ nodes (revealEnv w0) !! n = Some e /\ isCandidate e = true) ->
  onlyCandidates w0 w -> onlyCandidates w0 (exec (observe x) w).
Proof.
  intros Hx (Hc & Hnd & Hall & Hcl).
  destruct Hc as [l Hl]. unfold onlyCandidates, constructed, observedTargets in *.
  unfold exec, observe, modify. simpl. rewrite Hl in *. simpl in *.
  split; [eauto|]. case_bool_decide.
  - split; [exact Hnd|]. split; [exact Hall | exact Hcl].
  - split; [|split; [|exact Hcl]].
    + apply NoDup_app. split; [exact Hnd|]. split; [|apply NoDup_singleton].
      intros y Hy Hy'. apply list_elem_of_singleton in Hy'. subst y. contradiction.
    + intros r Hr. apply elem_of_app in Hr. destruct Hr as [Hr|Hr]; [auto|].
      apply list_elem_of_singleton in Hr. subst r. exact Hx.
Qed.

Lemma styles_onlyCandidates (w0 w : World) (m : JS unit) :
  keeps (fun w => observed (revealEnv w)) m ->
  keeps (fun w => classList <$> nodes (revealEnv w)) m ->
  onlyCandidates w0 w -> onlyCandidates w0 (exec m w).
Proof.
  intros Ho Hc. unfold onlyCandidates, constructed, observedTargets.
  rewrite (Ho w), (Hc w). auto.
Qed.

Lemma styled_observe_onlyCandidates (w0 w : World) (styles : JS unit) (x : Ref) :
  always styles ->
  keeps (fun w => observed (revealEnv w)) styles ->
  keeps (fun w => classList <$> nodes (revealEnv w)) styles ->
  (exists n e, x = NodeRef n /\ nodes (revealEnv w0) !! n = Some e /\ isCandidate e = true) ->
  onlyCandidates w0 w -> onlyCandidates w0 (exec (styles;; observe x) w).
Proof.
  intros Hal Ho Hc Hx HQ. rewrite (exec_seq styles (observe x) w (Hal w)).
  apply observe_onlyCandidates; [exact Hx|].
  apply styles_onlyCandidates; assumption.
Qed.

Lemma class_makes_candidate (c : string) :
  c = "project-card" \/ c = "skill-item" \/ c = "contact-item" ->
  forall e e', classList e = classList e' -> hasClass c e = true -> isCandidate e' = true.
Proof.
  intros Hc e e' Hcl He. unfold hasClass in He. rewrite Hcl in He.
  unfold isCandidate, hasClass.
  destruct Hc as [-> | [-> | ->]]; rewrite He; rewrite ?orb_true_r; reflexivity.
Qed.

Lemma staggered_loop_onlyCandidates (w0 w : World) (c : string) (step : float) :
  c = "project-card" \/ c = "skill-item" \/ c = "contact-item" ->
  onlyCandidates w0 w ->
  onlyCandidates w0
    (exec (forEachIndexed 0 (NodeRef <$> positions (hasClass c) 0 (nodes (revealEnv w)))
             (fun card index =>
                set_style_opacity card "0";;
                set_style_animationDelay card (number_of_nat index * step)%float;;
                observe card)) w).
Proof.
  intros Hc HQ.
  assert (Hcl := proj2 (proj2 (proj2 HQ))).
  apply forEachIndexed_invariant; [| |exact HQ].
  - intros x i w' _. repeat (apply always_bind; [|intros ?]); apply always_modify.
  - intros x i w' Hx HQ'.
    assert (HS := selected_is_candidate w0 w c _ x Hcl (class_makes_candidate c Hc) Hx).
    rewrite (exec_seq _ _ w') by apply always_modify.
    apply styled_observe_onlyCandidates;
      first [ apply always_modify | apply delay_keeps_observed
            | apply delay_keeps_classLists | exact HS | idtac ].
    apply styles_onlyCandidates;
      first [ apply style_keeps_observed | apply opacity_keeps_classLists | exact HQ' ].
Qed.

(** X12: once initScrollAnimations has run in a browser with
    IntersectionObserver, the observer watches exactly the elements that
    carry the class project-card, skill-item or contact-item, each of them
    once, whatever observer state there was before. *)
Theorem observer_watches_exactly_candidates (v : Variant) (w : World) :
  intersectionObserver (revealEnv w) = true ->
  let w1 := exec (initScrollAnimations v) w in
  NoDup (observedTargets w1) /\
  forall r, r ∈ observedTargets w1 <->
    exists n e, r = NodeRef n /\ nodes (revealEnv w) !! n = Some e /\ isCandidate e = true.
Proof.
  intros Hio w1.
  assert (HQ : onlyCandidates w w1).
  { unfold w1, initScrollAnimations.
    rewrite exec_seq by (exists tt; unfold completion;
                         rewrite (new_IntersectionObserver_eq w Hio); reflexivity).
    unfold exec at 2. rewrite (new_IntersectionObserver_eq w Hio). cbn [fst].
    set (w0 := with_revealEnv (set_observed (Some [])) w).
    assert (H0 : onlyCandidates w w0).
    { unfold onlyCandidates, constructed, observedTargets. simpl.
      split; [eauto|]. split; [constructor|]. split; [|reflexivity].
      intros r Hr. apply elem_of_nil in Hr. destruct Hr. }
    clearbody w0. destruct v.
    - unfold document_querySelectorAll. rewrite exec_bind_gets.
      change (String.eqb ".project-card" hashAnchorSelector) with false. cbv iota.
      change (String.eqb ".project-card" ".project-card") with true. cbv iota.
      assert (H1 := staggered_loop_onlyCandidates w w0 "project-card" 0.1%float
                      (or_introl eq_refl) H0).
      match goal with |- context [forEachIndexed 0 ?l ?f] =>
        rewrite (exec_seq (forEachIndexed 0 l f)) by
          (apply always_forEachIndexed; intros ? ?;
           repeat (apply always_bind; [|intros ?]); apply always_modify)
      end.
      match type of H1 with onlyCandidates _ ?x => set (w1' := x) in * end.
      clearbody w1'.
      rewrite exec_bind_gets.
      change (String.eqb ".skill-item" hashAnchorSelector) with false. cbv iota.
      change (String.eqb ".skill-item" ".project-card") with false. cbv iota.
      change (String.eqb ".skill-item" ".skill-item") with true. cbv iota.
      assert (H2 := staggered_loop_onlyCandidates w w1' "skill-item" 0.15%float
                      (or_intror (or_introl eq_refl)) H1).
      match goal with |- context [forEachIndexed 0 ?l ?f] =>
        rewrite (exec_seq (forEachIndexed 0 l f)) by
          (apply always_forEachIndexed; intros ? ?;
           repeat (apply always_bind; [|intros ?]); apply always_modify)
      end.
      match type of H2 with onlyCandidates _ ?x => set (w2' := x) in * end.
      clearbody w2'.
      rewrite exec_bind_gets.
      change (String.eqb ".contact-item" hashAnchorSelector) with false. cbv iota.
      change (String.eqb ".contact-item" ".project-card") with false. cbv iota.
      change (String.eqb ".contact-item" ".skill-item") with false. cbv iota.
      change (String.eqb ".contact-item" ".contact-item") with true. cbv iota.
      assert (Hcl := proj2 (proj2 (proj2 H2))).
      apply forEach_invariant; [| |exact H2].
      + intros x w' _. apply always_bind; [|intros ?]; apply always_modify.
      + intros x w' Hx HQ'.
        assert (HS := selected_is_candidate w w2' "contact-item" _ x Hcl
                        (class_makes_candidate "contact-item"
                           (or_intror (or_intror eq_refl))) Hx).
        apply styled_observe_onlyCandidates;
          first [ apply always_modify | apply style_keeps_observed
                | apply opacity_keeps_classLists | exact HS | exact HQ' ].
    - unfold document_querySelectorAll. rewrite exec_bind_gets.
      change (String.eqb ".project-card, .skill-item, .contact-item" hashAnchorSelector)
        with false. cbv iota.
      change (String.eqb ".project-card, .skill-item, .contact-item" ".project-card")
        with false. cbv iota.
      change (String.eqb ".project-card, .skill-item, .contact-item" ".skill-item")
        with false. cbv iota.
      change (String.eqb ".project-card, .skill-item, .contact-item" ".contact-item")
        with false. cbv iota.
      change (String.eqb ".project-card, .skill-item, .contact-item"
                ".project-card, .skill-item, .contact-item") with true. cbv iota.
      assert (Hcl := proj2 (proj2 (proj2 H0))).
      apply forEach_invariant; [| |exact H0].
      + intros x w' _. apply always_modify.
      + intros x w' Hx HQ'. apply observe_onlyCandidates; [|exact HQ'].
        refine (selected_is_candidate w w0 "" _ x Hcl _ Hx).
        intros e e' Hee He. unfold isCandidate, hasClass in *. rewrite <- Hee. exact He. }
  destruct HQ as (_ & Hnd & Hall & _).
  split; [exact Hnd|]. intros r. split; [apply Hall|].
  intros (n & e & -> & Hn & He).
  exact (initScrollAnimations_registers v w n e Hio Hn He).
Qed.

Lemma observer_watches_exactly_candidates_witness :
  NoDup (observedTargets (exec (initScrollAnimations MainJs) samplePage)) /\
  forall r, r ∈ observedTargets (exec (initScrollAnimations MainJs) samplePage) <->
    exists n e, r = NodeRef n /\ nodes (revealEnv samplePage) !! n = Some e /\
                isCandidate e = true.
Proof. exact (observer_watches_exactly_candidates MainJs samplePage eq_refl). Defined.

(** ** What initScrollAnimations does to the elements *)



















(** ** Class lists over the life of the page *)

Lemma keeps_view_of {X Y A} (view : World -> X) (f : X -> Y) (m : JS A) :
  keeps view m -> keeps (fun w => f (view w)) m.
Proof. intros H w. rewrite (H w). reflexivity. Qed.

Lemma classesSince_refl (w : World) : classesSince w w.
Proof. apply Forall_Forall2_diag, Forall_true. intros x. left. reflexivity. Qed.

Lemma classesSince_keeps {A} (m : JS A) (w0 w : World) :
  keeps (fun w => classList <$> nodes (revealEnv w)) m ->
  classesSince w0 w -> classesSince w0 (exec m w).
Proof. intros Hk H. unfold classesSince. rewrite (Hk w). exact H. Qed.

Lemma classesSince_frame {A} (m : JS A) (w0 w : World) :
  keeps revealEnv m -> classesSince w0 w -> classesSince w0 (exec m w).
Proof. intros Hk H. unfold classesSince. rewrite (Hk w). exact H. Qed.

Lemma classesSince_revealEntry (e : Entry) (w0 w : World) :
  classesSince w0 w -> classesSince w0 (revealEntry e w).
Proof.
  intros H. unfold revealEntry. destruct (isIntersecting e); [|exact H].
  unfold classesSince. simpl. destruct (target e); try exact H.
  rewrite (list_fmap_alter classList _
             (fun cl => if bool_decide ("animate-fade-in" ∈ cl) then cl
                        else cl ++ ["animate-fade-in"])).
  - apply Forall2_alter_r; [exact H|]. intros x y _ _ Hxy.
    case_bool_decide as Hin; [exact Hxy|].
    destruct Hxy as [->|[_ ->]].
    + right. split; [exact Hin|reflexivity].
    + exfalso. apply Hin. apply elem_of_app. right. left.
  - apply Forall_true. intros x. reflexivity.
Qed.

Lemma classesSince_revealCallback (es : list Entry) (w0 w : World) :
  classesSince w0 w -> classesSince w0 (exec (revealCallback es) w).
Proof.
  revert w. induction es as [|e es IH]; intros w H; [exact H|].
  unfold exec. rewrite revealCallback_cons. apply IH, classesSince_revealEntry, H.
Qed.

Lemma deferredInit_keeps_classLists v :
  keeps (fun w => classList <$> nodes (revealEnv w)) (deferredInit v).
Proof.
  unfold deferredInit.
  apply keeps_bind; [apply initScrollAnimations_keeps_classLists|intros _].
  unfold initFormHandling, initParallaxEffect, addParticleEffect. keeps_tac.
Qed.

Lemma keeps_revealEnv_theme_listeners v :
  (forall matches, keeps revealEnv (systemThemeListener v matches)) /\
  keeps revealEnv (toggleTheme v).
Proof.
  assert (Ha : forall theme, keeps revealEnv (applyTheme v theme)).
  { intros theme w. rewrite exec_applyTheme. reflexivity. }
  split.
  - intros matches w. unfold exec. rewrite systemThemeListener_eq.
    destruct (localStorage (themeEnv w)) as [st|]; [|reflexivity].
    destruct (truthy (st !! "theme")); [reflexivity|]. apply Ha.
  - intros w. unfold exec. rewrite toggleTheme_eq. apply Ha.
Qed.

Lemma classesSince_runListener v l e w0 w :
  classesSince w0 w -> classesSince w0 (exec (runListener v l e) w).
Proof.
  intros H. destruct l, e; simpl; try exact H;
    first [ apply classesSince_keeps; [apply deferredInit_keeps_classLists|exact H]
          | apply classesSince_frame; [|exact H];
            first [ apply (proj1 (keeps_revealEnv_theme_listeners v))
                  | apply (proj2 (keeps_revealEnv_theme_listeners v))
                  | solve [unfold anchorClickListener; keeps_tac]
                  | solve [unfold submitListener; keeps_tac]
                  | solve [unfold mouseMoveListener; keeps_tac] ] ].
Qed.

Lemma classesSince_dispatch v ls e w0 w :
  classesSince w0 w -> classesSince w0 (dispatch v ls e w).
Proof.
  revert w. induction ls as [|l ls IH]; intros w H; simpl; [exact H|].
  apply IH, classesSince_runListener, H.
Qed.

Lemma classesSince_step v ev w0 w : classesSince w0 w -> classesSince w0 (step v ev w).
Proof.
  intros H. destruct ev; simpl.
  - unfold osThemeChange. apply classesSince_dispatch. exact H.
  - unfold clickToggle. destruct (themeToggle _); [apply classesSince_dispatch|]; exact H.
  - unfold clickAnchor. destruct (anchors _ !! i) as [a|]; [|exact H].
    match goal with |- classesSince _ (if defaultPrevented ?x then _ else _) =>
      assert (Hx : classesSince w0 x) by (apply classesSince_dispatch; exact H);
      destruct (defaultPrevented x); exact Hx
    end.
  - unfold submitForm. destruct (contactForm _) as [c|]; [|exact H].
    match goal with |- classesSince _ (if defaultPrevented ?x then _ else _) =>
      assert (Hx : classesSince w0 x) by (apply classesSince_dispatch; exact H);
      destruct (defaultPrevented x); exact Hx
    end.
  - unfold domReady. apply classesSince_dispatch. exact H.
  - unfold intersect. destruct (observed _); [|exact H].
    apply classesSince_revealCallback, H.
  - apply classesSince_dispatch, H.
Qed.

Lemma classesSince_run v evs w0 w : classesSince w0 w -> classesSince w0 (run v evs w).
Proof.
  revert w. induction evs as [|ev evs IH]; intros w H; simpl; [exact H|].
  apply IH, classesSince_step, H.
Qed.

Lemma init_keeps_classLists v :
  keeps (fun w => classList <$> nodes (revealEnv w)) (init v).
Proof.
  unfold init. apply keeps_bind.
  - apply (keeps_view_of revealEnv (fun r => classList <$> nodes r)). unfold ThemeManager.init.
    apply keeps_bind; [unfold ThemeManager.getInitialTheme; keeps_tac|intros theme].
    apply keeps_bind; [intros w; rewrite exec_applyTheme; reflexivity|intros _].
    unfold ThemeManager.watchSystemTheme. keeps_tac.
  - intros _.
    apply keeps_bind; [unfold updateFooterYear; keeps_tac|intros _].
    apply keeps_bind; [unfold initSmoothScroll; keeps_tac|intros _].
    apply keeps_bind; [apply keeps_gets|intros state].
    destruct state; first [apply deferredInit_keeps_classLists | solve [keeps_leaf]].
Qed.

(** X15: the class lists of the elements that are in the document when the
    script starts (the particles that main.js creates and appends to the
    hero are not among them).  Over the whole life of the page (init, then
    any sequence of OS theme changes, clicks, submissions, DOMContentLoaded,
    observer batches and mouse moves) the script drops none of these
    elements, removes or reorders no class of theirs, and the only class it
    ever gives them is animate-fade-in, appended at most once to a list that
    did not hold it. *)
Theorem classes_only_gain_the_marker (v : Variant) (w0 : World) (evs : list PageEvent) :
  let w := run v evs (exec (init v) w0) in
  length (nodes (revealEnv w)) = length (nodes (revealEnv w0)) /\
  forall n e, nodes (revealEnv w0) !! n = Some e ->
    exists e', nodes (revealEnv w) !! n = Some e' /\
      (classList e' = classList e \/
       (("animate-fade-in" ∉ classList e) /\
        classList e' = classList e ++ ["animate-fade-in"])).
Proof.
  intros w.
  assert (H : classesSince w0 w).
  { apply classesSince_run, classesSince_keeps; [apply init_keeps_classLists|].
    apply classesSince_refl. }
  unfold classesSince in H. split.
  - apply Forall2_length in H. rewrite !length_fmap in H. symmetry. exact H.
  - intros n e Hn.
    destruct (Forall2_lookup_l _ _ _ n (classList e) H) as (c' & Hc' & Hm).
    { rewrite list_lookup_fmap, Hn. reflexivity. }
    rewrite list_lookup_fmap in Hc'.
    destruct (nodes (revealEnv w) !! n) as [e'|]; [|discriminate].
    injection Hc' as <-. exists e'. split; [reflexivity|exact Hm].
Qed.


(** ** Particles *)

Lemma particles_length rnd c n : length (particles rnd c n) = n.
Proof. revert c. induction n as [|n IH]; intros c; simpl; [reflexivity|]. rewrite IH. reflexivity. Qed.

Lemma particles_lookup rnd c n i :
  i < n -> particles rnd c n !! i = Some (particleAt rnd (c + 7 * i)).
Proof.
  revert c i. induction n as [|n IH]; intros c i Hi; [lia|].
  destruct i as [|i].
  - rewrite Nat.mul_0_r, Nat.add_0_r. reflexivity.
  - change (particles rnd c (S n) !! S i) with (particles rnd (7 + c) n !! i).
    rewrite (IH (7 + c) i) by lia. do 2 f_equal. lia.
Qed.

Lemma particle_loop (n : nat) (w : World) (l : list Particle) :
  hero (pageEnv w) = Some l ->
  forLoop n
    (let* r1 := Math_random in
     let* r2 := Math_random in
     let* r3 := Math_random in
     let* r4 := Math_random in
     let* r5 := Math_random in
     let* r6 := Math_random in
     let* r7 := Math_random in
     let particle :=
       mkParticle (r1 * 4 + 2) (r2 * 4 + 2) (r3 * 0.3 + 0.1) (r4 * 100) (r5 * 100)
                  (r6 * 10 + 5) (r7 * 5) in
     appendChild HeroRef particle)%float w =
  (with_pageEnv (fun p =>
     set_hero (Some (l ++ particles (random p) (randomCalls p) n))
       (set_randomCalls (7 * n + randomCalls p) p)) w, Normal tt).
Proof.
  revert w l. induction n as [|n IH]; intros w l Hl.
  - cbn [forLoop particles]. rewrite app_nil_r. unfold ret. f_equal.
    destruct w as [te ne re fe [rs dl mm ye fy he cb iw ih rn rc] dp].
    cbn in Hl |- *. rewrite Hl. reflexivity.
  - cbn [forLoop]. unfold bind at 1.
    match goal with |- context [match ?body w with _ => _ end] =>
      assert (Hb : body w =
                   (with_pageEnv (fun p =>
                      set_hero (Some (l ++ [particleAt (random p) (randomCalls p)]))
                        (set_randomCalls (7 + randomCalls p) p)) w, Normal tt))
    end.
    { destruct w as [te ne re fe [rs dl mm ye fy he cb iw ih rn rc] dp].
      cbn in Hl. subst he. reflexivity. }
    rewrite Hb. rewrite (IH _ (l ++ [particleAt (random (pageEnv w)) (randomCalls (pageEnv w))]))
      by reflexivity.
    f_equal. destruct w as [te ne re fe [rs dl mm ye fy he cb iw ih rn rc] dp].
    unfold with_pageEnv, set_hero, set_randomCalls.
    cbn [pageEnv themeEnv navEnv revealEnv formEnv defaultPrevented readyState domContentLoaded
         mousemove yearElement fullYear hero codeBlock innerWidth innerHeight random
         randomCalls particles].
    rewrite <- app_assoc.
    replace (7 * S n + rc) with (7 * n + (7 + rc)) by lia. reflexivity.
Qed.

(** X16: addParticleEffect.  Without a '.hero' element nothing happens, and
    no random number is drawn.  With one, exactly fifteen particles are
    appended after the children the hero already has, 105 numbers are drawn
    from Math.random, the i-th particle is built from the seven draws
    numbered 7i to 7i+6 in the order width, height, opacity, left, top,
    duration, delay, and nothing else on the page changes. *)
Theorem addParticleEffect_appends_fifteen (w : World) :
  (hero (pageEnv w) = None -> addParticleEffect w = (w, Normal tt)) /\
  (forall l, hero (pageEnv w) = Some l ->
     let rnd := random (pageEnv w) in
     let c := randomCalls (pageEnv w) in
     exists added,
       addParticleEffect w =
       (with_pageEnv (fun p => set_hero (Some (l ++ added)) (set_randomCalls (c + 105) p)) w,
        Normal tt) /\
       length added = 15 /\
       forall i, i < 15 -> added !! i = Some (particleAt rnd (c + 7 * i))).
Proof.
  split.
  - intros Hh. unfold addParticleEffect, bind, document_querySelector.
    change (String.eqb ".hero" ".theme-toggle") with false. cbv iota.
    change (String.eqb ".hero" ".contact-form") with false. cbv iota.
    change (String.eqb ".hero" ".hero") with true. cbv iota.
    rewrite Hh. reflexivity.
  - intros l Hh rnd c. exists (particles rnd c 15).
    split; [|split; [apply particles_length | intros i Hi; apply particles_lookup, Hi]].
    replace (c + 105) with (7 * 15 + randomCalls (pageEnv w)) by (unfold c; lia).
    unfold addParticleEffect. unfold bind at 1. unfold document_querySelector.
    change (String.eqb ".hero" ".theme-toggle") with false. cbv iota.
    change (String.eqb ".hero" ".contact-form") with false. cbv iota.
    change (String.eqb ".hero" ".hero") with true. cbv iota.
    rewrite Hh. exact (particle_loop 15 w l Hh).
Qed.

Lemma addParticleEffect_appends_fifteen_witness :
  exists added,
    addParticleEffect samplePage =
    (with_pageEnv (fun p => set_hero (Some ([] ++ added)) (set_randomCalls (0 + 105) p))
       samplePage, Normal tt) /\
    length added = 15 /\
    forall i, i < 15 -> added !! i = Some (particleAt (fun _ => 0.5%float) (0 + 7 * i)).
Proof. exact (proj2 (addParticleEffect_appends_fifteen samplePage) [] eq_refl). Defined.

(** ** Parallax *)





Lemma initParallaxEffect_eq (w : World) :
  initParallaxEffect w =
  (match hero (pageEnv w) with
   | Some _ => with_pageEnv (fun p => set_mousemove (mousemove p ++ [MouseMoveListener]) p) w
   | None => w
   end, Normal tt).
Proof.
  unfold initParallaxEffect, bind, document_querySelector.
  change (String.eqb ".hero" ".theme-toggle") with false. cbv iota.
  change (String.eqb ".hero" ".contact-form") with false. cbv iota.
  change (String.eqb ".hero" ".hero") with true. cbv iota.
  destruct (hero (pageEnv w)); reflexivity.
Qed.

Lemma keeps_pageEnv_ThemeManager_init v : keeps pageEnv (ThemeManager.init v).
Proof.
  unfold ThemeManager.init.
  apply keeps_bind; [unfold ThemeManager.getInitialTheme; keeps_tac|intros theme].
  apply keeps_bind; [intros w; rewrite exec_applyTheme; reflexivity|intros _].
  unfold ThemeManager.watchSystemTheme. keeps_tac.
Qed.







(** ** Deferred initialisation *)

Section Indifferent.
Context (f : World -> World).

Lemma indifferent_ret {A} (a : A) : indifferent f (ret a).
Proof. intros w. reflexivity. Qed.

Lemma indifferent_bind {A B} (m : JS A) (k : A -> JS B) :
  indifferent f m -> (forall a, indifferent f (k a)) -> indifferent f (bind m k).
Proof.
  intros Hm Hk w. unfold bind. rewrite (Hm w).
  destruct (m w) as [w' [a|e]]; cbn [fst snd]; [apply Hk|reflexivity].
Qed.

Lemma indifferent_forEach {A} (l : list A) (g : A -> JS unit) :
  (forall x, indifferent f (g x)) -> indifferent f (forEach l g).
Proof.
  intros Hg. induction l as [|x l IH]; cbn [forEach]; [apply indifferent_ret|].
  apply indifferent_bind; auto.
Qed.

Lemma indifferent_forEachIndexed {A} (l : list A) (g : A -> nat -> JS unit) n :
  (forall x i, indifferent f (g x i)) -> indifferent f (forEachIndexed n l g).
Proof.
  intros Hg. revert n. induction l as [|x l IH]; intros n; cbn [forEachIndexed];
    [apply indifferent_ret|].
  apply indifferent_bind; auto.
Qed.

Lemma indifferent_forLoop n (body : JS unit) :
  indifferent f body -> indifferent f (forLoop n body).
Proof.
  intros Hb. induction n as [|n IH]; cbn [forLoop]; [apply indifferent_ret|].
  apply indifferent_bind; auto.
Qed.
End Indifferent.

Ltac indifferent_leaf :=
  let w := fresh "w" in
  intros w;
  destruct w as [[ls mm cs ra tg dq] [an so sc nv] [nd io ob ca] [cf al rq]
                 [rs0 dl0 mv ye fy he cb iw ih rn rc] dp];
  unfold retime, parseRest,
    localStorage_getItem, localStorage_setItem, documentElement_setAttribute,
    documentElement_getAttribute, window_matchMedia, matchMedia_matches,
    document_querySelector, element_querySelector, document_getElementById,
    set_textContent, addEventListener, document_querySelectorAll, date_getFullYear,
    new_IntersectionObserver, observe, set_style_opacity, set_style_animationDelay,
    Math_random, appendChild, modify, gets, ret;
  cbn [fst snd themeEnv navEnv revealEnv formEnv pageEnv defaultPrevented
       with_themeEnv with_navEnv with_revealEnv with_formEnv with_pageEnv
       set_readyState set_domContentLoaded set_nodes set_contactForm set_hero set_codeBlock
       String.eqb Ascii.eqb Bool.eqb
       localStorage matchMedia colorScheme rootAttributes themeToggle darkModeQuery
       anchors selectorOracle scrollCalls navigations
       nodes intersectionObserver observed classAdds
       contactForm alerts requests
       readyState domContentLoaded mousemove yearElement fullYear hero codeBlock
       innerWidth innerHeight random randomCalls];
  repeat split_goal_match; reflexivity.

Ltac indifferent_tac :=
  repeat first
    [ apply indifferent_bind; [|intros ?]
    | apply indifferent_forEach; intros ?
    | apply indifferent_forEachIndexed; intros ? ?
    | apply indifferent_forLoop
    | apply indifferent_ret
    | match goal with |- indifferent _ (match ?x with _ => _ end) => destruct x end
    | match goal with |- indifferent _ (if ?x then _ else _) => destruct x end
    | solve [indifferent_leaf] ].

Lemma indifferent_ThemeManager_init rs dl v : indifferent (retime rs dl) (ThemeManager.init v).
Proof.
  unfold ThemeManager.init, ThemeManager.getInitialTheme, ThemeManager.applyTheme,
    ThemeManager.updateToggleButton, ThemeManager.watchSystemTheme.
  indifferent_tac.
Qed.

Lemma indifferent_updateFooterYear rs dl : indifferent (retime rs dl) updateFooterYear.
Proof. unfold updateFooterYear. indifferent_tac. Qed.

Lemma indifferent_initSmoothScroll rs dl : indifferent (retime rs dl) initSmoothScroll.
Proof. unfold initSmoothScroll. indifferent_tac. Qed.

Lemma indifferent_parseRest_ThemeManager_init p v :
  indifferent (parseRest p) (ThemeManager.init v).
Proof.
  unfold ThemeManager.init, ThemeManager.getInitialTheme, ThemeManager.applyTheme,
    ThemeManager.updateToggleButton, ThemeManager.watchSystemTheme.
  indifferent_tac.
Qed.

Lemma indifferent_parseRest_updateFooterYear p : indifferent (parseRest p) updateFooterYear.
Proof. unfold updateFooterYear. indifferent_tac. Qed.

Lemma indifferent_parseRest_initSmoothScroll p : indifferent (parseRest p) initSmoothScroll.
Proof. intros w. rewrite !initSmoothScroll_eq. reflexivity. Qed.

Lemma indifferent_deferredInit rs dl v : indifferent (retime rs dl) (deferredInit v).
Proof.
  unfold deferredInit, initScrollAnimations, initFormHandling, initParallaxEffect,
    addParticleEffect.
  destruct v; indifferent_tac.
Qed.

Lemma indifferent_exec {A} (f : World -> World) (m : JS A) (w : World) :
  indifferent f m -> exec m (f w) = f (exec m w).
Proof. intros H. unfold exec. rewrite (H w). reflexivity. Qed.

Lemma init_eq v w :
  init v w =
  match ThemeManager.init v w with
  | (w1, Throw e) => (w1, Throw e)
  | (w1, Normal _) =>
      let w3 := exec initSmoothScroll (exec updateFooterYear w1) in
      match readyState (pageEnv w3) with
      | Loading => addEventListener DocumentTarget "DOMContentLoaded" DomReadyListener w3
      | _ => deferredInit v w3
      end
  end.
Proof.
  unfold init. unfold bind at 1.
  destruct (ThemeManager.init v w) as [w1 [[]|e]]; [|reflexivity].
  cbv zeta. unfold exec.
  destruct (always_updateFooterYear w1) as [[] H2]. unfold completion in H2.
  unfold bind at 1. destruct (updateFooterYear w1) as [w2 c2]. cbn [fst snd] in *. subst c2.
  destruct (always_initSmoothScroll w2) as [[] H3]. unfold completion in H3.
  unfold bind at 1. destruct (initSmoothScroll w2) as [w3 c3]. cbn [fst snd] in *. subst c3.
  unfold bind, document_readyState, gets.
  destruct (readyState (pageEnv w3)); reflexivity.
Qed.

Lemma keeps_timing_before_deferredInit v :
  keeps (fun w => (readyState (pageEnv w), domContentLoaded (pageEnv w)))
        (ThemeManager.init v) /\
  keeps (fun w => (readyState (pageEnv w), domContentLoaded (pageEnv w))) updateFooterYear /\
  keeps (fun w => (readyState (pageEnv w), domContentLoaded (pageEnv w))) initSmoothScroll.
Proof.
  split; [|split].
  - apply (keeps_view_of pageEnv (fun p => (readyState p, domContentLoaded p))),
      keeps_pageEnv_ThemeManager_init.
  - unfold updateFooterYear. keeps_tac.
  - unfold initSmoothScroll. keeps_tac.
Qed.

Lemma deferredInit_keeps_early_parts v :
  keeps (fun w => (themeEnv w, navEnv w, yearElement (pageEnv w))) (deferredInit v).
Proof.
  unfold deferredInit.
  apply keeps_bind; [unfold initScrollAnimations; destruct v; keeps_tac|intros _].
  apply keeps_bind.
  { intros w. unfold exec, initFormHandling, bind, document_querySelector. simpl.
    destruct (contactForm (formEnv w)); reflexivity. }
  intros _. destruct v; [|apply keeps_ret].
  apply keeps_bind; [intros w; unfold exec; rewrite initParallaxEffect_eq;
                     destruct (hero (pageEnv w)); reflexivity|intros _].
  unfold addParticleEffect. keeps_tac.
Qed.

Lemma init_registers_at_most_once v w :
  readyState (pageEnv w) = Loading ->
  domContentLoaded (pageEnv w) = [] ->
  init v w =
  match ThemeManager.init v w with
  | (w1, Throw e) => (w1, Throw e)
  | (w1, Normal _) =>
      (with_pageEnv (set_domContentLoaded [DomReadyListener])
         (exec initSmoothScroll (exec updateFooterYear w1)), Normal tt)
  end /\
  match ThemeManager.init v w with
  | (w1, Throw e) =>
      readyState (pageEnv w1) = Loading /\ domContentLoaded (pageEnv w1) = []
  | (w1, Normal _) =>
      readyState (pageEnv (exec initSmoothScroll (exec updateFooterYear w1))) = Loading /\
      domContentLoaded (pageEnv (exec initSmoothScroll (exec updateFooterYear w1))) = []
  end.
Proof.
  intros Hrs Hdl. rewrite init_eq.
  destruct (keeps_timing_before_deferredInit v) as (K1 & K2 & K3).
  specialize (K1 w). unfold exec in K1.
  destruct (ThemeManager.init v w) as [w1 [[]|e]]; cbn [fst snd] in *.
  - cbv zeta. specialize (K2 w1). specialize (K3 (exec updateFooterYear w1)).
    set (w3 := exec initSmoothScroll (exec updateFooterYear w1)) in *.
    assert (H3 : (readyState (pageEnv w3), domContentLoaded (pageEnv w3)) = (Loading, []))
      by (rewrite K3, K2, K1, Hrs, Hdl; reflexivity).
    injection H3 as Hr3 Hd3. rewrite Hr3. split; [|split; [reflexivity|exact Hd3]].
    clearbody w3. destruct w3 as [te ne re fe [rs0 dl0 mv ye fy he cb iw ih rn rc] dp].
    cbn in Hd3. subst dl0. reflexivity.
  - split; [reflexivity|]. injection K1 as Hr1 Hd1. split; congruence.
Qed.

(** X18: what init defers.  Let the script run while the document is still
    loading, with no DOMContentLoaded listener registered before, and let
    the parser add, before DOMContentLoaded, further elements, a contact
    form, a hero and a code block.  Then after DOMContentLoaded the page is
    exactly the page that init builds when the script runs on the parsed
    document, except for the one listener that init registered; this holds
    whether or not a part of init throws.  It does not extend to what init
    does at once: a toggle control, a year element or anchors that the
    parser adds after the script has run reach DOMContentLoaded as the
    parser built them, with no listener, glyph, label or year from the
    script. *)
Theorem deferral_covers_the_last_group (v : Variant) (w : World) (p : Parsed) :
  readyState (pageEnv w) = Loading ->
  domContentLoaded (pageEnv w) = [] ->
  let w0 := exec (init v) w in
  let early := domReady v (parseRest p w0) in
  let late := exec (init v) (with_pageEnv (set_readyState Interactive) (parseRest p w)) in
  early = with_pageEnv (set_domContentLoaded (domContentLoaded (pageEnv early))) late /\
  domContentLoaded (pageEnv late) = [] /\
  (domContentLoaded (pageEnv early) = [] \/
   domContentLoaded (pageEnv early) = [DomReadyListener]) /\
  (forall t,
     themeToggle (themeEnv (domReady v (with_themeEnv (set_themeToggle (Some t))
                                          (parseRest p w0)))) = Some t) /\
  (forall y,
     yearElement (pageEnv (domReady v (with_pageEnv (set_yearElement (Some y))
                                         (parseRest p w0)))) = Some y) /\
  (forall more,
     anchors (navEnv (domReady v (with_navEnv (fun n => set_anchors (anchors n ++ more) n)
                                    (parseRest p w0)))) =
     anchors (navEnv w0) ++ more).
Proof.
  intros Hrs Hdl w0 early late.
  destruct (init_registers_at_most_once v w Hrs Hdl) as [Hinit Hstate].
  assert (Hw : with_pageEnv (set_readyState Interactive) (parseRest p w) =
               retime Interactive [] (parseRest p w)).
  { destruct w as [te ne re fe [rs0 dl0 mv ye fy he cb iw ih rn rc] dp].
    cbn in Hdl. subst dl0. reflexivity. }
  assert (Hlate : late = retime Interactive []
            (match ThemeManager.init v w with
             | (w1, Throw _) => parseRest p w1
             | (w1, Normal _) =>
                 exec (deferredInit v)
                   (parseRest p (exec initSmoothScroll (exec updateFooterYear w1)))
             end)).
  { unfold late, exec at 1. rewrite Hw, init_eq.
    rewrite (indifferent_ThemeManager_init Interactive [] v (parseRest p w)).
    rewrite (indifferent_parseRest_ThemeManager_init p v w).
    destruct (ThemeManager.init v w) as [w1 [[]|e]]; cbn [fst snd]; [|reflexivity].
    cbv zeta.
    rewrite (indifferent_exec _ updateFooterYear) by apply indifferent_updateFooterYear.
    rewrite (indifferent_exec _ updateFooterYear) by apply indifferent_parseRest_updateFooterYear.
    rewrite (indifferent_exec _ initSmoothScroll) by apply indifferent_initSmoothScroll.
    rewrite (indifferent_exec _ initSmoothScroll)
      by apply indifferent_parseRest_initSmoothScroll.
    set (w3 := exec initSmoothScroll (exec updateFooterYear w1)).
    change (readyState (pageEnv (retime Interactive [] (parseRest p w3))))
      with Interactive. cbv iota.
    rewrite (indifferent_deferredInit Interactive [] v (parseRest p w3)). reflexivity. }
  assert (Hw0 : w0 = fst (init v w)) by reflexivity.
  rewrite Hinit in Hw0.
  assert (Hearly : forall g : World -> World,
            (forall x, readyState (pageEnv (g x)) = readyState (pageEnv x) /\
                       domContentLoaded (pageEnv (g x)) = domContentLoaded (pageEnv x)) ->
            domReady v (g (parseRest p w0)) =
            match ThemeManager.init v w with
            | (w1, Throw _) =>
                with_pageEnv (set_readyState Interactive) (g (parseRest p w1))
            | (w1, Normal _) =>
                exec (deferredInit v)
                  (with_pageEnv (set_readyState Interactive)
                     (g (parseRest p
                           (with_pageEnv (set_domContentLoaded [DomReadyListener])
                              (exec initSmoothScroll (exec updateFooterYear w1))))))
            end).
  { intros g Hg. unfold domReady. cbv zeta.
    change (domContentLoaded (pageEnv (with_pageEnv (set_readyState Interactive)
                                         (g (parseRest p w0)))))
      with (domContentLoaded (pageEnv (g (parseRest p w0)))).
    rewrite (proj2 (Hg (parseRest p w0))).
    change (domContentLoaded (pageEnv (parseRest p w0)))
      with (domContentLoaded (pageEnv w0)).
    rewrite Hw0. destruct (ThemeManager.init v w) as [w1 [[]|e]]; cbn [fst snd] in *.
    - reflexivity.
    - rewrite (proj2 Hstate). reflexivity. }
  split; [|split; [|split; [|split; [|split]]]].
  - unfold early. rewrite (Hearly (fun x => x)) by (intros x; split; reflexivity).
    rewrite Hlate. destruct (ThemeManager.init v w) as [w1 [[]|e]].
    + set (w3 := exec initSmoothScroll (exec updateFooterYear w1)).
      assert (E : with_pageEnv (set_readyState Interactive)
                    (parseRest p (with_pageEnv (set_domContentLoaded [DomReadyListener]) w3))
                  = retime Interactive [DomReadyListener] (parseRest p w3)).
      { destruct w3 as [te ne re fe [rs0 dl0 mv ye fy he cb iw ih rn rc] dp]. reflexivity. }
      rewrite E.
      rewrite (indifferent_exec _ (deferredInit v)) by apply indifferent_deferredInit.
      generalize (exec (deferredInit v) (parseRest p w3)).
      intros [te ne re fe [rs0 dl0 mv ye fy he cb iw ih rn rc] dp]. reflexivity.
    + destruct Hstate as [_ Hd1].
      destruct w1 as [te ne re fe [rs0 dl0 mv ye fy he cb iw ih rn rc] dp].
      cbn in Hd1. subst dl0. reflexivity.
  - rewrite Hlate. reflexivity.
  - unfold early. rewrite (Hearly (fun x => x)) by (intros x; split; reflexivity).
    destruct (ThemeManager.init v w) as [w1 [[]|e]].
    + right. set (w3 := exec initSmoothScroll (exec updateFooterYear w1)).
      assert (E : with_pageEnv (set_readyState Interactive)
                    (parseRest p (with_pageEnv (set_domContentLoaded [DomReadyListener]) w3))
                  = retime Interactive [DomReadyListener] (parseRest p w3)).
      { destruct w3 as [te ne re fe [rs0 dl0 mv ye fy he cb iw ih rn rc] dp]. reflexivity. }
      rewrite E.
      rewrite (indifferent_exec _ (deferredInit v)) by apply indifferent_deferredInit.
      reflexivity.
    + left. exact (proj2 Hstate).
  - intros t. rewrite (Hearly (with_themeEnv (set_themeToggle (Some t))))
      by (intros x; split; reflexivity).
    destruct (ThemeManager.init v w) as [w1 [[]|e]]; [|reflexivity].
    match goal with |- context [exec (deferredInit v) ?x] =>
      assert (K := deferredInit_keeps_early_parts v x)
    end.
    cbv beta in K. injection K as K1 _ _. rewrite K1. reflexivity.
  - intros y. rewrite (Hearly (with_pageEnv (set_yearElement (Some y))))
      by (intros x; split; reflexivity).
    destruct (ThemeManager.init v w) as [w1 [[]|e]]; [|reflexivity].
    match goal with |- context [exec (deferredInit v) ?x] =>
      assert (K := deferredInit_keeps_early_parts v x)
    end.
    cbv beta in K. injection K as _ _ K3. rewrite K3. reflexivity.
  - intros more.
    rewrite (Hearly (with_navEnv (fun n => set_anchors (anchors n ++ more) n)))
      by (intros x; split; reflexivity).
    rewrite Hw0.
    destruct (ThemeManager.init v w) as [w1 [[]|e]]; [|reflexivity].
    match goal with |- context [exec (deferredInit v) ?x] =>
      assert (K := deferredInit_keeps_early_parts v x)
    end.
    cbv beta in K. injection K as _ K2 _. rewrite K2. reflexivity.
Qed.

Lemma deferral_covers_the_last_group_witness :
  let w := with_pageEnv (set_readyState Loading)
             (with_formEnv (set_contactForm None) samplePage) in
  let p := mkParsed [mkElement ["skill-item"] None None]
             (Some (mkForm [mkField "email" "" "" ""] [] [])) None None in
  let w0 := exec (init MainJs) w in
  let early := domReady MainJs (parseRest p w0) in
  let late := exec (init MainJs) (with_pageEnv (set_readyState Interactive) (parseRest p w)) in
  early = with_pageEnv (set_domContentLoaded (domContentLoaded (pageEnv early))) late /\
  domContentLoaded (pageEnv late) = [] /\
  (domContentLoaded (pageEnv early) = [] \/
   domContentLoaded (pageEnv early) = [DomReadyListener]) /\
  (forall t,
     themeToggle (themeEnv (domReady MainJs (with_themeEnv (set_themeToggle (Some t))
                                               (parseRest p w0)))) = Some t) /\
  (forall y,
     yearElement (pageEnv (domReady MainJs (with_pageEnv (set_yearElement (Some y))
                                              (parseRest p w0)))) = Some y) /\
  (forall more,
     anchors (navEnv (domReady MainJs
                        (with_navEnv (fun n => set_anchors (anchors n ++ more) n)
                           (parseRest p w0)))) =
     anchors (navEnv w0) ++ more).
Proof.
  exact (deferral_covers_the_last_group MainJs
           (with_pageEnv (set_readyState Loading)
              (with_formEnv (set_contactForm None) samplePage))
           (mkParsed [mkElement ["skill-item"] None None]
              (Some (mkForm [mkField "email" "" "" ""] [] [])) None None)
           eq_refl eq_refl).
Defined.

(** ** Revealed elements *)

Lemma marker_kept (w0 w : World) (n : nat) (x : Element) :
  classesSince w0 w ->
  nodes (revealEnv w0) !! n = Some x -> "animate-fade-in" ∈ classList x ->
  exists x', nodes (revealEnv w) !! n = Some x' /\ "animate-fade-in" ∈ classList x'.
Proof.
  intros H Hn Hx. unfold classesSince in H.
  destruct (Forall2_lookup_l _ _ _ n (classList x) H) as (c' & Hc' & Hm).
  { rewrite list_lookup_fmap, Hn. reflexivity. }
  rewrite list_lookup_fmap in Hc'.
  destruct (nodes (revealEnv w) !! n) as [x'|]; [|discriminate].
  injection Hc' as <-. exists x'. split; [reflexivity|].
  destruct Hm as [->|[_ ->]]; [exact Hx|]. apply elem_of_app. left. exact Hx.
Qed.

Lemma revealEntry_marks (e : Entry) (w : World) (n : nat) (x : Element) :
  isIntersecting e = true -> target e = NodeRef n ->
  nodes (revealEnv w) !! n = Some x ->
  exists x', nodes (revealEnv (revealEntry e w)) !! n = Some x' /\
             "animate-fade-in" ∈ classList x'.
Proof.
  intros Hi Ht Hn. unfold revealEntry. rewrite Hi, Ht. cbn.
  rewrite list_lookup_alter_eq, Hn. cbn. eexists. split; [reflexivity|]. cbn.
  case_bool_decide as Hin; [exact Hin|]. apply elem_of_app. right. left.
Qed.

Lemma revealEntry_styles (e : Entry) (w : World) (m : nat) (y : Element) :
  nodes (revealEnv w) !! m = Some y ->
  exists y', nodes (revealEnv (revealEntry e w)) !! m = Some y' /\
             opacity y' = opacity y /\ animationDelay y' = animationDelay y.
Proof.
  intros Hm. unfold revealEntry. destruct (isIntersecting e); [|eauto].
  cbn. destruct (target e) as [| | | | | | | |n]; eauto.
  destruct (decide (n = m)) as [->|Hne].
  - rewrite list_lookup_alter_eq, Hm. cbn. eauto.
  - rewrite list_lookup_alter_ne by exact Hne. eauto.
Qed.

Lemma revealCallback_styles (es : list Entry) (w : World) (m : nat) (y : Element) :
  nodes (revealEnv w) !! m = Some y ->
  exists y', nodes (revealEnv (exec (revealCallback es) w)) !! m = Some y' /\
             opacity y' = opacity y /\ animationDelay y' = animationDelay y.
Proof.
  revert w y. induction es as [|e es IH]; intros w y Hm; [eauto|].
  unfold exec. rewrite revealCallback_cons.
  destruct (revealEntry_styles e w m y Hm) as (y1 & H1 & Ho1 & Hd1).
  destruct (IH _ y1 H1) as (y2 & H2 & Ho2 & Hd2).
  exists y2. split; [exact H2|]. split; congruence.
Qed.

Lemma revealCallback_marks (es : list Entry) (e : Entry) (w : World) (n : nat) (x : Element) :
  e ∈ es -> isIntersecting e = true -> target e = NodeRef n ->
  nodes (revealEnv w) !! n = Some x ->
  exists x', nodes (revealEnv (exec (revealCallback es) w)) !! n = Some x' /\
             "animate-fade-in" ∈ classList x'.
Proof.
  intros Hin Hi Ht. revert w x. induction es as [|e0 es IH]; intros w x Hn.
  - apply elem_of_nil in Hin. destruct Hin.
  - unfold exec. rewrite revealCallback_cons.
    apply elem_of_cons in Hin. destruct Hin as [<-|Hin].
    + destruct (revealEntry_marks e w n x Hi Ht Hn) as (x1 & H1 & Hx1).
      apply (marker_kept (revealEntry e w) _ n x1); [|exact H1|exact Hx1].
      apply classesSince_revealCallback, classesSince_refl.
    + destruct (revealEntry_styles e0 w n x Hn) as (x1 & H1 & _).
      exact (IH Hin _ x1 H1).
Qed.

(** X19: an element reported as intersecting carries the class
    animate-fade-in when the observer callback returns, and carries it
    ever after, whatever events follow.  The callback itself writes no
    style: opacity and animation delay of every element are as before. *)
Theorem revealed_stays_revealed (v : Variant) (w : World) (entries : list Entry)
    (e : Entry) (n : nat) (x : Element) (evs : list PageEvent) :
  constructed w ->
  e ∈ entries -> isIntersecting e = true -> target e = NodeRef n ->
  nodes (revealEnv w) !! n = Some x ->
  (exists x', nodes (revealEnv (run v evs (intersect entries w))) !! n = Some x' /\
              "animate-fade-in" ∈ classList x') /\
  (forall m y, nodes (revealEnv w) !! m = Some y ->
     exists y', nodes (revealEnv (intersect entries w)) !! m = Some y' /\
                opacity y' = opacity y /\ animationDelay y' = animationDelay y).
Proof.
  intros [l Hl] Hin Hi Ht Hn. unfold intersect. rewrite Hl. split.
  - destruct (revealCallback_marks entries e w n x Hin Hi Ht Hn) as (x1 & H1 & Hx1).
    apply (marker_kept (exec (revealCallback entries) w) _ n x1); [|exact H1|exact Hx1].
    apply classesSince_run, classesSince_refl.
  - intros m y Hm. apply revealCallback_styles, Hm.
Qed.

Lemma revealed_stays_revealed_witness :
  let w := exec (initScrollAnimations MainJs) samplePage in
  let entries := [mkEntry true (NodeRef 0)] in
  (exists x', nodes (revealEnv (run MainJs [MouseMoved 1 1; DocumentParsed]
                                 (intersect entries w))) !! 0 = Some x' /\
              "animate-fade-in" ∈ classList x') /\
  (forall m y, nodes (revealEnv w) !! m = Some y ->
     exists y', nodes (revealEnv (intersect entries w)) !! m = Some y' /\
                opacity y' = opacity y /\ animationDelay y' = animationDelay y).
Proof.
  apply (revealed_stays_revealed MainJs (exec (initScrollAnimations MainJs) samplePage)
           [mkEntry true (NodeRef 0)] (mkEntry true (NodeRef 0)) 0
           (mkElement ["project-card"] (Some "0") (Some (number_of_nat 0 * 0.1)%float))
           [MouseMoved 1 1; DocumentParsed]).
  - eexists. reflexivity.
  - left.
  - reflexivity.
  - reflexivity.
  - reflexivity.
Defined.

(** ** Handlers register no handlers *)

Lemma elementListeners_wiring (w w' : World) :
  wiring w' = wiring w -> elementListeners w' = elementListeners w.
Proof.
  unfold wiring, elementListeners. intros H.
  injection H as H1 H2 H3 H4 H5 _. rewrite H1, H2, H3, H4, H5. reflexivity.
Qed.

Lemma keeps_wiring_applyTheme v theme : keeps wiring (applyTheme v theme).
Proof.
  intros w. rewrite exec_applyTheme.
  destruct w as [[ls mm cs ra tg dq] ne re fe pe dp].
  unfold wiring, themedEnv. cbn.
  destruct ls as [st|]; cbn; [|reflexivity].
  destruct tg as [[[ic|] tx cl]|]; cbn; try reflexivity.
  unfold shownToggle. destruct (String.eqb theme "dark"); reflexivity.
Qed.

Lemma keeps_wiring_theme_listeners v :
  (forall matches, keeps wiring (systemThemeListener v matches)) /\
  keeps wiring (toggleTheme v).
Proof.
  split.
  - intros matches w. unfold exec. rewrite systemThemeListener_eq.
    destruct (localStorage (themeEnv w)) as [st|]; [|reflexivity].
    destruct (truthy (st !! "theme")); [reflexivity|]. apply keeps_wiring_applyTheme.
  - intros w. unfold exec. rewrite toggleTheme_eq. apply keeps_wiring_applyTheme.
Qed.

Lemma keeps_wiring_form_reset this : keeps wiring (form_reset this).
Proof.
  intros w. destruct this; try reflexivity.
  unfold exec, form_reset, wiring.
  destruct (contactForm (formEnv w)) as [c|] eqn:Hc; [|cbn; rewrite Hc; reflexivity].
  destruct (resetShadowed c); cbn; rewrite ?Hc; reflexivity.
Qed.

Lemma keeps_wiring_runListener v l e :
  l <> DomReadyListener -> keeps wiring (runListener v l e).
Proof.
  intros Hl. destruct l, e; cbn [runListener]; try congruence;
    first [ apply keeps_ret
          | apply (proj1 (keeps_wiring_theme_listeners v))
          | apply (proj2 (keeps_wiring_theme_listeners v))
          | solve [unfold anchorClickListener; keeps_tac]
          | solve [unfold submitListener; keeps_tac; apply keeps_wiring_form_reset]
          | solve [unfold mouseMoveListener; keeps_tac] ].
Qed.

Lemma keeps_wiring_dispatch v ls e w :
  DomReadyListener ∉ ls -> wiring (dispatch v ls e w) = wiring w.
Proof.
  revert w. induction ls as [|l ls IH]; intros w Hn; cbn [dispatch]; [reflexivity|].
  apply not_elem_of_cons in Hn. destruct Hn as [Hl Hn].
  rewrite (IH _ Hn). apply keeps_wiring_runListener. congruence.
Qed.

Lemma keeps_wiring_step v ev w :
  ev <> DocumentParsed -> DomReadyListener ∉ elementListeners w ->
  wiring (step v ev w) = wiring w.
Proof.
  intros Hev Hn. unfold elementListeners in Hn.
  rewrite !not_elem_of_app in Hn. destruct Hn as (Hdq & Htg & Han & Hfm & Hmv).
  destruct ev; cbn [step]; try congruence.
  - unfold osThemeChange. cbv zeta. rewrite keeps_wiring_dispatch by exact Hdq. reflexivity.
  - unfold clickToggle. destruct (themeToggle (themeEnv w)) as [t|]; [|reflexivity].
    apply keeps_wiring_dispatch. exact Htg.
  - unfold clickAnchor. destruct (anchors (navEnv w) !! i) as [a|] eqn:Ha; [|reflexivity].
    cbv zeta.
    assert (Hd : DomReadyListener ∉ anchorListeners a).
    { intros Hin. apply Han. apply list_elem_of_In, in_concat. exists (anchorListeners a).
      split; [|apply list_elem_of_In; exact Hin].
      apply list_elem_of_In, list_elem_of_fmap. exists a. split; [reflexivity|].
      eapply list_elem_of_lookup_2. exact Ha. }
    match goal with |- wiring (if defaultPrevented ?x then _ else _) = _ =>
      assert (Hx : wiring x = wiring w) by (rewrite keeps_wiring_dispatch by exact Hd; reflexivity);
      destruct (defaultPrevented x); exact Hx
    end.
  - unfold submitForm. destruct (contactForm (formEnv w)) as [c|]; [|reflexivity].
    cbv zeta.
    match goal with |- wiring (if defaultPrevented ?x then _ else _) = _ =>
      assert (Hx : wiring x = wiring w) by (rewrite keeps_wiring_dispatch by exact Hfm; reflexivity);
      destruct (defaultPrevented x); [exact Hx|]
    end.
    rewrite <- Hx. unfold wiring. cbn.
    match goal with |- context [contactForm (formEnv ?x)] =>
      destruct (contactForm (formEnv x)); reflexivity
    end.
  - unfold intersect. destruct (observed (revealEnv w)); [|reflexivity].
    assert (H : keeps wiring (revealCallback entries)) by (unfold revealCallback; keeps_tac).
    apply H.
  - apply keeps_wiring_dispatch. exact Hmv.
Qed.

(** X20: handlers register no handlers.  On a page where the closure that
    init hands to DOMContentLoaded is registered on nothing but that event,
    no sequence of OS theme changes, toggle clicks, anchor clicks, form
    submissions, observer batches and mouse moves adds or removes a listener
    anywhere: every listener list stays as it is. *)
Theorem events_register_nothing (v : Variant) (w : World) (evs : list PageEvent) :
  DocumentParsed ∉ evs ->
  DomReadyListener ∉ elementListeners w ->
  wiring (run v evs w) = wiring w.
Proof.
  revert w. induction evs as [|ev evs IH]; intros w Hev Hn; [reflexivity|].
  apply not_elem_of_cons in Hev. destruct Hev as [Hev Hevs].
  cbn [run fold_left].
  assert (Hs : wiring (step v ev w) = wiring w) by (apply keeps_wiring_step; congruence).
  change (wiring (run v evs (step v ev w)) = wiring w).
  rewrite (IH (step v ev w) Hevs); [exact Hs|].
  rewrite (elementListeners_wiring w (step v ev w) Hs). exact Hn.
Qed.

Lemma events_register_nothing_witness :
  wiring (run MainJs [ToggleClicked; AnchorClicked 1; FormSubmitted; MouseMoved 1 1]
            (exec (init MainJs) samplePage)) =
  wiring (exec (init MainJs) samplePage).
Proof.
  apply (events_register_nothing MainJs (exec (init MainJs) samplePage)
           [ToggleClicked; AnchorClicked 1; FormSubmitted; MouseMoved 1 1]).
  - vm_compute. intros H. repeat (apply elem_of_cons in H; destruct H as [H|H]; [discriminate|]).
    apply elem_of_nil in H. exact H.
  - vm_compute. intros H. repeat (apply elem_of_cons in H; destruct H as [H|H]; [discriminate|]).
    apply elem_of_nil in H. exact H.
Defined.

(** ** A browser without IntersectionObserver *)

Lemma deferredInit_no_observer v w :
  intersectionObserver (revealEnv w) = false ->
  deferredInit v w = (w, Throw ReferenceError).
Proof.
  intros Hio. unfold deferredInit, bind.
  rewrite (initScrollAnimations_no_observer v w Hio). reflexivity.
Qed.

(** X21: in a browser without IntersectionObserver, init on a parsed page
    applies the theme, writes the footer year and wires the anchors, then
    stops with a ReferenceError at the first statement of
    initScrollAnimations: the contact form gets no submit handler, no
    mousemove listener is registered and no particle is added.  A submission
    of the form is then not intercepted: no alert is shown, the fields keep
    their values and the browser sends the request. *)
Theorem no_observer_leaves_form_unhandled (v : Variant) (w : World)
    (st : gmap string string) (t : Toggle) (ic : string) (c : Form) :
  localStorage (themeEnv w) = Some st ->
  themeToggle (themeEnv w) = Some t ->
  icon t = Some ic ->
  readyState (pageEnv w) <> Loading ->
  intersectionObserver (revealEnv w) = false ->
  contactForm (formEnv w) = Some c ->
  submitListeners c = [] ->
  let w1 := exec (init v) w in
  completion (init v) w = Throw ReferenceError /\
  (exists T, getInitialTheme v w = (w, Normal T) /\ appliedTheme w1 = Some T) /\
  yearElement (pageEnv w1) = refill (pretty (fullYear (pageEnv w))) (yearElement (pageEnv w)) /\
  anchors (navEnv w1) = withSmoothScroll <$> anchors (navEnv w) /\
  formEnv w1 = formEnv w /\
  revealEnv w1 = revealEnv w /\
  mousemove (pageEnv w1) = mousemove (pageEnv w) /\
  hero (pageEnv w1) = hero (pageEnv w) /\
  let w2 := submitForm v w1 in
  defaultPrevented w2 = false /\
  alerts (formEnv w2) = alerts (formEnv w) /\
  contactForm (formEnv w2) = Some c /\
  requests (formEnv w2) =
  requests (formEnv w) ++ [(fun x => (fieldName x, fieldValue x)) <$> fields c].
Proof.
  intros Hst Htg Hic Hrs Hio Hc Hsl w1.
  destruct (ThemeManager_init_themeEnv v w st t ic Hst Htg Hic) as (T & _ & HT & Hinit).
  assert (H1 : init v w =
               (with_navEnv (fun n => set_anchors (withSmoothScroll <$> anchors n) n)
                  (with_pageEnv (fun p => set_yearElement
                                            (refill (pretty (fullYear p)) (yearElement p)) p)
                     (fst (ThemeManager.init v w))), Throw ReferenceError)).
  { rewrite init_eq, Hinit. cbv zeta. cbn [fst]. unfold exec.
    rewrite updateFooterYear_eq. cbn [fst]. rewrite initSmoothScroll_eq. cbn [fst].
    match goal with |- context [readyState (pageEnv ?x)] =>
      change (readyState (pageEnv x)) with (readyState (pageEnv w));
      assert (Hio3 : intersectionObserver (revealEnv x) = false) by exact Hio
    end.
    destruct (readyState (pageEnv w)); [congruence| |];
      apply deferredInit_no_observer; exact Hio3. }
  assert (Hw1 : w1 = fst (init v w)) by reflexivity.
  rewrite H1, Hinit in Hw1. cbn [fst] in Hw1.
  split; [unfold completion; rewrite H1; reflexivity|].
  split.
  { exists T. split; [exact HT|]. rewrite Hw1. unfold appliedTheme. cbn.
    apply lookup_insert_eq. }
  rewrite Hw1. split; [reflexivity|]. split; [reflexivity|]. split; [reflexivity|].
  split; [reflexivity|]. split; [reflexivity|]. split; [reflexivity|].
  unfold submitForm. cbn [formEnv with_navEnv with_pageEnv with_themeEnv].
  rewrite Hc, Hsl. cbn [dispatch].
  cbn [defaultPrevented with_defaultPrevented with_formEnv formEnv with_navEnv with_pageEnv
       with_themeEnv alerts requests contactForm set_requests].
  rewrite Hc. repeat split; reflexivity.
Qed.

Lemma no_observer_leaves_form_unhandled_witness :
  let w1 := exec (init MainJs) noObserverPage in
  completion (init MainJs) noObserverPage = Throw ReferenceError /\
  (exists T, getInitialTheme MainJs noObserverPage = (noObserverPage, Normal T) /\
             appliedTheme w1 = Some T) /\
  yearElement (pageEnv w1) =
    refill (pretty (fullYear (pageEnv noObserverPage))) (yearElement (pageEnv noObserverPage)) /\
  anchors (navEnv w1) = withSmoothScroll <$> anchors (navEnv noObserverPage) /\
  formEnv w1 = formEnv noObserverPage /\
  revealEnv w1 = revealEnv noObserverPage /\
  mousemove (pageEnv w1) = mousemove (pageEnv noObserverPage) /\
  hero (pageEnv w1) = hero (pageEnv noObserverPage) /\
  let w2 := submitForm MainJs w1 in
  defaultPrevented w2 = false /\
  alerts (formEnv w2) = alerts (formEnv noObserverPage) /\
  contactForm (formEnv w2) =
    Some (mkForm [mkField "name" "" "Ada" ""; mkField "message" "" "Hello" ""] [] []) /\
  requests (formEnv w2) =
  requests (formEnv noObserverPage) ++
  [(fun x => (fieldName x, fieldValue x)) <$>
     fields (mkForm [mkField "name" "" "Ada" ""; mkField "message" "" "Hello" ""] [] [])].
Proof.
  apply (no_observer_leaves_form_unhandled MainJs noObserverPage ∅
           (mkToggle (Some "") (Some "") []) ""
           (mkForm [mkField "name" "" "Ada" ""; mkField "message" "" "Hello" ""] [] []));
    first [reflexivity | discriminate].
Defined.
